(** * babel-plugin-jest-hoist: a shallow embedding of [src/index.ts]

    The plugin rewrites calls on the [jest] object so that they go through a
    lazily initialised getter, checks the free variables of mock factories,
    and hoists the rewritten calls (and the constant declarations they read)
    to the front of their block.

    The syntax tree covers the JavaScript fragment the plugin inspects:
    identifiers, literals, calls, member accesses, assignments, function and
    arrow expressions, type assertions, and the statements that hold them.
    The bodies of [if] statements and of functions are block statements; an
    arrow function with a block body is a [FunctionExpression] here.

    What Babel provides is modelled by its contract.  Scope information is
    carried by the scopable nodes ([Program], blocks and functions each own
    a [ScopeFrame]); a path's scope is the stack of the frames around it.
    A traversal visits the nodes present when it starts, once each and in
    source order, and does not enter the node types on its blacklist.  A
    path that was removed has no node, and the traversal goes on below a
    statement that was removed; the functions of [@babel/types] and of the
    paths raise on a missing node.  The plugin pass keeps
    [jestObjGetterIdentifier] for one program; [hoistedVariables] belongs to
    the module. *)

From Stdlib Require Import String Ascii List Bool Arith Lia ZArith Permutation.
Import ListNotations.
Open Scope string_scope.
Set Warnings "-register-all".

(** ** Constants of the module *)

Definition JEST_GLOBAL_NAME : string := "jest".
Definition JEST_GLOBALS_MODULE_NAME : string := "@jest/globals".
Definition JEST_GLOBALS_MODULE_JEST_EXPORT_NAME : string := "jest".

(** ** Scopes, as Babel's traversal exposes them *)

Inductive BindingPath : Type :=
| VariableDeclaratorPath (node : nat) (has_init : bool)
| ImportSpecifierPath (source imported : string)
| ImportNamespaceSpecifierPath (source : string)
| OtherBindingPath.

Record Binding : Type := mkBinding {
  path : BindingPath;
  constant : bool
}.

Record ScopeFrame : Type := mkFrame {
  bindings : list (string * Binding);
  globals : list string
}.

(** A scope is its own frame followed by the frames of its ancestors:
    [scope.parent] is the tail. *)
Definition Scope : Type := list ScopeFrame.

Fixpoint lookup {A : Type} (name : string) (l : list (string * A)) : option A :=
  match l with
  | [] => None
  | (k, v) :: l' => if String.eqb k name then Some v else lookup name l'
  end.

Definition mem (name : string) (l : list string) : bool :=
  existsb (String.eqb name) l.

(** [frame.bindings[name]] *)
Definition frame_binding (f : ScopeFrame) (name : string) : option Binding :=
  lookup name (bindings f).

(** [scope.bindings[name]]: own bindings only. *)
Definition own_binding (s : Scope) (name : string) : option Binding :=
  match s with
  | [] => None
  | f :: _ => frame_binding f name
  end.

(** [scope.getBinding(name)]: nearest frame that binds the name. *)
Fixpoint getBinding (s : Scope) (name : string) : option Binding :=
  match s with
  | [] => None
  | f :: parent =>
      match frame_binding f name with
      | Some b => Some b
      | None => getBinding parent name
      end
  end.

(** [scope.hasBinding(name)] for a name outside Babel's own list of
    built-in globals, which is the case of [jest]. *)
Definition hasBinding (s : Scope) (name : string) : bool :=
  match getBinding s name with Some _ => true | None => false end.

(** [scope.hasGlobal(name)] *)
Definition hasGlobal (s : Scope) (name : string) : bool :=
  existsb (fun f => mem name (globals f)) s.

(** ** Syntax tree *)

Inductive typeNode : Type :=
| TypeAnnotation (ids : list string)
| TSTypeAnnotation (ids : list string)
| TSTypeReference (typeName : string).

Record param : Type := mkParam {
  pname : string;
  ptype : option typeNode
}.

Inductive LVal : Type :=
| LIdentifier (name : string)
| ObjectPattern (properties : list string).

Inductive expr : Type :=
| Identifier (name : string)
| StringLiteral (value : string)
| NumericLiteral (value : Z)
| BooleanLiteral (value : bool)
| CallExpression (callee : expr) (arguments : list expr)
| MemberExpression (object : expr) (property : expr) (computed : bool)
| AssignmentExpression (left : string) (right : expr)
| FunctionExpression (params : list param) (body : block)
| ArrowFunctionExpression (params : list param) (scope : ScopeFrame) (body : expr)
| TSAsExpression (expression : expr) (typeAnnotation : typeNode)
with stmt : Type :=
| ExpressionStatement (expression : expr)
| VariableDeclaration (kind : string) (declarations : list declarator)
| BlockStatement (b : block)
| IfStatement (test : expr) (consequent : block) (alternate : option block)
| FunctionDeclaration (id : string) (params : list param) (body : block)
| ReturnStatement (argument : option expr)
| EmptyStatement
with declarator : Type :=
| VariableDeclarator (node : nat) (id : LVal) (init : option expr)
with block : Type :=
| Block (scope : ScopeFrame) (body : list stmt).

(** Induction over the four syntactic classes at once, with the induction
    hypothesis available for every element of a list of children. *)
Section AstInduction.
Variable Pe : expr -> Prop.
Variable Ps : stmt -> Prop.
Variable Pd : declarator -> Prop.
Variable Pb : block -> Prop.
Hypothesis H_Identifier : forall name, Pe (Identifier name).
Hypothesis H_StringLiteral : forall v, Pe (StringLiteral v).
Hypothesis H_NumericLiteral : forall v, Pe (NumericLiteral v).
Hypothesis H_BooleanLiteral : forall v, Pe (BooleanLiteral v).
Hypothesis H_CallExpression :
  forall callee args, Pe callee -> Forall Pe args ->
                      Pe (CallExpression callee args).
Hypothesis H_MemberExpression :
  forall object property computed, Pe object -> Pe property ->
                                   Pe (MemberExpression object property computed).
Hypothesis H_AssignmentExpression :
  forall lhs rhs, Pe rhs -> Pe (AssignmentExpression lhs rhs).
Hypothesis H_FunctionExpression :
  forall ps b, Pb b -> Pe (FunctionExpression ps b).
Hypothesis H_ArrowFunctionExpression :
  forall ps f body, Pe body -> Pe (ArrowFunctionExpression ps f body).
Hypothesis H_TSAsExpression :
  forall e t, Pe e -> Pe (TSAsExpression e t).
Hypothesis H_ExpressionStatement :
  forall e, Pe e -> Ps (ExpressionStatement e).
Hypothesis H_VariableDeclaration :
  forall kind ds, Forall Pd ds -> Ps (VariableDeclaration kind ds).
Hypothesis H_BlockStatement : forall b, Pb b -> Ps (BlockStatement b).
Hypothesis H_IfStatement :
  forall test c a, Pe test -> Pb c -> (forall b, a = Some b -> Pb b) ->
                   Ps (IfStatement test c a).
Hypothesis H_FunctionDeclaration :
  forall id ps b, Pb b -> Ps (FunctionDeclaration id ps b).
Hypothesis H_ReturnStatement :
  forall a, (forall e, a = Some e -> Pe e) -> Ps (ReturnStatement a).
Hypothesis H_EmptyStatement : Ps EmptyStatement.
Hypothesis H_VariableDeclarator :
  forall n x init, (forall e, init = Some e -> Pe e) ->
                   Pd (VariableDeclarator n x init).
Hypothesis H_Block : forall f body, Forall Ps body -> Pb (Block f body).

Fixpoint expr_ast_ind (e : expr) : Pe e :=
  match e with
  | Identifier name => H_Identifier name
  | StringLiteral v => H_StringLiteral v
  | NumericLiteral v => H_NumericLiteral v
  | BooleanLiteral v => H_BooleanLiteral v
  | CallExpression callee args =>
      H_CallExpression callee args (expr_ast_ind callee)
        ((fix all (l : list expr) : Forall Pe l :=
            match l with
            | [] => Forall_nil Pe
            | x :: l' => Forall_cons x (expr_ast_ind x) (all l')
            end) args)
  | MemberExpression object property computed =>
      H_MemberExpression object property computed
        (expr_ast_ind object) (expr_ast_ind property)
  | AssignmentExpression lhs rhs =>
      H_AssignmentExpression lhs rhs (expr_ast_ind rhs)
  | FunctionExpression ps b => H_FunctionExpression ps b (block_ast_ind b)
  | ArrowFunctionExpression ps f body =>
      H_ArrowFunctionExpression ps f body (expr_ast_ind body)
  | TSAsExpression e' t => H_TSAsExpression e' t (expr_ast_ind e')
  end
with stmt_ast_ind (s : stmt) : Ps s :=
  match s with
  | ExpressionStatement e => H_ExpressionStatement e (expr_ast_ind e)
  | VariableDeclaration kind ds =>
      H_VariableDeclaration kind ds
        ((fix all (l : list declarator) : Forall Pd l :=
            match l with
            | [] => Forall_nil Pd
            | x :: l' => Forall_cons x (declarator_ast_ind x) (all l')
            end) ds)
  | BlockStatement b => H_BlockStatement b (block_ast_ind b)
  | IfStatement test c a =>
      H_IfStatement test c a (expr_ast_ind test) (block_ast_ind c)
        match a return forall b, a = Some b -> Pb b with
        | Some b0 => fun b E =>
            match E in _ = o return match o with Some b' => Pb b' | None => True end
            with eq_refl => block_ast_ind b0 end
        | None => fun b E =>
            match E in _ = o return match o with Some _ => Pb b | None => True end
            with eq_refl => I end
        end
  | FunctionDeclaration id ps b =>
      H_FunctionDeclaration id ps b (block_ast_ind b)
  | ReturnStatement a =>
      H_ReturnStatement a
        match a return forall e, a = Some e -> Pe e with
        | Some e0 => fun e E =>
            match E in _ = o return match o with Some e' => Pe e' | None => True end
            with eq_refl => expr_ast_ind e0 end
        | None => fun e E =>
            match E in _ = o return match o with Some _ => Pe e | None => True end
            with eq_refl => I end
        end
  | EmptyStatement => H_EmptyStatement
  end
with declarator_ast_ind (d : declarator) : Pd d :=
  match d with
  | VariableDeclarator n x init =>
      H_VariableDeclarator n x init
        match init return forall e, init = Some e -> Pe e with
        | Some e0 => fun e E =>
            match E in _ = o return match o with Some e' => Pe e' | None => True end
            with eq_refl => expr_ast_ind e0 end
        | None => fun e E =>
            match E in _ = o return match o with Some _ => Pe e | None => True end
            with eq_refl => I end
        end
  end
with block_ast_ind (b : block) : Pb b :=
  match b with
  | Block f body =>
      H_Block f body
        ((fix all (l : list stmt) : Forall Ps l :=
            match l with
            | [] => Forall_nil Ps
            | x :: l' => Forall_cons x (stmt_ast_ind x) (all l')
            end) body)
  end.
Definition ast_ind
  : (forall e, Pe e) /\ (forall s, Ps s) /\ (forall d, Pd d)
    /\ (forall b, Pb b) :=
  conj expr_ast_ind
    (conj stmt_ast_ind (conj declarator_ast_ind block_ast_ind)).
End AstInduction.

Record Program : Type := mkProgram {
  program_scope : ScopeFrame;
  program_body : list stmt
}.

Definition block_scope (b : block) : ScopeFrame :=
  match b with Block f _ => f end.
Definition block_body (b : block) : list stmt :=
  match b with Block _ l => l end.
Definition declarator_node (d : declarator) : nat :=
  match d with VariableDeclarator n _ _ => n end.

(** Node tests of [@babel/types]. *)
Definition isStringLiteral (e : expr) : bool :=
  match e with StringLiteral _ => true | _ => false end.
Definition isLiteral (e : expr) : bool :=
  match e with
  | StringLiteral _ | NumericLiteral _ | BooleanLiteral _ => true
  | _ => false
  end.
Definition isFunction (e : expr) : bool :=
  match e with
  | FunctionExpression _ _ | ArrowFunctionExpression _ _ _ => true
  | _ => false
  end.
Definition isCallExpression (e : expr) : bool :=
  match e with CallExpression _ _ => true | _ => false end.

Definition typeNode_type (t : typeNode) : string :=
  match t with
  | TypeAnnotation _ => "TypeAnnotation"
  | TSTypeAnnotation _ => "TSTypeAnnotation"
  | TSTypeReference _ => "TSTypeReference"
  end.
Definition typeNode_ids (t : typeNode) : list string :=
  match t with
  | TypeAnnotation l => l
  | TSTypeAnnotation l => l
  | TSTypeReference n => [n]
  end.

(** ** Errors and the plugin's state *)

Inductive error : Type :=
| TypeError (anchor : expr) (message : string)
| ReferenceError (anchor : expr) (message : string)
| HoisterError.   (* what a visitor of [visitBlock] raises in [post] *)

(** [hoistedVariables] is the module's [WeakSet] of declarator nodes;
    [jestObjGetterIdentifier] is the plugin pass's cached identifier;
    [unshifted] holds what [program.unshiftContainer] put in front of the
    program body during the visit. *)
Record state : Type := mkState {
  hoistedVariables : list nat;
  jestObjGetterIdentifier : option string;
  unshifted : list stmt
}.

Inductive result (A : Type) : Type :=
| Return (a : A) (s : state)
| Throw (e : error) (s : state).
Arguments Return {A} a s.
Arguments Throw {A} e s.

Definition M (A : Type) : Type := state -> result A.

Definition ret {A : Type} (a : A) : M A := fun s => Return a s.
Definition throw {A : Type} (e : error) : M A := fun s => Throw e s.
Definition bind {A B : Type} (m : M A) (k : A -> M B) : M B :=
  fun s => match m s with
           | Return a s' => k a s'
           | Throw e s' => Throw e s'
           end.

Declare Scope plugin_scope.
Delimit Scope plugin_scope with plugin.
Notation "x <- m ;; k" := (bind m (fun x => k))
  (at level 61, m at next level, right associativity) : plugin_scope.
Open Scope plugin_scope.

Definition mapM {A B : Type} (f : A -> M B) : list A -> M (list B) :=
  fix go (l : list A) : M (list B) :=
    match l with
    | [] => ret []
    | a :: l' => b <- f a ;; bs <- go l' ;; ret (b :: bs)
    end.

Definition has (n : nat) (set : list nat) : bool := existsb (Nat.eqb n) set.
Definition add (n : nat) (set : list nat) : list nat :=
  if has n set then set else n :: set.

(** The state after [hoistedVariables.add(node)]. *)
Definition marked (node : nat) (s : state) : state :=
  mkState (add node (hoistedVariables s)) (jestObjGetterIdentifier s)
          (unshifted s).

Definition hoistedVariables_add (n : nat) : M unit :=
  fun s => Return tt (marked n s).

(** ** The two name patterns *)

Definition lower (c : ascii) : ascii :=
  let n := nat_of_ascii c in
  if ((65 <=? n) && (n <=? 90))%nat then ascii_of_nat (n + 32) else c.

(** [/^mock/i.test(name)] *)
Definition test_mock_i (name : string) : bool :=
  match name with
  | String a (String b (String c (String d _))) =>
      Ascii.eqb (lower a) "m" && Ascii.eqb (lower b) "o" &&
      Ascii.eqb (lower c) "c" && Ascii.eqb (lower d) "k"
  | _ => false
  end.

(** [/^(?:__)?cov/.test(name)] *)
Definition test_cov (name : string) : bool :=
  String.prefix "cov" name || String.prefix "__cov" name.

Definition nl : string := String (ascii_of_nat 10) EmptyString.

(** [array.join(', ')] *)
Fixpoint join (sep : string) (l : list string) : string :=
  match l with
  | [] => ""
  | [x] => x
  | x :: l' => x ++ sep ++ join sep l'
  end.

(** [array.sort()] on strings, and the deduplication done by [new Set]. *)
Fixpoint insert_sorted (x : string) (l : list string) : list string :=
  match l with
  | [] => [x]
  | y :: l' => if String.leb x y then x :: l else y :: insert_sorted x l'
  end.
Definition sort (l : list string) : list string :=
  fold_right insert_sorted [] l.
Definition new_Set (l : list string) : list string :=
  fold_left (fun set x => if mem x set then set else (set ++ [x])%list) l [].

(** ** Identifier paths collected by [IDVisitor] *)

(** A referenced identifier found inside a factory: its name and the frames
    from [id.scope] up to, and excluding, the scope of the call. *)
Record IdPath : Type := mkIdPath {
  id_name : string;
  id_scopes : list ScopeFrame
}.

Definition IDVisitor_blacklist : list string :=
  ["TypeAnnotation"; "TSTypeAnnotation"; "TSTypeReference"].

Section Traverse.
(** Node types the traversal does not descend into. *)
Variable blacklist : list string.

Definition ids_type (inner : list ScopeFrame) (t : typeNode) : list IdPath :=
  if mem (typeNode_type t) blacklist then []
  else map (fun n => mkIdPath n inner) (typeNode_ids t).

Definition ids_param (inner : list ScopeFrame) (p : param) : list IdPath :=
  match ptype p with
  | Some t => ids_type inner t
  | None => []
  end.

(** [ReferencedIdentifier] paths in traversal order.  The property of a
    non-computed member access and the target of an assignment are not
    references. *)
Fixpoint ids_expr (inner : list ScopeFrame) (e : expr) : list IdPath :=
  match e with
  | Identifier name => [mkIdPath name inner]
  | StringLiteral _ | NumericLiteral _ | BooleanLiteral _ => []
  | CallExpression callee args =>
      ids_expr inner callee ++ flat_map (ids_expr inner) args
  | MemberExpression object property computed =>
      ids_expr inner object ++
      (if computed then ids_expr inner property else [])
  | AssignmentExpression _ rhs => ids_expr inner rhs
  | FunctionExpression ps b =>
      flat_map (ids_param (block_scope b :: inner)) ps ++ ids_block inner b
  | ArrowFunctionExpression ps f body =>
      flat_map (ids_param (f :: inner)) ps ++ ids_expr (f :: inner) body
  | TSAsExpression e' t => ids_expr inner e' ++ ids_type inner t
  end
with ids_stmt (inner : list ScopeFrame) (s : stmt) : list IdPath :=
  match s with
  | ExpressionStatement e => ids_expr inner e
  | VariableDeclaration _ ds => flat_map (ids_declarator inner) ds
  | BlockStatement b => ids_block inner b
  | IfStatement test c a =>
      ids_expr inner test ++ ids_block inner c ++
      match a with Some b => ids_block inner b | None => [] end
  | FunctionDeclaration _ ps b =>
      flat_map (ids_param (block_scope b :: inner)) ps ++ ids_block inner b
  | ReturnStatement (Some e) => ids_expr inner e
  | ReturnStatement None => []
  | EmptyStatement => []
  end
with ids_declarator (inner : list ScopeFrame) (d : declarator) : list IdPath :=
  match d with
  | VariableDeclarator _ _ (Some e) => ids_expr inner e
  | VariableDeclarator _ _ None => []
  end
with ids_block (inner : list ScopeFrame) (b : block) : list IdPath :=
  match b with
  | Block f body => flat_map (ids_stmt (f :: inner)) body
  end.

(** [moduleFactory.traverse(visitor, {ids})]: the children of the factory. *)
Definition traverse_ids (moduleFactory : expr) : list IdPath :=
  match moduleFactory with
  | FunctionExpression ps b =>
      flat_map (ids_param [block_scope b]) ps ++ ids_block [] b
  | ArrowFunctionExpression ps f body =>
      flat_map (ids_param [f]) ps ++ ids_expr [f] body
  | _ => []
  end.
End Traverse.

(** Rewriting of the type nodes of a tree, every other node kept. *)
Section Retype.
Variable f : typeNode -> typeNode.

Definition retype_param (p : param) : param :=
  mkParam (pname p) (option_map f (ptype p)).

Fixpoint retype_expr (e : expr) : expr :=
  match e with
  | CallExpression callee args =>
      CallExpression (retype_expr callee) (map retype_expr args)
  | MemberExpression object property computed =>
      MemberExpression (retype_expr object) (retype_expr property) computed
  | AssignmentExpression lhs rhs => AssignmentExpression lhs (retype_expr rhs)
  | FunctionExpression ps b =>
      FunctionExpression (map retype_param ps) (retype_block b)
  | ArrowFunctionExpression ps fr body =>
      ArrowFunctionExpression (map retype_param ps) fr (retype_expr body)
  | TSAsExpression e' t => TSAsExpression (retype_expr e') (f t)
  | _ => e
  end
with retype_stmt (s : stmt) : stmt :=
  match s with
  | ExpressionStatement e => ExpressionStatement (retype_expr e)
  | VariableDeclaration kind ds =>
      VariableDeclaration kind (map retype_declarator ds)
  | BlockStatement b => BlockStatement (retype_block b)
  | IfStatement test c a =>
      IfStatement (retype_expr test) (retype_block c)
        match a with Some b => Some (retype_block b) | None => None end
  | FunctionDeclaration id ps b =>
      FunctionDeclaration id (map retype_param ps) (retype_block b)
  | ReturnStatement (Some e) => ReturnStatement (Some (retype_expr e))
  | ReturnStatement None => s
  | EmptyStatement => s
  end
with retype_declarator (d : declarator) : declarator :=
  match d with
  | VariableDeclarator n x (Some e) =>
      VariableDeclarator n x (Some (retype_expr e))
  | VariableDeclarator _ _ None => d
  end
with retype_block (b : block) : block :=
  match b with
  | Block fr statements => Block fr (map retype_stmt statements)
  end.
End Retype.

Inductive group : Type := Declarations | Calls | Rest.

Definition group_eqb (g1 g2 : group) : bool :=
  match g1, g2 with
  | Declarations, Declarations | Calls, Calls | Rest, Rest => true
  | _, _ => false
  end.

(** The block statements inside an expression or a statement that are
    reached without passing through another block statement. *)
Fixpoint blocks_expr (e : expr) : list block :=
  match e with
  | CallExpression callee args =>
      blocks_expr callee ++ flat_map blocks_expr args
  | MemberExpression object property _ =>
      blocks_expr object ++ blocks_expr property
  | AssignmentExpression _ rhs => blocks_expr rhs
  | FunctionExpression _ b => [b]
  | ArrowFunctionExpression _ _ body => blocks_expr body
  | TSAsExpression e' _ => blocks_expr e'
  | _ => []
  end.

Definition blocks_declarator (d : declarator) : list block :=
  match d with
  | VariableDeclarator _ _ (Some e) => blocks_expr e
  | VariableDeclarator _ _ None => []
  end.

Definition blocks_stmt (s : stmt) : list block :=
  match s with
  | ExpressionStatement e => blocks_expr e
  | VariableDeclaration _ ds => flat_map blocks_declarator ds
  | BlockStatement b => [b]
  | IfStatement test c a =>
      blocks_expr test ++ c :: match a with Some b => [b] | None => [] end
  | FunctionDeclaration _ _ b => [b]
  | ReturnStatement (Some e) => blocks_expr e
  | ReturnStatement None => []
  | EmptyStatement => []
  end.

(** An expression without what its function bodies hold. *)
Fixpoint outline (e : expr) : expr :=
  match e with
  | CallExpression callee args =>
      CallExpression (outline callee) (map outline args)
  | MemberExpression object property computed =>
      MemberExpression (outline object) (outline property) computed
  | AssignmentExpression lhs rhs => AssignmentExpression lhs (outline rhs)
  | FunctionExpression ps (Block f _) => FunctionExpression ps (Block f [])
  | ArrowFunctionExpression ps f body =>
      ArrowFunctionExpression ps f (outline body)
  | TSAsExpression e' t => TSAsExpression (outline e') t
  | _ => e
  end.

(** ** What the hoister's walk works with *)

(** Node types, as a [blacklist] names them. *)
Definition expr_type (e : expr) : string :=
  match e with
  | Identifier _ => "Identifier"
  | StringLiteral _ => "StringLiteral"
  | NumericLiteral _ => "NumericLiteral"
  | BooleanLiteral _ => "BooleanLiteral"
  | CallExpression _ _ => "CallExpression"
  | MemberExpression _ _ _ => "MemberExpression"
  | AssignmentExpression _ _ => "AssignmentExpression"
  | FunctionExpression _ _ => "FunctionExpression"
  | ArrowFunctionExpression _ _ _ => "ArrowFunctionExpression"
  | TSAsExpression _ _ => "TSAsExpression"
  end.
Definition stmt_type (s : stmt) : string :=
  match s with
  | ExpressionStatement _ => "ExpressionStatement"
  | VariableDeclaration _ _ => "VariableDeclaration"
  | BlockStatement _ => "BlockStatement"
  | IfStatement _ _ _ => "IfStatement"
  | FunctionDeclaration _ _ _ => "FunctionDeclaration"
  | ReturnStatement _ => "ReturnStatement"
  | EmptyStatement => "EmptyStatement"
  end.

(** The exceptions that leave the two visitors of [visitBlock]. *)
Inductive failure : Type :=
| NullDeclarator      (* [variableDeclaration(kind, [varDecl.node])] once
                         [varDecl.remove()] has set [varDecl.node] to null *)
| ParentRemoved       (* [varDecl.parentPath.assertVariableDeclaration()] on
                         a declaration that was removed *)
| NoStatementParent.  (* [callExpr.getStatementParent()] below a statement
                         that was removed *)

Inductive attempt (A : Type) : Type :=
| Done (a : A)
| Raised (f : failure).
Arguments Done {A} a.
Arguments Raised {A} f.

(** What a walk moved in front of the two hoist points, in the order of
    the insertions. *)
Record moved : Type := mkMoved {
  moved_vars : list stmt;
  moved_calls : list stmt
}.

Definition nothing : moved := mkMoved [] [].
Definition moved_app (a b : moved) : moved :=
  mkMoved (moved_vars a ++ moved_vars b)%list
          (moved_calls a ++ moved_calls b)%list.

(** How the statement being walked left its block. *)
Inductive removal : Type :=
| ByCall          (* [mockStmt.remove()] in [visitCallExpr] *)
| ByDeclarator.   (* [varDecl.parentPath.remove()] in
                     [visitVariableDeclarator] *)

(** The walk below one statement of a block: whether the statement was
    removed, and what the walk moved out of the blocks nested in it before
    and after that. *)
Record walking : Type := mkWalking {
  removed : option removal;
  moved_before : moved;
  moved_after : moved
}.

Definition start : walking := mkWalking None nothing nothing.

Definition W (A : Type) : Type := walking -> attempt (A * walking).

Definition wret {A : Type} (a : A) : W A := fun w => Done (a, w).
Definition wbind {A B : Type} (m : W A) (k : A -> W B) : W B :=
  fun w => match m w with
           | Done (a, w') => k a w'
           | Raised f => Raised f
           end.

Declare Scope walk_scope.
Delimit Scope walk_scope with walk.
Notation "x <~ m ;; k" := (wbind m (fun x => k))
  (at level 61, m at next level, right associativity) : walk_scope.

Definition mapW {A B : Type} (f : A -> W B) : list A -> W (list B) :=
  fix go (l : list A) : W (list B) :=
    match l with
    | [] => wret []
    | a :: l' => wbind (f a) (fun b => wbind (go l') (fun bs => wret (b :: bs)))
    end.

(** The statement and what was moved out of it, once its walk is over.
    The node inserted before a hoist point is the statement's own node (or
    a declaration of its one declarator), so it shows what the rest of the
    walk did inside it. *)
Definition conclude (s : stmt) (w : walking) : option stmt * moved :=
  match removed w with
  | None => (Some s, moved_app (moved_before w) (moved_after w))
  | Some ByCall =>
      (None, moved_app (moved_before w)
               (moved_app (mkMoved [] [s]) (moved_after w)))
  | Some ByDeclarator =>
      (None, moved_app (moved_before w)
               (moved_app (mkMoved [s] []) (moved_after w)))
  end.

(** Insertions made while a statement nested in the walked one is walked. *)
Definition emit (m : moved) (w : walking) : walking :=
  match removed w with
  | None => mkWalking None (moved_app (moved_before w) m) (moved_after w)
  | Some r => mkWalking (Some r) (moved_before w) (moved_app (moved_after w) m)
  end.

Definition nested (r : attempt (stmt * walking)) : W (list stmt) :=
  fun w =>
    match r with
    | Raised f => Raised f
    | Done (s, ws) =>
        let (kept, m) := conclude s ws in
        Done (match kept with Some s' => [s'] | None => [] end, emit m w)
    end.

(** The walk below a statement once it met [n] more calls of the getter:
    the first removes the statement, a later one raises. *)
Fixpoint meet_calls (n : nat) (w : walking) : attempt walking :=
  match n with
  | O => Done w
  | S n' =>
      match removed w with
      | None =>
          meet_calls n' (mkWalking (Some ByCall) (moved_before w)
                           (moved_after w))
      | Some _ => Raised NoStatementParent
      end
  end.

(** A walk that changed nothing in what it walked. *)
Definition met {A : Type} (a : A) (r : attempt walking)
  : attempt (A * walking) :=
  match r with
  | Done w => Done (a, w)
  | Raised f => Raised f
  end.

(** The statement a walk left in place, if it did. *)
Definition stays (r : option stmt * moved) : list stmt :=
  match fst r with Some s => [s] | None => [] end.

(** ** The plugin *)

Section Plugin.
(** What the host provides: the property names of the runtime's [global]
    object, Babel's purity test of a declarator's initializer
    ([scope.isPure(node.init, true)], keyed by the declarator node),
    [scope.generateUidIdentifier], and the identity of the declarator node
    that the getter template creates. *)
Variable global_property_names : list string.
Variable isPure : Scope -> nat -> bool.
Variable generateUidIdentifier : ScopeFrame -> string -> string.
Variable template_declarator_node : nat.

Definition ALLOWED_IDENTIFIERS : list string :=
  new_Set (sort
    (["Array"; "ArrayBuffer"; "Boolean"; "BigInt"; "DataView"; "Date";
      "Error"; "EvalError"; "Float32Array"; "Float64Array"; "Function";
      "Generator"; "GeneratorFunction"; "Infinity"; "Int16Array";
      "Int32Array"; "Int8Array"; "InternalError"; "Intl"; "JSON"; "Map";
      "Math"; "NaN"; "Number"; "Object"; "Promise"; "Proxy"; "RangeError";
      "ReferenceError"; "Reflect"; "RegExp"; "Set"; "String"; "Symbol";
      "SyntaxError"; "TypeError"; "URIError"; "Uint16Array"; "Uint32Array";
      "Uint8Array"; "Uint8ClampedArray"; "WeakMap"; "WeakSet"; "arguments";
      "console"; "expect"; "isNaN"; "jest"; "parseFloat"; "parseInt";
      "exports"; "require"; "module"; "__filename"; "__dirname";
      "undefined"] ++ global_property_names)).

Definition invalid_factory_message : string :=
  "The second argument of `jest.mock` must be an inline function." ++ nl.

Definition out_of_scope_message (name : string) : string :=
  "The module factory of `jest.mock()` is not allowed to " ++
  "reference any out-of-scope variables." ++ nl ++
  "Invalid variable access: " ++ name ++ nl ++
  "Allowed objects: " ++ join ", " ALLOWED_IDENTIFIERS ++ "." ++ nl ++
  "Note: This is a precaution to guard against uninitialized mock " ++
  "variables. If it is ensured that the mock is required lazily, " ++
  "variable names prefixed with `mock` (case insensitive) are permitted." ++
  nl.

(** The [while (scope !== parentScope)] loop: [true] when a frame between
    the identifier's own scope and the call's scope binds the name. *)
Fixpoint found_before_parent (scopes : list ScopeFrame) (name : string) : bool :=
  match scopes with
  | [] => false
  | scope :: parent =>
      match frame_binding scope name with
      | Some _ => true
      | None => found_before_parent parent name
      end
  end.

(** The first test of [isAllowedIdentifier]. *)
Definition allowed_by_name (scope : Scope) (name : string) : bool :=
  (hasGlobal scope name && mem name ALLOWED_IDENTIFIERS)
  || test_mock_i name
  || test_cov name.

(** The test guarding [hoistedVariables.add(node)]: the declarator node
    when the binding is a constant declarator with a pure initializer. *)
Definition hoistable_binding (scope : Scope) (name : string) : option nat :=
  match own_binding scope name with
  | Some binding =>
      match path binding with
      | VariableDeclaratorPath node initNode =>
          if initNode && constant binding && isPure scope node
          then Some node else None
      | _ => None
      end
  | None => None
  end.

(** Body of [for (const id of ids)]. *)
Definition check_id (parentScope : Scope) (id : IdPath) : M unit :=
  let name := id_name id in
  if found_before_parent (id_scopes id) name then ret tt
  else
    let scope := parentScope in
    if allowed_by_name scope name then ret tt
    else
      match hoistable_binding scope name with
      | Some node => hoistedVariables_add node
      | None =>
          throw (ReferenceError (Identifier name) (out_of_scope_message name))
      end.

Fixpoint for_each_id (parentScope : Scope) (ids : list IdPath) : M unit :=
  match ids with
  | [] => ret tt
  | id :: rest =>
      _ <- check_id parentScope id ;; for_each_id parentScope rest
  end.

(** [FUNCTIONS.mock]; [parentScope] is [moduleFactory.parentPath.scope]. *)
Definition FUNCTIONS_mock (parentScope : Scope) (args : list expr) : M bool :=
  match args with
  | [a] => ret (isStringLiteral a || isLiteral a)
  | _ :: moduleFactory :: ([] | [_]) =>
      if negb (isFunction moduleFactory) then
        throw (TypeError moduleFactory invalid_factory_message)
      else
        _ <- for_each_id parentScope
               (traverse_ids IDVisitor_blacklist moduleFactory) ;;
        ret true
  | _ => ret false
  end.

Definition FUNCTIONS_unmock (args : list expr) : M bool :=
  ret (match args with [a] => isStringLiteral a | _ => false end).
Definition FUNCTIONS_deepUnmock (args : list expr) : M bool :=
  ret (match args with [a] => isStringLiteral a | _ => false end).
Definition FUNCTIONS_enableAutomock (args : list expr) : M bool :=
  ret (match args with [] => true | _ => false end).

(** The table; a name without an entry gives [undefined]. *)
Definition FUNCTIONS (propertyName : string)
  : option (Scope -> list expr -> M bool) :=
  if String.eqb propertyName "mock" then Some FUNCTIONS_mock
  else if String.eqb propertyName "unmock" then Some (fun _ => FUNCTIONS_unmock)
  else if String.eqb propertyName "deepUnmock"
    then Some (fun _ => FUNCTIONS_deepUnmock)
  else if String.eqb propertyName "disableAutomock"
    then Some (fun _ => FUNCTIONS_enableAutomock)
  else if String.eqb propertyName "enableAutomock"
    then Some (fun _ => FUNCTIONS_enableAutomock)
  else None.

(** [path.referencesImport(moduleSource, importName)] for an identifier. *)
Definition referencesImport (scope : Scope) (e : expr)
    (moduleSource importName : string) : bool :=
  match e with
  | Identifier name =>
      match getBinding scope name with
      | Some b =>
          match path b with
          | ImportSpecifierPath source imported =>
              String.eqb source moduleSource && String.eqb imported importName
          | ImportNamespaceSpecifierPath source =>
              String.eqb source moduleSource && String.eqb importName "*"
          | _ => false
          end
      | None => false
      end
  | _ => false
  end.

Definition isJestObject (scope : Scope) (expression : expr) : bool :=
  if match expression with
     | Identifier name =>
         String.eqb name JEST_GLOBAL_NAME
         && negb (hasBinding scope JEST_GLOBAL_NAME)
     | _ => false
     end
  then true
  else if referencesImport scope expression JEST_GLOBALS_MODULE_NAME
            JEST_GLOBALS_MODULE_JEST_EXPORT_NAME
  then true
  else match expression with
       | MemberExpression object property false =>
           referencesImport scope object JEST_GLOBALS_MODULE_NAME "*"
           && match property with
              | Identifier name =>
                  String.eqb name JEST_GLOBALS_MODULE_JEST_EXPORT_NAME
              | _ => false
              end
       | _ => false
       end.

(** [property.node.name] *)
Definition property_name (property : expr) : option string :=
  match property with
  | Identifier name => Some name
  | _ => None
  end.

(** [FUNCTIONS[propertyName]?.(args)] *)
Definition call_FUNCTIONS (scope : Scope) (property : expr)
    (args : list expr) : M bool :=
  match property_name property with
  | Some propertyName =>
      match FUNCTIONS propertyName with
      | Some f => f scope args
      | None => ret false
      end
  | None => ret false
  end.

Fixpoint extractJestObjExprIfHoistable (scope : Scope) (e : expr)
  : M (option expr) :=
  match e with
  | CallExpression callee args =>
      match callee with
      | MemberExpression object property false =>
          jestObjExpr <-
            (if isJestObject scope object then ret (Some object)
             else extractJestObjExprIfHoistable scope object) ;;
          match jestObjExpr with
          | None => ret None
          | Some j =>
              functionLooksHoistable <- call_FUNCTIONS scope property args ;;
              ret (if functionLooksHoistable : bool then Some j else None)
          end
      | _ => ret None
      end
  | _ => ret None
  end.

(** Whether the receiver chain of a call, followed through non-computed
    member calls, reaches a reference to the jest object. *)
Fixpoint receiver_reaches_jest (scope : Scope) (e : expr) : bool :=
  match e with
  | CallExpression (MemberExpression object _ false) _ =>
      isJestObject scope object || receiver_reaches_jest scope object
  | _ => false
  end.

(** The detector's resolution of the receiver [object] of a call. *)
Definition resolve_receiver (scope : Scope) (object : expr) : M (option expr) :=
  if isJestObject scope object then ret (Some object)
  else extractJestObjExprIfHoistable scope object.

(** *** The getter *)

(** The statement built by the [createJestObjectGetter] template. *)
Definition createJestObjectGetter (GETTER_NAME : string) : stmt :=
  FunctionDeclaration GETTER_NAME []
    (Block
       (mkFrame
          [(JEST_GLOBALS_MODULE_JEST_EXPORT_NAME,
            mkBinding (VariableDeclaratorPath template_declarator_node true)
                      true)]
          [])
       [VariableDeclaration "const"
          [VariableDeclarator template_declarator_node
             (ObjectPattern [JEST_GLOBALS_MODULE_JEST_EXPORT_NAME])
             (Some (CallExpression (Identifier "require")
                      [StringLiteral JEST_GLOBALS_MODULE_NAME]))];
        ExpressionStatement
          (AssignmentExpression GETTER_NAME
             (ArrowFunctionExpression [] (mkFrame [] [])
                (Identifier JEST_GLOBALS_MODULE_JEST_EXPORT_NAME)));
        ReturnStatement
          (Some (Identifier JEST_GLOBALS_MODULE_JEST_EXPORT_NAME))]).

(** [this.declareJestObjGetterIdentifier], set up in [pre] for a program
    whose scope is [program]. *)
Definition declareJestObjGetterIdentifier (program : ScopeFrame) : M string :=
  fun s =>
    match jestObjGetterIdentifier s with
    | Some id => Return id s
    | None =>
        let id := generateUidIdentifier program "getJestObj" in
        Return id
          (mkState (hoistedVariables s) (Some id)
                   (createJestObjectGetter id :: unshifted s))
    end.

(** What was unshifted is the declaration of the cached getter, if any. *)
Definition one_getter (s : state) : Prop :=
  unshifted s
  = match jestObjGetterIdentifier s with
    | Some id => [createJestObjectGetter id]
    | None => []
    end.

(** A computation that keeps [one_getter], whether it returns or raises. *)
Definition keeps_one_getter {A : Type} (m : M A) : Prop :=
  forall s, one_getter s ->
            match m s with
            | Return _ s' => one_getter s'
            | Throw _ s' => one_getter s'
            end.

(** The answer of the rule of [FUNCTIONS] for a method, when that rule
    neither reads nor writes the state nor raises: every rule but
    [mock] with a factory.  A method without a rule answers [false]. *)
Definition stateless_rule (property : expr) (args : list expr) : option bool :=
  match property_name property with
  | Some propertyName =>
      if String.eqb propertyName "mock" then
        match args with
        | [a] => Some (isStringLiteral a || isLiteral a)
        | _ :: _ :: ([] | [_]) => None
        | _ => Some false
        end
      else if String.eqb propertyName "unmock"
              || String.eqb propertyName "deepUnmock" then
        Some match args with [a] => isStringLiteral a | _ => false end
      else if String.eqb propertyName "disableAutomock"
              || String.eqb propertyName "enableAutomock" then
        Some match args with [] => true | _ => false end
      else Some false
  | None => Some false
  end.

(** The detector's answer for a chain on which no factory is validated;
    [None] when a factory would be. *)
Fixpoint detect_without_factory (scope : Scope) (e : expr)
  : option (option expr) :=
  match e with
  | CallExpression (MemberExpression object property false) args =>
      match (if isJestObject scope object then Some (Some object)
             else detect_without_factory scope object) with
      | Some (Some j) =>
          match stateless_rule property args with
          | Some true => Some (Some j)
          | Some false => Some None
          | None => None
          end
      | Some None => Some None
      | None => None
      end
  | _ => Some None
  end.

(** The detector rejects the expression and validates no factory. *)
Definition inert (scope : Scope) (e : expr) : bool :=
  match detect_without_factory scope e with
  | Some None => true
  | _ => false
  end.

(** The names that have a rule in [FUNCTIONS]. *)
Definition rule_names : list string :=
  ["mock"; "unmock"; "deepUnmock"; "disableAutomock"; "enableAutomock"].

(** The properties called along a chain, from the trailing call down to
    the call on the jest object. *)
Fixpoint chain_properties (scope : Scope) (e : expr) : list expr :=
  match e with
  | CallExpression (MemberExpression object property false) _ =>
      property :: (if isJestObject scope object then []
                   else chain_properties scope object)
  | _ => []
  end.

(** Whether the identifier loop lets an identifier pass, and the
    declarator it marks when it does. *)
Definition accepted (parentScope : Scope) (id : IdPath) : bool :=
  found_before_parent (id_scopes id) (id_name id)
  || allowed_by_name parentScope (id_name id)
  || match hoistable_binding parentScope (id_name id) with
     | Some _ => true
     | None => false
     end.

Definition mark_of (parentScope : Scope) (id : IdPath) : list nat :=
  if found_before_parent (id_scopes id) (id_name id)
     || allowed_by_name parentScope (id_name id)
  then []
  else match hoistable_binding parentScope (id_name id) with
       | Some node => [node]
       | None => []
       end.

(** The state after [hoistedVariables.add] of each node in turn. *)
Definition mark_all (nodes : list nat) (s : state) : state :=
  fold_left (fun st node => marked node st) nodes s.

(** Whether the identifier loop lets an identifier pass without marking
    a declarator. *)
Definition passes_unmarked (parentScope : Scope) (id : IdPath) : bool :=
  found_before_parent (id_scopes id) (id_name id)
  || allowed_by_name parentScope (id_name id).

(** The answer of the rule of [FUNCTIONS] for a method, when the rule does
    not raise: as [stateless_rule], and for [mock] with a factory when the
    factory is a function and the loop lets every identifier [pass]. *)
Definition rule_answer (pass : Scope -> IdPath -> bool) (scope : Scope)
    (property : expr) (args : list expr) : option bool :=
  match stateless_rule property args with
  | Some b => Some b
  | None =>
      match args with
      | _ :: moduleFactory :: _ =>
          if isFunction moduleFactory
             && forallb (pass scope)
                  (traverse_ids IDVisitor_blacklist moduleFactory)
          then Some true
          else None
      | _ => None
      end
  end.

(** The detector's answer for a chain on which no rule raises and every
    identifier of a validated factory passes; [None] otherwise. *)
Fixpoint detect_with (pass : Scope -> IdPath -> bool) (scope : Scope)
    (e : expr) : option (option expr) :=
  match e with
  | CallExpression (MemberExpression object property false) args =>
      match (if isJestObject scope object then Some (Some object)
             else detect_with pass scope object) with
      | Some (Some j) =>
          match rule_answer pass scope property args with
          | Some true => Some (Some j)
          | Some false => Some None
          | None => None
          end
      | Some None => Some None
      | None => None
      end
  | _ => Some None
  end.

(** The detector rejects the expression, raises nothing and marks no
    declarator. *)
Definition calm (scope : Scope) (e : expr) : bool :=
  match detect_with passes_unmarked scope e with
  | Some None => true
  | _ => false
  end.

(** The detector accepts the expression. *)
Definition accepts (scope : Scope) (e : expr) : bool :=
  match detect_with accepted scope e with
  | Some (Some _) => true
  | _ => false
  end.

(** [n] calls of [declareJestObjGetterIdentifier], with what each
    returned. *)
Fixpoint declare_times (program : ScopeFrame) (n : nat) : M (list string) :=
  match n with
  | O => ret []
  | S n' =>
      id <- declareJestObjGetterIdentifier program ;;
      ids <- declare_times program n' ;;
      ret (id :: ids)
  end.

(** Every expression statement of the tree is calm. *)
Fixpoint settled_expr (scope : Scope) (e : expr) : bool :=
  match e with
  | CallExpression callee args =>
      settled_expr scope callee && forallb (settled_expr scope) args
  | MemberExpression object property _ =>
      settled_expr scope object && settled_expr scope property
  | AssignmentExpression _ rhs => settled_expr scope rhs
  | FunctionExpression _ b => settled_block scope b
  | ArrowFunctionExpression _ f body => settled_expr (f :: scope) body
  | TSAsExpression e' _ => settled_expr scope e'
  | _ => true
  end
with settled_stmt (scope : Scope) (s : stmt) : bool :=
  match s with
  | ExpressionStatement e => calm scope e && settled_expr scope e
  | VariableDeclaration _ ds => forallb (settled_declarator scope) ds
  | BlockStatement b => settled_block scope b
  | IfStatement test c a =>
      settled_expr scope test && settled_block scope c
      && match a with Some b => settled_block scope b | None => true end
  | FunctionDeclaration _ _ b => settled_block scope b
  | ReturnStatement (Some e) => settled_expr scope e
  | ReturnStatement None => true
  | EmptyStatement => true
  end
with settled_declarator (scope : Scope) (d : declarator) : bool :=
  match d with
  | VariableDeclarator _ _ (Some e) => settled_expr scope e
  | VariableDeclarator _ _ None => true
  end
with settled_block (scope : Scope) (b : block) : bool :=
  match b with
  | Block f statements => forallb (settled_stmt (f :: scope)) statements
  end.

Definition settled (p : Program) : bool :=
  forallb (settled_stmt [program_scope p]) (program_body p).

(** Every expression statement of the tree is one the detector accepts, or
    rejects before it validates a factory, or rejects without marking a
    declarator while every expression statement nested in it is rejected
    without a mark as well. *)
Fixpoint steady_expr (scope : Scope) (e : expr) : bool :=
  match e with
  | CallExpression callee args =>
      steady_expr scope callee && forallb (steady_expr scope) args
  | MemberExpression object property _ =>
      steady_expr scope object && steady_expr scope property
  | AssignmentExpression _ rhs => steady_expr scope rhs
  | FunctionExpression _ b => steady_block scope b
  | ArrowFunctionExpression _ f body => steady_expr (f :: scope) body
  | TSAsExpression e' _ => steady_expr scope e'
  | _ => true
  end
with steady_stmt (scope : Scope) (s : stmt) : bool :=
  match s with
  | ExpressionStatement e =>
      (accepts scope e || inert scope e
       || (calm scope e && settled_expr scope e))
      && steady_expr scope e
  | VariableDeclaration _ ds => forallb (steady_declarator scope) ds
  | BlockStatement b => steady_block scope b
  | IfStatement test c a =>
      steady_expr scope test && steady_block scope c
      && match a with Some b => steady_block scope b | None => true end
  | FunctionDeclaration _ _ b => steady_block scope b
  | ReturnStatement (Some e) => steady_expr scope e
  | ReturnStatement None => true
  | EmptyStatement => true
  end
with steady_declarator (scope : Scope) (d : declarator) : bool :=
  match d with
  | VariableDeclarator _ _ (Some e) => steady_expr scope e
  | VariableDeclarator _ _ None => true
  end
with steady_block (scope : Scope) (b : block) : bool :=
  match b with
  | Block f statements => forallb (steady_stmt (f :: scope)) statements
  end.

Definition steady (p : Program) : bool :=
  forallb (steady_stmt [program_scope p]) (program_body p).

(** *** The visitor *)

(** [jestObjExpr.replaceWith(replacement)]: [jestObjExpr] is the object at
    which the detector's descent stopped. *)
Fixpoint replaceJestObjExpr (scope : Scope) (replacement : expr) (e : expr)
  : expr :=
  match e with
  | CallExpression (MemberExpression object property false) args =>
      CallExpression
        (MemberExpression
           (if isJestObject scope object then replacement
            else replaceJestObjExpr scope replacement object)
           property false)
        args
  | _ => e
  end.

(** The walk of the whole tree with the [ExpressionStatement] visitor.
    The visitor runs when a statement is entered, before its children are
    walked.  The node it puts in place of [jestObjExpr] holds no statement,
    and the walk of the children leaves the call chain's shape alone, so
    the replacement is applied to the walked expression. *)
Section Visitor.
Variable program : ScopeFrame.

Fixpoint visit_expr (scope : Scope) (e : expr) : M expr :=
  match e with
  | CallExpression callee args =>
      callee' <- visit_expr scope callee ;;
      args' <- mapM (visit_expr scope) args ;;
      ret (CallExpression callee' args')
  | MemberExpression object property computed =>
      object' <- visit_expr scope object ;;
      property' <- visit_expr scope property ;;
      ret (MemberExpression object' property' computed)
  | AssignmentExpression lhs rhs =>
      rhs' <- visit_expr scope rhs ;;
      ret (AssignmentExpression lhs rhs')
  | FunctionExpression ps b =>
      b' <- visit_block scope b ;;
      ret (FunctionExpression ps b')
  | ArrowFunctionExpression ps f body =>
      body' <- visit_expr (f :: scope) body ;;
      ret (ArrowFunctionExpression ps f body')
  | TSAsExpression e' t =>
      e'' <- visit_expr scope e' ;;
      ret (TSAsExpression e'' t)
  | _ => ret e
  end
with visit_stmt (scope : Scope) (s : stmt) : M stmt :=
  match s with
  | ExpressionStatement expression =>
      jestObjExpr <- extractJestObjExprIfHoistable scope expression ;;
      getter <- match jestObjExpr with
                | Some _ =>
                    id <- declareJestObjGetterIdentifier program ;;
                    ret (Some id)
                | None => ret None
                end ;;
      expression' <- visit_expr scope expression ;;
      ret (ExpressionStatement
             match getter with
             | Some id =>
                 replaceJestObjExpr scope
                   (CallExpression (Identifier id) []) expression'
             | None => expression'
             end)
  | VariableDeclaration kind ds =>
      ds' <- mapM (visit_declarator scope) ds ;;
      ret (VariableDeclaration kind ds')
  | BlockStatement b =>
      b' <- visit_block scope b ;;
      ret (BlockStatement b')
  | IfStatement test c a =>
      test' <- visit_expr scope test ;;
      c' <- visit_block scope c ;;
      a' <- match a with
            | Some b => b' <- visit_block scope b ;; ret (Some b')
            | None => ret None
            end ;;
      ret (IfStatement test' c' a')
  | FunctionDeclaration id ps b =>
      b' <- visit_block scope b ;;
      ret (FunctionDeclaration id ps b')
  | ReturnStatement (Some e) =>
      e' <- visit_expr scope e ;;
      ret (ReturnStatement (Some e'))
  | ReturnStatement None => ret s
  | EmptyStatement => ret s
  end
with visit_declarator (scope : Scope) (d : declarator) : M declarator :=
  match d with
  | VariableDeclarator n x (Some e) =>
      e' <- visit_expr scope e ;;
      ret (VariableDeclarator n x (Some e'))
  | VariableDeclarator _ _ None => ret d
  end
with visit_block (scope : Scope) (b : block) : M block :=
  match b with
  | Block f body =>
      body' <- mapM (visit_stmt (f :: scope)) body ;;
      ret (Block f body')
  end.
End Visitor.

(** The traversal of a program; what was unshifted ends up in front. *)
Definition visit_program (p : Program) : M Program :=
  body' <- mapM (visit_stmt (program_scope p) [program_scope p])
             (program_body p) ;;
  fun s => Return (mkProgram (program_scope p) (unshifted s ++ body'))
             (mkState (hoistedVariables s) (jestObjGetterIdentifier s) []).

(** *** The hoister ([post]) *)

(** [container.splice(key, 0, x)] and [container.splice(key, 1)] *)
Definition insert_at {A : Type} (key : nat) (x : A) (l : list A) : list A :=
  firstn key l ++ x :: skipn key l.
Definition remove_at {A : Type} (key : nat) (l : list A) : list A :=
  firstn key l ++ skipn (S key) l.
Definition set_at {A : Type} (key : nat) (x : A) (l : list A) : list A :=
  firstn key l ++ x :: skipn (S key) l.

Section VisitBlock.
(** [self.jestObjGetterIdentifier] and [hoistedVariables] when [post]
    runs. *)
Variable getter : option string.
Variable hoisted : list nat.

(** [isIdentifier(callee) && callee.name === self.jestObjGetterIdentifier?.name] *)
Definition is_getter_callee (callee : expr) : bool :=
  match callee, getter with
  | Identifier name, Some g => String.eqb name g
  | _, _ => false
  end.

(** [visitCallExpr].  In this tree every statement sits in the body of a
    block, so the statement parent of a call is the nearest statement
    around it and [mockStmtParent.isBlock()] holds.  Once that statement
    was removed its path has no node, [getStatementParent] passes it by
    and finds no statement of the block. *)
Definition visitCallExpr (callee : expr) : W unit :=
  fun w =>
    if is_getter_callee callee then
      match removed w with
      | None => Done (tt, mkWalking (Some ByCall) (moved_before w) (moved_after w))
      | Some _ => Raised NoStatementParent
      end
    else Done (tt, w).

(** [visitVariableDeclarator] for a declarator of a declaration with
    [declarations] declarators. *)
Definition visitVariableDeclarator (declarations : nat) (d : declarator)
  : W unit :=
  fun w =>
    if has (declarator_node d) hoisted then
      match removed w with
      | Some _ => Raised ParentRemoved
      | None =>
          if Nat.eqb declarations 1 then
            Done (tt, mkWalking (Some ByDeclarator)
                        (moved_before w) (moved_after w))
          else Raised NullDeclarator
      end
    else Done (tt, w).

Section Walk.
(** The [blacklist] of the traversal. *)
Variable blacklist : list string.

Open Scope walk_scope.

(** [block.traverse({CallExpression, VariableDeclarator, blacklist})]
    below one statement of the block.  A node whose type is blacklisted is
    skipped with all it holds.  The walk goes on below a statement that
    was removed.  The statements of a block nested in the walked statement
    are walked in turn, each as the statement parent of what is met in
    it. *)
Fixpoint walk_expr (e : expr) : W expr :=
  if mem (expr_type e) blacklist then wret e else
  match e with
  | CallExpression callee args =>
      _ <~ visitCallExpr callee ;;
      callee' <~ walk_expr callee ;;
      args' <~ mapW walk_expr args ;;
      wret (CallExpression callee' args')
  | MemberExpression object property computed =>
      object' <~ walk_expr object ;;
      property' <~ walk_expr property ;;
      wret (MemberExpression object' property' computed)
  | AssignmentExpression lhs rhs =>
      rhs' <~ walk_expr rhs ;;
      wret (AssignmentExpression lhs rhs')
  | FunctionExpression ps b =>
      b' <~ walk_block b ;;
      wret (FunctionExpression ps b')
  | ArrowFunctionExpression ps f body =>
      body' <~ walk_expr body ;;
      wret (ArrowFunctionExpression ps f body')
  | TSAsExpression e' t =>
      e'' <~ walk_expr e' ;;
      wret (TSAsExpression e'' t)
  | _ => wret e
  end
with walk_children (s : stmt) : W stmt :=
  match s with
  | ExpressionStatement e =>
      e' <~ walk_expr e ;;
      wret (ExpressionStatement e')
  | VariableDeclaration kind ds =>
      ds' <~ mapW (walk_declarator (length ds)) ds ;;
      wret (VariableDeclaration kind ds')
  | BlockStatement b =>
      b' <~ walk_block b ;;
      wret (BlockStatement b')
  | IfStatement test c a =>
      test' <~ walk_expr test ;;
      c' <~ walk_block c ;;
      a' <~ match a with
            | Some b => b' <~ walk_block b ;; wret (Some b')
            | None => wret None
            end ;;
      wret (IfStatement test' c' a')
  | FunctionDeclaration id ps b =>
      b' <~ walk_block b ;;
      wret (FunctionDeclaration id ps b')
  | ReturnStatement (Some e) =>
      e' <~ walk_expr e ;;
      wret (ReturnStatement (Some e'))
  | ReturnStatement None => wret s
  | EmptyStatement => wret s
  end
with walk_declarator (declarations : nat) (d : declarator) : W declarator :=
  if mem "VariableDeclarator" blacklist then wret d else
  _ <~ visitVariableDeclarator declarations d ;;
  match d with
  | VariableDeclarator n x (Some e) =>
      e' <~ walk_expr e ;;
      wret (VariableDeclarator n x (Some e'))
  | VariableDeclarator _ _ None => wret d
  end
with walk_block (b : block) : W block :=
  if mem "BlockStatement" blacklist then wret b else
  match b with
  | Block f statements =>
      kept <~ (fix each (l : list stmt) : W (list stmt) :=
                 match l with
                 | [] => wret []
                 | s :: l' =>
                     k <~ nested (if mem (stmt_type s) blacklist
                                  then Done (s, start)
                                  else walk_children s start) ;;
                     ks <~ each l' ;;
                     wret (k ++ ks)%list
                 end) statements ;;
      wret (Block f kept)
  end.

(** The walk of a statement of the block: the statement, when it stays,
    and what goes before the hoist points. *)
Definition walk_statement (s : stmt) : attempt (option stmt * moved) :=
  match (if mem (stmt_type s) blacklist then Done (s, start)
         else walk_children s start) with
  | Done (s', w) => Done (conclude s' w)
  | Raised f => Raised f
  end.

End Walk.

(** The block's [body] array with the keys of the two hoist points and
    of the statement being walked. *)
Record container : Type := mkContainer {
  body : list stmt;
  varsHoistPoint : nat;
  callsHoistPoint : nat;
  key : nat
}.

(** [varsHoistPoint.insertBefore(s)] *)
Definition insertBefore_vars (s : stmt) (c : container) : container :=
  mkContainer (insert_at (varsHoistPoint c) s (body c))
              (S (varsHoistPoint c)) (S (callsHoistPoint c)) (S (key c)).

(** [callsHoistPoint.insertBefore(s)] *)
Definition insertBefore_calls (s : stmt) (c : container) : container :=
  mkContainer (insert_at (callsHoistPoint c) s (body c))
              (varsHoistPoint c) (S (callsHoistPoint c)) (S (key c)).

(** Removal of the statement being walked: the next one takes its key. *)
Definition remove_current (c : container) : container :=
  mkContainer (remove_at (key c) (body c))
              (varsHoistPoint c) (callsHoistPoint c) (key c).

(** The statement being walked stays: the walk passes on to the next. *)
Definition keep_current (s : stmt) (c : container) : container :=
  mkContainer (set_at (key c) s (body c))
              (varsHoistPoint c) (callsHoistPoint c) (S (key c)).

(** What the walk of the statement at [key] does to the body. *)
Definition settle (kept : option stmt) (m : moved) (c : container)
  : container :=
  let c1 := match kept with
            | Some _ => c
            | None => remove_current c
            end in
  let c2 := fold_left (fun c' v => insertBefore_vars v c') (moved_vars m) c1 in
  let c3 := fold_left (fun c' v => insertBefore_calls v c') (moved_calls m) c2 in
  match kept with
  | Some s => keep_current s c3
  | None => c3
  end.

Section TraverseBody.
Variable blacklist : list string.

Definition visit_statement (s : stmt) (c : container) : attempt container :=
  match walk_statement blacklist s with
  | Done (kept, m) => Done (settle kept m c)
  | Raised f => Raised f
  end.

(** The walks of the statements of a block, in turn. *)
Fixpoint walk_all (l : list stmt) : attempt (list (option stmt * moved)) :=
  match l with
  | [] => Done []
  | s :: rest =>
      match walk_statement blacklist s with
      | Done r =>
          match walk_all rest with
          | Done rs => Done (r :: rs)
          | Raised f => Raised f
          end
      | Raised f => Raised f
      end
  end.

(** [block.traverse(...)] over the statements present when it starts. *)
Fixpoint traverse_body (queue : list stmt) (c : container)
  : attempt container :=
  match queue with
  | [] => Done c
  | s :: rest =>
      match visit_statement s c with
      | Done c' => traverse_body rest c'
      | Raised f => Raised f
      end
  end.

(** [visitBlock] with a given blacklist. *)
Definition visitBlock_with (statements : list stmt) : attempt (list stmt) :=
  let c0 := mkContainer (EmptyStatement :: EmptyStatement :: statements)
                        0 1 2 in
  match traverse_body statements c0 with
  | Done c =>
      Done (remove_at (varsHoistPoint c)
              (remove_at (callsHoistPoint c) (body c)))
  | Raised f => Raised f
  end.

End TraverseBody.

(** [blacklist: ['BlockStatement']] *)
Definition visitBlock_blacklist : list string := ["BlockStatement"].

Definition visitBlock (statements : list stmt) : attempt (list stmt) :=
  visitBlock_with visitBlock_blacklist statements.

(** The container while the block is walked: hoisted declarations, the
    first hoist point, hoisted calls, the second hoist point, the
    statements walked and kept, the statements still to walk. *)
Definition layout (vars calls kept queue : list stmt) : container :=
  mkContainer
    (vars ++ EmptyStatement :: calls ++ EmptyStatement :: kept ++ queue)%list
    (length vars)
    (length vars + 1 + length calls)
    (length vars + 1 + length calls + 1 + length kept).

(** *** What a statement holds for the hoister *)

(** The calls of the getter in an expression that are not inside a
    function body. *)
Fixpoint getter_calls (e : expr) : nat :=
  match e with
  | CallExpression callee args =>
      (if is_getter_callee callee then 1 else 0)
      + getter_calls callee + list_sum (map getter_calls args)
  | MemberExpression object property _ =>
      getter_calls object + getter_calls property
  | AssignmentExpression _ rhs => getter_calls rhs
  | ArrowFunctionExpression _ _ body => getter_calls body
  | TSAsExpression e' _ => getter_calls e'
  | _ => 0
  end.

Definition init_getter_calls (d : declarator) : nat :=
  match d with
  | VariableDeclarator _ _ (Some e) => getter_calls e
  | VariableDeclarator _ _ None => 0
  end.

(** The calls of the getter in a statement that are not inside a block
    statement. *)
Definition statement_getter_calls (s : stmt) : nat :=
  match s with
  | ExpressionStatement e => getter_calls e
  | VariableDeclaration _ ds => list_sum (map init_getter_calls ds)
  | IfStatement test _ _ => getter_calls test
  | ReturnStatement (Some e) => getter_calls e
  | _ => 0
  end.

Definition is_marked (d : declarator) : bool :=
  has (declarator_node d) hoisted.

(** The marked declarators of a statement. *)
Definition marked_declarators (s : stmt) : list declarator :=
  match s with
  | VariableDeclaration _ ds => filter is_marked ds
  | _ => []
  end.

(** The group of a statement of a block: a declaration of one marked
    declarator, a statement with one call of the getter outside its block
    statements, or a statement with neither.  Other statements have no
    group. *)
Definition group_of (s : stmt) : option group :=
  match marked_declarators s, statement_getter_calls s with
  | [], 0 => Some Rest
  | [], 1 => Some Calls
  | [_], 0 =>
      match s with
      | VariableDeclaration _ [_] => Some Declarations
      | _ => None
      end
  | _, _ => None
  end.

Definition has_group (s : stmt) : bool :=
  match group_of s with Some _ => true | None => false end.

Definition in_group (g : group) (s : stmt) : bool :=
  match group_of s with
  | Some g' => group_eqb g' g
  | None => false
  end.

(** The three groups of a block in turn. *)
Definition grouped (statements : list stmt) : list stmt :=
  (filter (in_group Declarations) statements
   ++ filter (in_group Calls) statements
   ++ filter (in_group Rest) statements)%list.

(** Whether the walk of an expression, which does not enter block
    statements, meets a call of the getter. *)
Fixpoint meets_getter_call (e : expr) : bool :=
  match e with
  | CallExpression callee args =>
      is_getter_callee callee
      || meets_getter_call callee
      || existsb meets_getter_call args
  | MemberExpression object property _ =>
      meets_getter_call object || meets_getter_call property
  | AssignmentExpression _ rhs => meets_getter_call rhs
  | ArrowFunctionExpression _ _ body => meets_getter_call body
  | TSAsExpression e' _ => meets_getter_call e'
  | _ => false
  end.

Definition init_meets_getter_call (d : declarator) : bool :=
  match d with
  | VariableDeclarator _ _ (Some e) => meets_getter_call e
  | VariableDeclarator _ _ None => false
  end.

(** A declarator the walk passes by: not marked, no getter call in its
    initializer. *)
Definition passive (d : declarator) : bool :=
  negb (has (declarator_node d) hoisted) && negb (init_meets_getter_call d).

(** A statement of a block that gives the hoister nothing to move. *)
Definition quiet (s : stmt) : bool :=
  match s with
  | ExpressionStatement e => negb (meets_getter_call e)
  | VariableDeclaration _ ds => forallb passive ds
  | IfStatement test _ _ => negb (meets_getter_call test)
  | ReturnStatement (Some e) => negb (meets_getter_call e)
  | _ => true
  end.

(** *** The whole pass *)

Definition mapO {A B : Type} (f : A -> option B) : list A -> option (list B) :=
  fix go (l : list A) : option (list B) :=
    match l with
    | [] => Some []
    | a :: l' =>
        match f a with
        | Some b => match go l' with
                    | Some bs => Some (b :: bs)
                    | None => None
                    end
        | None => None
        end
    end.

(** The block [visitBlock] leaves, when it returns. *)
Definition hoisted_block (statements : list stmt) : option (list stmt) :=
  match visitBlock statements with
  | Done statements' => Some statements'
  | Raised _ => None
  end.

(** [visitBlock(program); program.traverse({BlockStatement: visitBlock})]:
    [None] when the hoisting of some block raises, whichever block that
    is.  Hoisting in a block neither reads nor changes what is inside the
    block statements it holds, so the nested blocks are done first here;
    [hoisted_block_post] shows that the order does not matter. *)
Fixpoint post_expr (e : expr) : option expr :=
  match e with
  | CallExpression callee args =>
      match post_expr callee, mapO post_expr args with
      | Some callee', Some args' => Some (CallExpression callee' args')
      | _, _ => None
      end
  | MemberExpression object property computed =>
      match post_expr object, post_expr property with
      | Some object', Some property' =>
          Some (MemberExpression object' property' computed)
      | _, _ => None
      end
  | AssignmentExpression lhs rhs =>
      option_map (AssignmentExpression lhs) (post_expr rhs)
  | FunctionExpression ps b =>
      option_map (FunctionExpression ps) (post_block b)
  | ArrowFunctionExpression ps f body =>
      option_map (ArrowFunctionExpression ps f) (post_expr body)
  | TSAsExpression e' t =>
      option_map (fun e'' => TSAsExpression e'' t) (post_expr e')
  | _ => Some e
  end
with post_stmt (s : stmt) : option stmt :=
  match s with
  | ExpressionStatement e => option_map ExpressionStatement (post_expr e)
  | VariableDeclaration kind ds =>
      option_map (VariableDeclaration kind) (mapO post_declarator ds)
  | BlockStatement b => option_map BlockStatement (post_block b)
  | IfStatement test c a =>
      match post_expr test, post_block c,
            match a with
            | Some b => option_map Some (post_block b)
            | None => Some None
            end with
      | Some test', Some c', Some a' => Some (IfStatement test' c' a')
      | _, _, _ => None
      end
  | FunctionDeclaration id ps b =>
      option_map (FunctionDeclaration id ps) (post_block b)
  | ReturnStatement (Some e) =>
      option_map (fun e' => ReturnStatement (Some e')) (post_expr e)
  | ReturnStatement None => Some s
  | EmptyStatement => Some s
  end
with post_declarator (d : declarator) : option declarator :=
  match d with
  | VariableDeclarator n x (Some e) =>
      option_map (fun e' => VariableDeclarator n x (Some e')) (post_expr e)
  | VariableDeclarator _ _ None => Some d
  end
with post_block (b : block) : option block :=
  match b with
  | Block f statements =>
      match mapO post_stmt statements with
      | Some statements' =>
          option_map (Block f) (hoisted_block statements')
      | None => None
      end
  end.

(** The pass over the statements of a block. *)
Definition post_statements (statements : list stmt) : option (list stmt) :=
  match mapO post_stmt statements with
  | Some statements' => hoisted_block statements'
  | None => None
  end.

Definition post (p : Program) : option Program :=
  option_map (mkProgram (program_scope p)) (post_statements (program_body p)).

End VisitBlock.

(** The plugin applied to a program: [pre], the visitor, then [post] with
    the state the visit left. *)
Definition transform (p : Program) : M Program :=
  fun s0 =>
    match visit_program p
            (mkState (hoistedVariables s0) None []) with
    | Return p' s =>
        match post (jestObjGetterIdentifier s) (hoistedVariables s) p' with
        | Some out => Return out s
        | None => Throw HoisterError s
        end
    | Throw e s => Throw e s
    end.

End Plugin.


(** ** The names listed in the source of [ALLOWED_IDENTIFIERS] *)

Definition listed_identifiers : list string :=
  ["Array"; "ArrayBuffer"; "Boolean"; "BigInt"; "DataView"; "Date";
   "Error"; "EvalError"; "Float32Array"; "Float64Array"; "Function";
   "Generator"; "GeneratorFunction"; "Infinity"; "Int16Array";
   "Int32Array"; "Int8Array"; "InternalError"; "Intl"; "JSON"; "Map";
   "Math"; "NaN"; "Number"; "Object"; "Promise"; "Proxy"; "RangeError";
   "ReferenceError"; "Reflect"; "RegExp"; "Set"; "String"; "Symbol";
   "SyntaxError"; "TypeError"; "URIError"; "Uint16Array"; "Uint32Array";
   "Uint8Array"; "Uint8ClampedArray"; "WeakMap"; "WeakSet"; "arguments";
   "console"; "expect"; "isNaN"; "jest"; "parseFloat"; "parseInt";
   "exports"; "require"; "module"; "__filename"; "__dirname";
   "undefined"].

(** ** Relations between the states of a run *)

(** A computation whose final state, returned or raised with, is related
    to its initial state. *)
Definition respects (R : state -> state -> Prop) {A : Type} (m : M A) : Prop :=
  forall s, match m s with
            | Return _ s' => R s s'
            | Throw _ s' => R s s'
            end.

(** Every marked declarator is still marked. *)
Definition marks_kept (s s' : state) : Prop :=
  forall node, has node (hoistedVariables s) = true ->
               has node (hoistedVariables s') = true.

(** A getter that exists is still the getter, and nothing was unshifted. *)
Definition getter_kept (s s' : state) : Prop :=
  forall id, jestObjGetterIdentifier s = Some id ->
             jestObjGetterIdentifier s' = Some id
             /\ unshifted s' = unshifted s.

(** The scopes of the expression statements of a tree: the scopes in
    which the visitor runs the detector. *)
Fixpoint scopes_expr (scope : Scope) (e : expr) : list Scope :=
  match e with
  | CallExpression callee args =>
      scopes_expr scope callee ++ flat_map (scopes_expr scope) args
  | MemberExpression object property _ =>
      scopes_expr scope object ++ scopes_expr scope property
  | AssignmentExpression _ rhs => scopes_expr scope rhs
  | FunctionExpression _ b => scopes_block scope b
  | ArrowFunctionExpression _ f body => scopes_expr (f :: scope) body
  | TSAsExpression e' _ => scopes_expr scope e'
  | _ => []
  end
with scopes_stmt (scope : Scope) (s : stmt) : list Scope :=
  match s with
  | ExpressionStatement e => scope :: scopes_expr scope e
  | VariableDeclaration _ ds => flat_map (scopes_declarator scope) ds
  | BlockStatement b => scopes_block scope b
  | IfStatement test c a =>
      scopes_expr scope test ++ scopes_block scope c
      ++ match a with Some b => scopes_block scope b | None => [] end
  | FunctionDeclaration _ _ b => scopes_block scope b
  | ReturnStatement (Some e) => scopes_expr scope e
  | ReturnStatement None => []
  | EmptyStatement => []
  end
with scopes_declarator (scope : Scope) (d : declarator) : list Scope :=
  match d with
  | VariableDeclarator _ _ (Some e) => scopes_expr scope e
  | VariableDeclarator _ _ None => []
  end
with scopes_block (scope : Scope) (b : block) : list Scope :=
  match b with
  | Block f statements => flat_map (scopes_stmt (f :: scope)) statements
  end.

Definition detector_scopes (p : Program) : list Scope :=
  flat_map (scopes_stmt [program_scope p]) (program_body p).

(** Every declarator marked in [s'] was marked in [s] or is bound, in one
    of the given scopes, by a constant declarator with a pure
    initializer. *)
Definition marks_justified (isPure : Scope -> nat -> bool)
    (scopes : list Scope) (s s' : state) : Prop :=
  forall node,
    has node (hoistedVariables s') = true ->
    has node (hoistedVariables s) = true
    \/ exists scope name b,
         In scope scopes
         /\ own_binding scope name = Some b
         /\ path b = VariableDeclaratorPath node true
         /\ constant b = true
         /\ isPure scope node = true.

(** The name of an expression that is an identifier. *)
Definition identifier_name (e : expr) : option string :=
  match e with
  | Identifier name => Some name
  | _ => None
  end.

(** ** Sample programs *)

Module Sample.

Definition global_property_names : list string := ["globalThis"; "process"].
Definition isPure (_ : Scope) (_ : nat) : bool := true.
Definition generateUidIdentifier (_ : ScopeFrame) (name : string) : string :=
  "_" ++ name.
Definition template_declarator_node : nat := 0.

Definition initial : state := mkState [] None [].

Definition jest : expr := Identifier "jest".
Definition method (object : expr) (name : string) (args : list expr) : expr :=
  CallExpression (MemberExpression object (Identifier name) false) args.
Definition getJestObj : expr := CallExpression (Identifier "_getJestObj") [].
Definition arrow (body : expr) : expr :=
  ArrowFunctionExpression [] (mkFrame [] []) body.

(** [a();] and [b();] *)
Definition A : stmt := ExpressionStatement (CallExpression (Identifier "a") []).
Definition B : stmt := ExpressionStatement (CallExpression (Identifier "b") []).

(** A program scope without bindings, where [jest], [a], [b] and [c] are
    globals. *)
Definition globals_only : ScopeFrame := mkFrame [] ["jest"; "a"; "b"; "c"].

(** [if (c) { jest.mock("x"); }] *)
Definition guarded_mock : Program :=
  mkProgram globals_only
    [IfStatement (Identifier "c")
       (Block (mkFrame [] [])
          [ExpressionStatement (method jest "mock" [StringLiteral "x"])])
       None].

(** [a(); jest.mock("x"); b(); jest.mock("y");] and what the plugin makes
    of it. *)
Definition four_statements : Program :=
  mkProgram globals_only
    [A; ExpressionStatement (method jest "mock" [StringLiteral "x"]);
     B; ExpressionStatement (method jest "mock" [StringLiteral "y"])].

Definition four_statements_output : Program :=
  mkProgram globals_only
    [ExpressionStatement (method getJestObj "mock" [StringLiteral "x"]);
     ExpressionStatement (method getJestObj "mock" [StringLiteral "y"]);
     createJestObjectGetter template_declarator_node "_getJestObj";
     A; B].

(** [a(); jest.useFakeTimers(); jest.mock("x");] and what the plugin makes
    of it: [useFakeTimers] has no rule and stays a call on [jest]. *)
Definition with_timers : Program :=
  mkProgram globals_only
    [A; ExpressionStatement (method jest "useFakeTimers" []);
     ExpressionStatement (method jest "mock" [StringLiteral "x"])].

Definition with_timers_output : Program :=
  mkProgram globals_only
    [ExpressionStatement (method getJestObj "mock" [StringLiteral "x"]);
     createJestObjectGetter template_declarator_node "_getJestObj";
     A; ExpressionStatement (method jest "useFakeTimers" [])].

(** [jest.mock("n", function () { jest.mock("k"); }).unmock(5);] -- the
    inner call is valid, the outer one is not -- and what the plugin makes
    of it. *)
Definition partly_valid_chain : Program :=
  mkProgram globals_only
    [ExpressionStatement
       (method
          (method jest "mock"
             [StringLiteral "n";
              FunctionExpression []
                (Block (mkFrame [] [])
                   [ExpressionStatement
                      (method jest "mock" [StringLiteral "k"])])])
          "unmock" [NumericLiteral 5])].

Definition partly_valid_body : list stmt :=
  [createJestObjectGetter template_declarator_node "_getJestObj";
   ExpressionStatement
     (method
        (method jest "mock"
           [StringLiteral "n";
            FunctionExpression []
              (Block (mkFrame [] [])
                 [ExpressionStatement
                    (method getJestObj "mock" [StringLiteral "k"])])])
        "unmock" [NumericLiteral 5])].

Definition partly_valid_output : Program :=
  mkProgram globals_only partly_valid_body.

(** The same output with the getter's function declaration registered in
    the program scope, as a fresh parse of it has it. *)
Definition partly_valid_output_parsed : Program :=
  mkProgram
    (mkFrame [("_getJestObj", mkBinding OtherBindingPath false)]
             ["jest"; "a"; "b"; "c"])
    partly_valid_body.

(** Program scopes that declare [x] by node 7: [const x = 1] and
    [let x = 1; x = 2]. *)
Definition const_x : ScopeFrame :=
  mkFrame [("x", mkBinding (VariableDeclaratorPath 7 true) true)] ["jest"].
Definition reassigned_x : ScopeFrame :=
  mkFrame [("x", mkBinding (VariableDeclaratorPath 7 true) false)] ["jest"].

(** [x], [mockFoo] and [require] read in a factory [() => ...]. *)
Definition x_in_factory : IdPath := mkIdPath "x" [mkFrame [] []].
Definition mockFoo_in_factory : IdPath := mkIdPath "mockFoo" [mkFrame [] []].

(** [const mockFoo = 1] *)
Definition const_mockFoo : ScopeFrame :=
  mkFrame [("mockFoo", mkBinding (VariableDeclaratorPath 8 true) true)]
          ["jest"].

(** [const x = 1; jest.mock("m", () => x);] *)
Definition reads_const : Program :=
  mkProgram const_x
    [VariableDeclaration "const"
       [VariableDeclarator 7 (LIdentifier "x") (Some (NumericLiteral 1))];
     ExpressionStatement
       (method jest "mock" [StringLiteral "m"; arrow (Identifier "x")])].

(** [let x = 1; x = 2; jest.mock("m", () => x);] *)
Definition reads_reassigned : Program :=
  mkProgram reassigned_x
    [VariableDeclaration "let"
       [VariableDeclarator 7 (LIdentifier "x") (Some (NumericLiteral 1))];
     ExpressionStatement (AssignmentExpression "x" (NumericLiteral 2));
     ExpressionStatement
       (method jest "mock" [StringLiteral "m"; arrow (Identifier "x")])].

Definition invalid_factory : expr :=
  method jest "mock" [StringLiteral "m"; NumericLiteral 5].

(** [jest.mock(moduleName, () => 1)] *)
Definition variable_path : expr :=
  method jest "mock" [Identifier "moduleName"; arrow (NumericLiteral 1)].

(** The factory [() => (1 as Missing)] and the same with another type. *)
Definition typed_factory : expr :=
  arrow (TSAsExpression (NumericLiteral 1) (TSTypeReference "Missing")).
Definition to_any (_ : typeNode) : typeNode := TSTypeReference "any".

(** [const x = 1; function f() { jest.mock("m", () => x); }]: the scope
    of the program, the scope of the body of [f], and the program. *)
Definition const_x_and_f : ScopeFrame :=
  mkFrame [("x", mkBinding (VariableDeclaratorPath 7 true) true);
           ("f", mkBinding OtherBindingPath true)]
          ["jest"].
Definition body_of_f : ScopeFrame := mkFrame [] [].
Definition reads_outer_const : Program :=
  mkProgram const_x_and_f
    [VariableDeclaration "const"
       [VariableDeclarator 7 (LIdentifier "x") (Some (NumericLiteral 1))];
     FunctionDeclaration "f" []
       (Block body_of_f
          [ExpressionStatement
             (method jest "mock" [StringLiteral "m"; arrow (Identifier "x")])])].

(** [a(); jest.mock("a", () => 1).resetModules(); jest.mock("x");] and what
    the plugin makes of it: the chain ending in [resetModules], which has
    no rule, stays a call on [jest]. *)
Definition with_reset : Program :=
  mkProgram globals_only
    [A;
     ExpressionStatement
       (method (method jest "mock" [StringLiteral "a"; arrow (NumericLiteral 1)])
          "resetModules" []);
     ExpressionStatement (method jest "mock" [StringLiteral "x"])].

Definition with_reset_output : Program :=
  mkProgram globals_only
    [ExpressionStatement (method getJestObj "mock" [StringLiteral "x"]);
     createJestObjectGetter template_declarator_node "_getJestObj";
     A;
     ExpressionStatement
       (method (method jest "mock" [StringLiteral "a"; arrow (NumericLiteral 1)])
          "resetModules" [])].

(** [const x = 1; const y = 2; jest.mock("a", () => y).resetModules();
    jest.mock("b", () => x);] with [x] declared by node 7 and [y] by node 8,
    and what the plugin makes of it. *)
Definition const_x_y : ScopeFrame :=
  mkFrame [("x", mkBinding (VariableDeclaratorPath 7 true) true);
           ("y", mkBinding (VariableDeclaratorPath 8 true) true)]
          ["jest"].
Definition declare_x : stmt :=
  VariableDeclaration "const"
    [VariableDeclarator 7 (LIdentifier "x") (Some (NumericLiteral 1))].
Definition declare_y : stmt :=
  VariableDeclaration "const"
    [VariableDeclarator 8 (LIdentifier "y") (Some (NumericLiteral 2))].
Definition reset_reading_y : stmt :=
  ExpressionStatement
    (method (method jest "mock" [StringLiteral "a"; arrow (Identifier "y")])
       "resetModules" []).
Definition marks_in_leftover : Program :=
  mkProgram const_x_y
    [declare_x; declare_y; reset_reading_y;
     ExpressionStatement
       (method jest "mock" [StringLiteral "b"; arrow (Identifier "x")])].
Definition marks_in_leftover_output : Program :=
  mkProgram const_x_y
    [declare_x; declare_y;
     ExpressionStatement
       (method getJestObj "mock" [StringLiteral "b"; arrow (Identifier "x")]);
     createJestObjectGetter template_declarator_node "_getJestObj";
     reset_reading_y].

(** [const x = 1, y = 2; jest.mock("m", () => x);] *)
Definition two_declarators : Program :=
  mkProgram const_x_y
    [VariableDeclaration "const"
       [VariableDeclarator 7 (LIdentifier "x") (Some (NumericLiteral 1));
        VariableDeclarator 8 (LIdentifier "y") (Some (NumericLiteral 2))];
     ExpressionStatement
       (method jest "mock" [StringLiteral "m"; arrow (Identifier "x")])].

End Sample.

(** The plugin with the sample host. *)
Module Run.

Definition transform : Program -> M Program :=
  transform Sample.global_property_names Sample.isPure
    Sample.generateUidIdentifier Sample.template_declarator_node.
Definition extract : Scope -> expr -> M (option expr) :=
  extractJestObjExprIfHoistable Sample.global_property_names Sample.isPure.
Definition out_of_scope (name : string) : error :=
  ReferenceError (Identifier name)
    (out_of_scope_message Sample.global_property_names name).

End Run.

(** ** More sample inputs *)

Module Cases.

(** [jest.unmock("a").mock("b")] *)
Definition chained : expr :=
  Sample.method (Sample.method Sample.jest "unmock" [StringLiteral "a"])
    "mock" [StringLiteral "b"].

(** [jest.mock("a", 5, 1, 2)] *)
Definition four_arguments : list expr :=
  [StringLiteral "a"; NumericLiteral 5; NumericLiteral 1; NumericLiteral 2].

(** [jest.mock("x");] and what the visitor makes of it. *)
Definition mock_x : expr := Sample.method Sample.jest "mock" [StringLiteral "x"].
Definition mock_x_rewritten : stmt :=
  ExpressionStatement
    (Sample.method Sample.getJestObj "mock" [StringLiteral "x"]).

(** The state once the getter [_getJestObj] was declared. *)
Definition with_getter : state :=
  mkState [] (Some "_getJestObj")
    [createJestObjectGetter Sample.template_declarator_node "_getJestObj"].

(** [import * as JestGlobals from '@jest/globals'] *)
Definition namespace_import : ScopeFrame :=
  mkFrame
    [("JestGlobals",
      mkBinding (ImportNamespaceSpecifierPath "@jest/globals") true)]
    [].

End Cases.

(** * Properties *)

(** ** Proof steps *)

(** What [post] made of each part of a tree on which it returned. *)
Ltac post_parts H :=
  simpl in H;
  repeat match type of H with
         | option_map _ ?x = Some _ =>
             let E := fresh "E" in
             destruct x eqn:E; simpl in H; [|discriminate H]
         | match ?x with _ => _ end = Some _ =>
             let E := fresh "E" in
             destruct x eqn:E; simpl in H; try discriminate H
         end;
  inversion H; subst; clear H.

(** ** List surgery *)

Open Scope list_scope.

Lemma insert_at_app {A : Type} (l1 l2 : list A) (x : A) :
  insert_at (length l1) x (l1 ++ l2) = l1 ++ x :: l2.
Proof.
  unfold insert_at. induction l1 as [|a l1 IH]; simpl.
  - reflexivity.
  - now rewrite IH.
Qed.

Lemma remove_at_app {A : Type} (l1 l2 : list A) (x : A) :
  remove_at (length l1) (l1 ++ x :: l2) = l1 ++ l2.
Proof.
  unfold remove_at. induction l1 as [|a l1 IH]; simpl.
  - reflexivity.
  - simpl in IH. now rewrite IH.
Qed.

Lemma set_at_app {A : Type} (l1 l2 : list A) (x y : A) :
  set_at (length l1) y (l1 ++ x :: l2) = l1 ++ y :: l2.
Proof.
  unfold set_at. induction l1 as [|a l1 IH]; simpl.
  - reflexivity.
  - simpl in IH. now rewrite IH.
Qed.

(** ** The hoister keeps the layout *)

Section HoisterFacts.

Lemma layout_insertBefore_vars (v : stmt) (vars calls kept queue : list stmt) :
  insertBefore_vars v (layout vars calls kept queue)
  = layout (vars ++ [v]) calls kept queue.
Proof.
  unfold insertBefore_vars, layout; simpl.
  rewrite insert_at_app, length_app; simpl.
  f_equal; try lia.
  now rewrite <- app_assoc.
Qed.

Lemma layout_insert_all_vars (vs vars calls kept queue : list stmt) :
  fold_left (fun c v => insertBefore_vars v c) vs (layout vars calls kept queue)
  = layout (vars ++ vs) calls kept queue.
Proof.
  revert vars. induction vs as [|v vs IH]; intros vars; simpl.
  - now rewrite app_nil_r.
  - rewrite layout_insertBefore_vars, IH. now rewrite <- app_assoc.
Qed.

Lemma layout_key (vars calls kept : list stmt) :
  length vars + 1 + length calls + 1 + length kept
  = length (vars ++ EmptyStatement :: calls ++ EmptyStatement :: kept).
Proof.
  rewrite length_app; simpl. rewrite length_app; simpl. lia.
Qed.

Lemma layout_body_split (vars calls kept queue : list stmt) :
  vars ++ EmptyStatement :: calls ++ EmptyStatement :: kept ++ queue
  = (vars ++ EmptyStatement :: calls ++ EmptyStatement :: kept) ++ queue.
Proof.
  rewrite <- app_assoc; simpl. f_equal. f_equal.
  now rewrite <- app_assoc.
Qed.

Lemma layout_remove_current (s : stmt) (vars calls kept queue : list stmt) :
  remove_current (layout vars calls kept (s :: queue))
  = layout vars calls kept queue.
Proof.
  unfold remove_current, layout; simpl.
  rewrite layout_key, layout_body_split, remove_at_app.
  now rewrite <- layout_body_split.
Qed.

Lemma layout_insertBefore_calls (s : stmt) (vars calls kept queue : list stmt) :
  insertBefore_calls s (layout vars calls kept queue)
  = layout vars (calls ++ [s]) kept queue.
Proof.
  unfold insertBefore_calls, layout; simpl.
  replace (length vars + 1 + length calls)
    with (length (vars ++ EmptyStatement :: calls))
    by (rewrite length_app; simpl; lia).
  replace (vars ++ EmptyStatement :: calls ++ EmptyStatement :: kept ++ queue)
    with ((vars ++ EmptyStatement :: calls) ++ EmptyStatement :: kept ++ queue)
    by (rewrite <- app_assoc; reflexivity).
  rewrite insert_at_app.
  repeat (rewrite length_app; simpl).
  f_equal; try lia.
  repeat (rewrite <- app_assoc; simpl). reflexivity.
Qed.

Lemma layout_insert_all_calls (cs vars calls kept queue : list stmt) :
  fold_left (fun c v => insertBefore_calls v c) cs
    (layout vars calls kept queue)
  = layout vars (calls ++ cs) kept queue.
Proof.
  revert calls. induction cs as [|v cs IH]; intros calls; simpl.
  - now rewrite app_nil_r.
  - rewrite layout_insertBefore_calls, IH. now rewrite <- app_assoc.
Qed.

Lemma layout_keep_current (s' s : stmt) (vars calls kept queue : list stmt) :
  keep_current s' (layout vars calls kept (s :: queue))
  = layout vars calls (kept ++ [s']) queue.
Proof.
  unfold keep_current, layout; simpl.
  rewrite layout_key, layout_body_split, set_at_app.
  rewrite <- layout_key. rewrite length_app; simpl.
  f_equal; try lia.
  repeat (rewrite <- app_assoc; simpl). reflexivity.
Qed.

Lemma layout_settle (kept : option stmt) (m : moved) (s : stmt)
    (vars calls ks queue : list stmt) :
  settle kept m (layout vars calls ks (s :: queue))
  = layout (vars ++ moved_vars m) (calls ++ moved_calls m)
      (ks ++ match kept with Some s' => [s'] | None => [] end) queue.
Proof.
  unfold settle. destruct kept as [s'|].
  - now rewrite layout_insert_all_vars, layout_insert_all_calls,
      layout_keep_current.
  - now rewrite layout_remove_current, layout_insert_all_vars,
      layout_insert_all_calls, app_nil_r.
Qed.

End HoisterFacts.

Section HoisterOrder.
Variable getter : option string.
Variable hoisted : list nat.
Variable blacklist : list string.

Lemma traverse_body_layout (queue vars calls kept : list stmt) :
  traverse_body getter hoisted blacklist queue (layout vars calls kept queue)
  = match walk_all getter hoisted blacklist queue with
    | Done rs =>
        Done (layout (vars ++ flat_map (fun r => moved_vars (snd r)) rs)
                (calls ++ flat_map (fun r => moved_calls (snd r)) rs)
                (kept ++ flat_map stays rs) [])
    | Raised f => Raised f
    end.
Proof.
  revert vars calls kept.
  induction queue as [|s queue IH]; intros vars calls kept; simpl.
  - now rewrite !app_nil_r.
  - unfold visit_statement.
    destruct (walk_statement getter hoisted blacklist s) as [[k m]|f];
      [|reflexivity].
    rewrite layout_settle, IH.
    destruct (walk_all getter hoisted blacklist queue) as [rs|f];
      [|reflexivity].
    simpl. unfold stays at 2. simpl. now rewrite <- !app_assoc.
Qed.

Lemma visitBlock_with_walks (statements : list stmt) :
  visitBlock_with getter hoisted blacklist statements
  = match walk_all getter hoisted blacklist statements with
    | Done rs =>
        Done (flat_map (fun r => moved_vars (snd r)) rs
              ++ flat_map (fun r => moved_calls (snd r)) rs
              ++ flat_map stays rs)
    | Raised f => Raised f
    end.
Proof.
  unfold visitBlock_with.
  change (mkContainer (EmptyStatement :: EmptyStatement :: statements) 0 1 2)
    with (layout [] [] [] statements).
  rewrite traverse_body_layout.
  destruct (walk_all getter hoisted blacklist statements) as [rs|f];
    [|reflexivity].
  simpl.
  set (v := flat_map (fun r => moved_vars (snd r)) rs).
  set (c := flat_map (fun r => moved_calls (snd r)) rs).
  set (k := flat_map stays rs).
  rewrite app_nil_r.
  replace (length v + 1 + length c)
    with (length (v ++ EmptyStatement :: c))
    by (rewrite length_app; simpl; lia).
  replace (v ++ EmptyStatement :: c ++ EmptyStatement :: k)
    with ((v ++ EmptyStatement :: c) ++ EmptyStatement :: k)
    by (rewrite <- app_assoc; reflexivity).
  rewrite remove_at_app, <- app_assoc; simpl.
  now rewrite remove_at_app.
Qed.

End HoisterOrder.

(** ** The walk with the hoister's blacklist *)

Lemma meet_calls_add (a b : nat) (w : walking) :
  meet_calls (a + b) w
  = match meet_calls a w with
    | Done w' => meet_calls b w'
    | Raised f => Raised f
    end.
Proof.
  revert w. induction a as [|a IH]; intros w; simpl.
  - reflexivity.
  - destruct (removed w); [reflexivity|]. apply IH.
Qed.

Section HoisterWalk.
Variable getter : option string.
Variable hoisted : list nat.

Local Abbreviation walk_e := (walk_expr getter hoisted visitBlock_blacklist).
Local Abbreviation walk_d :=
  (walk_declarator getter hoisted visitBlock_blacklist).
Local Abbreviation walk_c :=
  (walk_children getter hoisted visitBlock_blacklist).
Local Abbreviation walk :=
  (walk_statement getter hoisted visitBlock_blacklist).
Local Abbreviation calls := (getter_calls getter).

(** The walk of an expression changes nothing in it and meets the calls
    of the getter outside its function bodies. *)
Lemma mapW_walk_met (args : list expr) :
  Forall (fun e => forall w, walk_e e w = met e (meet_calls (calls e) w)) args ->
  forall w, mapW walk_e args w
            = met args (meet_calls (list_sum (map calls args)) w).
Proof.
  induction 1 as [|a args Ha _ IH]; intros w; simpl.
  - reflexivity.
  - unfold wbind. rewrite Ha, meet_calls_add.
    destruct (meet_calls (calls a) w) as [w1|f]; simpl; [|reflexivity].
    change ((fix go (l : list expr) : W (list expr) :=
               match l with
               | [] => wret []
               | a0 :: l' =>
                   wbind (walk_e a0)
                     (fun b => wbind (go l') (fun bs => wret (b :: bs)))
               end) args w1) with (mapW walk_e args w1).
    rewrite IH.
    now destruct (meet_calls (list_sum (map calls args)) w1).
Qed.

Lemma walk_expr_met :
  forall e w, walk_e e w = met e (meet_calls (calls e) w).
Proof.
  apply (expr_ast_ind
    (fun e => forall w, walk_e e w = met e (meet_calls (calls e) w))
    (fun _ => True) (fun _ => True) (fun _ => True)); auto;
    try (intros; reflexivity).
  - intros callee args IHc IHa w.
    change (walk_e (CallExpression callee args) w)
      with (wbind (visitCallExpr getter callee)
              (fun _ => wbind (walk_e callee)
                 (fun callee' => wbind (mapW walk_e args)
                    (fun args' => wret (CallExpression callee' args')))) w).
    change (calls (CallExpression callee args))
      with ((if is_getter_callee getter callee then 1 else 0)
            + calls callee + list_sum (map calls args)).
    rewrite <- Nat.add_assoc, meet_calls_add.
    unfold wbind at 1. unfold visitCallExpr.
    destruct (is_getter_callee getter callee).
    + simpl. destruct (removed w); [reflexivity|].
      unfold wbind. rewrite IHc, meet_calls_add.
      match goal with |- context [meet_calls (calls callee) ?w0] =>
        destruct (meet_calls (calls callee) w0) as [w1|f] end;
        simpl; [|reflexivity].
      rewrite (mapW_walk_met args IHa).
      now destruct (meet_calls (list_sum (map calls args)) w1).
    + simpl. unfold wbind. rewrite IHc, meet_calls_add.
      destruct (meet_calls (calls callee) w) as [w1|f]; simpl; [|reflexivity].
      rewrite (mapW_walk_met args IHa).
      now destruct (meet_calls (list_sum (map calls args)) w1).
  - intros object property computed IHo IHp w.
    change (walk_e (MemberExpression object property computed) w)
      with (wbind (walk_e object)
              (fun object' => wbind (walk_e property)
                 (fun property' =>
                    wret (MemberExpression object' property' computed))) w).
    change (calls (MemberExpression object property computed))
      with (calls object + calls property).
    unfold wbind. rewrite IHo, meet_calls_add.
    destruct (meet_calls (calls object) w) as [w1|f]; simpl; [|reflexivity].
    rewrite IHp. now destruct (meet_calls (calls property) w1).
  - intros lhs rhs IH w.
    change (walk_e (AssignmentExpression lhs rhs) w)
      with (wbind (walk_e rhs)
              (fun rhs' => wret (AssignmentExpression lhs rhs')) w).
    change (calls (AssignmentExpression lhs rhs)) with (calls rhs).
    unfold wbind. rewrite IH. now destruct (meet_calls (calls rhs) w).
  - intros ps [f l] _ w. reflexivity.
  - intros ps f body IH w.
    change (walk_e (ArrowFunctionExpression ps f body) w)
      with (wbind (walk_e body)
              (fun body' => wret (ArrowFunctionExpression ps f body')) w).
    change (calls (ArrowFunctionExpression ps f body)) with (calls body).
    unfold wbind. rewrite IH. now destruct (meet_calls (calls body) w).
  - intros e t IH w.
    change (walk_e (TSAsExpression e t) w)
      with (wbind (walk_e e) (fun e'' => wret (TSAsExpression e'' t)) w).
    change (calls (TSAsExpression e t)) with (calls e).
    unfold wbind. rewrite IH. now destruct (meet_calls (calls e) w).
Qed.

Lemma walk_declarator_unmarked (n : nat) (d : declarator) (w : walking) :
  is_marked hoisted d = false ->
  walk_d n d w = met d (meet_calls (init_getter_calls getter d) w).
Proof.
  unfold is_marked. destruct d as [node x [e|]]; simpl; intros H.
  - change (walk_d n (VariableDeclarator node x (Some e)) w)
      with (wbind (visitVariableDeclarator hoisted n
                     (VariableDeclarator node x (Some e)))
              (fun _ => wbind (walk_e e)
                 (fun e' => wret (VariableDeclarator node x (Some e')))) w).
    unfold wbind, visitVariableDeclarator. simpl. rewrite H.
    rewrite walk_expr_met. now destruct (meet_calls (calls e) w).
  - change (walk_d n (VariableDeclarator node x None) w)
      with (wbind (visitVariableDeclarator hoisted n
                     (VariableDeclarator node x None))
              (fun _ => wret (VariableDeclarator node x None)) w).
    unfold wbind, visitVariableDeclarator. simpl. now rewrite H.
Qed.

Lemma walk_declarator_marked (n : nat) (d : declarator) (w : walking) :
  is_marked hoisted d = true ->
  walk_d n d w
  = match removed w with
    | Some _ => Raised ParentRemoved
    | None =>
        if Nat.eqb n 1 then
          met d (meet_calls (init_getter_calls getter d)
                   (mkWalking (Some ByDeclarator) (moved_before w)
                      (moved_after w)))
        else Raised NullDeclarator
    end.
Proof.
  unfold is_marked. destruct d as [node x [e|]]; simpl; intros H.
  - change (walk_d n (VariableDeclarator node x (Some e)) w)
      with (wbind (visitVariableDeclarator hoisted n
                     (VariableDeclarator node x (Some e)))
              (fun _ => wbind (walk_e e)
                 (fun e' => wret (VariableDeclarator node x (Some e')))) w).
    unfold wbind, visitVariableDeclarator. simpl. rewrite H.
    destruct (removed w); [reflexivity|].
    destruct (Nat.eqb n 1); [|reflexivity].
    rewrite walk_expr_met.
    match goal with |- context [meet_calls (calls e) ?w0] =>
      now destruct (meet_calls (calls e) w0) end.
  - change (walk_d n (VariableDeclarator node x None) w)
      with (wbind (visitVariableDeclarator hoisted n
                     (VariableDeclarator node x None))
              (fun _ => wret (VariableDeclarator node x None)) w).
    unfold wbind, visitVariableDeclarator. simpl. rewrite H.
    destruct (removed w); [reflexivity|].
    now destruct (Nat.eqb n 1).
Qed.

Lemma mapW_cons {A B : Type} (f : A -> W B) (a : A) (l : list A) (w : walking) :
  mapW f (a :: l) w
  = match f a w with
    | Done (b, w1) =>
        match mapW f l w1 with
        | Done (bs, w2) => Done (b :: bs, w2)
        | Raised e => Raised e
        end
    | Raised e => Raised e
    end.
Proof.
  simpl. unfold wbind. destruct (f a w) as [[b w1]|e]; [|reflexivity].
  reflexivity.
Qed.

Lemma mapW_walk_unmarked (n : nat) (ds : list declarator) :
  filter (is_marked hoisted) ds = [] ->
  forall w,
    mapW (walk_d n) ds w
    = met ds (meet_calls (list_sum (map (init_getter_calls getter) ds)) w).
Proof.
  induction ds as [|d ds IH]; intros H w.
  - reflexivity.
  - simpl in H. destruct (is_marked hoisted d) eqn:Hd; [discriminate|].
    rewrite mapW_cons, (walk_declarator_unmarked n d w Hd).
    simpl map. simpl list_sum. rewrite meet_calls_add.
    destruct (meet_calls (init_getter_calls getter d) w) as [w1|f]; simpl;
      [|reflexivity].
    rewrite (IH H w1).
    now destruct (meet_calls
                    (list_sum (map (init_getter_calls getter) ds)) w1).
Qed.

Lemma mapW_walk_marked_raises (n : nat) (ds : list declarator) :
  n <> 1 ->
  filter (is_marked hoisted) ds <> [] ->
  forall w, exists f, mapW (walk_d n) ds w = Raised f.
Proof.
  intros Hn. induction ds as [|d ds IH]; intros H w.
  - now contradiction H.
  - rewrite mapW_cons. simpl in H.
    destruct (is_marked hoisted d) eqn:Hd.
    + rewrite (walk_declarator_marked n d w Hd).
      destruct (removed w); [eauto|].
      apply Nat.eqb_neq in Hn. rewrite Hn. eauto.
    + rewrite (walk_declarator_unmarked n d w Hd).
      destruct (meet_calls (init_getter_calls getter d) w) as [w1|f]; simpl;
        [|eauto].
      destruct (IH H w1) as [f Hf]. rewrite Hf. eauto.
Qed.

Lemma meet_calls_start (n : nat) :
  meet_calls n start
  = match n with
    | 0 => Done start
    | 1 => Done (mkWalking (Some ByCall) nothing nothing)
    | _ => Raised NoStatementParent
    end.
Proof. destruct n as [|[|n]]; reflexivity. Qed.

Lemma meet_calls_removed (n : nat) (r : removal) (a b : moved) :
  meet_calls n (mkWalking (Some r) a b)
  = match n with
    | 0 => Done (mkWalking (Some r) a b)
    | _ => Raised NoStatementParent
    end.
Proof. destruct n; reflexivity. Qed.

(** Below a statement without marked declarators the walk changes nothing
    and meets the statement's calls of the getter. *)
Lemma walk_children_unmarked (s : stmt) (w : walking) :
  marked_declarators hoisted s = [] ->
  walk_c s w = met s (meet_calls (statement_getter_calls getter s) w).
Proof.
  destruct s as [e|kind ds|[f l]|test [f l] a|id ps [f l]|[e|]|]; intros H;
    try reflexivity.
  - change (walk_c (ExpressionStatement e) w)
      with (wbind (walk_e e) (fun e' => wret (ExpressionStatement e')) w).
    unfold wbind. rewrite walk_expr_met. simpl.
    now destruct (meet_calls (calls e) w).
  - change (walk_c (VariableDeclaration kind ds) w)
      with (wbind (mapW (walk_d (length ds)) ds)
              (fun ds' => wret (VariableDeclaration kind ds')) w).
    unfold wbind. rewrite (mapW_walk_unmarked (length ds) ds H). simpl.
    now destruct (meet_calls
                    (list_sum (map (init_getter_calls getter) ds)) w).
  - change (walk_c (IfStatement test (Block f l) a) w)
      with (wbind (walk_e test)
              (fun test' =>
                 wbind (wret (Block f l))
                   (fun c' =>
                      wbind match a with
                            | Some b =>
                                wbind (walk_block getter hoisted
                                         visitBlock_blacklist b)
                                  (fun b' => wret (Some b'))
                            | None => wret None
                            end
                        (fun a' => wret (IfStatement test' c' a')))) w).
    unfold wbind. rewrite walk_expr_met. simpl.
    destruct (meet_calls (calls test) w) as [w1|f0]; simpl; [|reflexivity].
    destruct a as [[f' l']|]; reflexivity.
  - change (walk_c (ReturnStatement (Some e)) w)
      with (wbind (walk_e e) (fun e' => wret (ReturnStatement (Some e'))) w).
    unfold wbind. rewrite walk_expr_met. simpl.
    now destruct (meet_calls (calls e) w).
Qed.

Lemma walk_statement_unmarked (s : stmt) :
  marked_declarators hoisted s = [] ->
  walk s
  = match statement_getter_calls getter s with
    | 0 => Done (Some s, nothing)
    | 1 => Done (None, mkMoved [] [s])
    | _ => Raised NoStatementParent
    end.
Proof.
  intros H. unfold walk_statement.
  assert (E : (if mem (stmt_type s) visitBlock_blacklist
               then Done (s, start) else walk_c s start)
              = met s (meet_calls (statement_getter_calls getter s) start)).
  { destruct (mem (stmt_type s) visitBlock_blacklist) eqn:Hb.
    - destruct s; try discriminate. reflexivity.
    - now apply walk_children_unmarked. }
  rewrite E, meet_calls_start.
  now destruct (statement_getter_calls getter s) as [|[|n]].
Qed.

(** The walk of a statement that has a group. *)
Lemma walk_statement_grouped (s : stmt) (g : group) :
  group_of getter hoisted s = Some g ->
  walk s = Done match g with
                | Declarations => (None, mkMoved [s] [])
                | Calls => (None, mkMoved [] [s])
                | Rest => (Some s, nothing)
                end.
Proof.
  unfold group_of. intros H.
  destruct (marked_declarators hoisted s) as [|d [|d' ms]] eqn:Hm.
  - rewrite (walk_statement_unmarked s Hm).
    destruct (statement_getter_calls getter s) as [|[|n]];
      inversion H; subst; reflexivity.
  - destruct (statement_getter_calls getter s) as [|n] eqn:Hc;
      [|discriminate].
    destruct s as [e|kind [|d0 [|d1 ds]]|b|test c a|id ps b|r|];
      try discriminate.
    inversion H; subst. simpl in Hm.
    destruct (is_marked hoisted d0) eqn:Hd; [|discriminate].
    unfold walk_statement.
    change (mem (stmt_type (VariableDeclaration kind [d0]))
              visitBlock_blacklist) with false.
    cbv iota.
    change (walk_c (VariableDeclaration kind [d0]) start)
      with (wbind (mapW (walk_d 1) [d0])
              (fun ds' => wret (VariableDeclaration kind ds')) start).
    unfold wbind. rewrite mapW_cons, (walk_declarator_marked 1 d0 start Hd).
    simpl in Hc. rewrite Nat.add_0_r in Hc. simpl. rewrite Hc. reflexivity.
  - destruct (statement_getter_calls getter s); discriminate.
Qed.

(** The walk of a statement that has none raises. *)
Lemma walk_statement_raises (s : stmt) :
  group_of getter hoisted s = None ->
  exists f, walk s = Raised f.
Proof.
  unfold group_of. intros H.
  destruct (marked_declarators hoisted s) as [|d ms] eqn:Hm.
  - rewrite (walk_statement_unmarked s Hm).
    destruct (statement_getter_calls getter s) as [|[|n]];
      try discriminate. eauto.
  - destruct s as [e|kind ds|b|test c a|id ps b|r|]; try discriminate.
    simpl in Hm. unfold walk_statement.
    change (mem (stmt_type (VariableDeclaration kind ds))
              visitBlock_blacklist) with false.
    cbv iota.
    change (walk_c (VariableDeclaration kind ds) start)
      with (wbind (mapW (walk_d (length ds)) ds)
              (fun ds' => wret (VariableDeclaration kind ds')) start).
    unfold wbind.
    destruct (Nat.eq_dec (length ds) 1) as [Hl|Hl].
    + destruct ds as [|d0 [|d1 ds]]; try discriminate.
      simpl in Hm. destruct (is_marked hoisted d0) eqn:Hd; [|discriminate].
      inversion Hm; subst.
      change (length [d]) with 1.
      rewrite mapW_cons, (walk_declarator_marked 1 d start Hd).
      simpl. simpl in H. rewrite Nat.add_0_r in H.
      destruct (init_getter_calls getter d) as [|n]; [discriminate|].
      simpl. eauto.
    + destruct (mapW_walk_marked_raises (length ds) ds Hl) with (w := start)
        as [f Hf].
      * rewrite Hm. discriminate.
      * rewrite Hf. eauto.
Qed.

End HoisterWalk.

(** ** The order of a hoisted block *)

Section HoisterGroups.
Variable getter : option string.
Variable hoisted : list nat.

Local Abbreviation group_of' := (group_of getter hoisted).
Local Abbreviation has_group' := (has_group getter hoisted).
Local Abbreviation in_group' := (in_group getter hoisted).
Local Abbreviation grouped' := (grouped getter hoisted).
Local Abbreviation walks :=
  (walk_all getter hoisted visitBlock_blacklist).

Lemma walk_all_grouped (l : list stmt) :
  forallb has_group' l = true ->
  exists rs,
    walks l = Done rs
    /\ flat_map (fun r => moved_vars (snd r)) rs
       = filter (in_group' Declarations) l
    /\ flat_map (fun r => moved_calls (snd r)) rs
       = filter (in_group' Calls) l
    /\ flat_map stays rs = filter (in_group' Rest) l.
Proof.
  induction l as [|s l IH]; simpl; intros H.
  - exists []. repeat split.
  - apply andb_true_iff in H. destruct H as [Hs Hl].
    destruct (IH Hl) as (rs & Hw & Hv & Hc & Hk).
    unfold has_group in Hs. unfold in_group.
    destruct (group_of' s) as [g|] eqn:Hg; [|discriminate].
    rewrite (walk_statement_grouped getter hoisted s g Hg), Hw.
    eexists. split; [reflexivity|].
    destruct g; simpl; unfold stays; simpl; rewrite Hv, Hc;
      fold (stays) ; repeat split; try reflexivity;
      try (now f_equal); exact Hk.
Qed.

Lemma walk_all_raises (l : list stmt) :
  forallb has_group' l = false ->
  exists f, walks l = Raised f.
Proof.
  induction l as [|s l IH]; simpl; intros H; [discriminate|].
  destruct (has_group' s) eqn:Hs.
  - simpl in H. destruct (IH H) as [f Hf].
    unfold has_group in Hs.
    destruct (group_of' s) as [g|] eqn:Hg; [|discriminate].
    rewrite (walk_statement_grouped getter hoisted s g Hg), Hf. eauto.
  - unfold has_group in Hs.
    destruct (group_of' s) as [g|] eqn:Hg; [discriminate|].
    destruct (walk_statement_raises getter hoisted s Hg) as [f Hf].
    rewrite Hf. eauto.
Qed.

(** When every statement of the block has a group, the hoisted block is
    the three groups in turn. *)
Lemma visitBlock_grouped (l : list stmt) :
  forallb has_group' l = true ->
  visitBlock getter hoisted l = Done (grouped' l).
Proof.
  intros H. unfold visitBlock. rewrite visitBlock_with_walks.
  destruct (walk_all_grouped l H) as (rs & Hw & Hv & Hc & Hk).
  rewrite Hw, Hv, Hc, Hk. reflexivity.
Qed.

(** When some statement has none, hoisting raises. *)
Lemma visitBlock_raises (l : list stmt) :
  forallb has_group' l = false ->
  exists f, visitBlock getter hoisted l = Raised f.
Proof.
  intros H. unfold visitBlock. rewrite visitBlock_with_walks.
  destruct (walk_all_raises l H) as [f Hf]. rewrite Hf. eauto.
Qed.

Lemma visitBlock_returns (l l' : list stmt) :
  visitBlock getter hoisted l = Done l' ->
  forallb has_group' l = true /\ l' = grouped' l.
Proof.
  intros H. destruct (forallb has_group' l) eqn:Hg.
  - rewrite (visitBlock_grouped l Hg) in H. inversion H. auto.
  - destruct (visitBlock_raises l Hg) as [f Hf]. congruence.
Qed.

Lemma in_group_has_group (g : group) (s : stmt) :
  in_group' g s = true -> has_group' s = true.
Proof.
  unfold in_group, has_group. now destruct (group_of' s).
Qed.

Lemma in_group_exclusive (g g' : group) (s : stmt) :
  in_group' g s = true -> in_group' g' s = group_eqb g g'.
Proof.
  unfold in_group. destruct (group_of' s) as [g0|]; [|discriminate].
  destruct g0, g, g'; simpl; congruence.
Qed.

Lemma filter_in_group_twice (g g' : group) (l : list stmt) :
  filter (in_group' g') (filter (in_group' g) l)
  = if group_eqb g g' then filter (in_group' g) l else [].
Proof.
  induction l as [|s l IH]; simpl.
  - now destruct (group_eqb g g').
  - destruct (in_group' g s) eqn:Hs; [|exact IH].
    simpl. rewrite (in_group_exclusive g g' s Hs), IH.
    now destruct (group_eqb g g').
Qed.

Lemma grouped_has_group (l : list stmt) :
  forallb has_group' (grouped' l) = true.
Proof.
  unfold grouped. rewrite !forallb_app.
  repeat (apply andb_true_iff; split); apply forallb_forall;
    intros s Hs; apply filter_In in Hs; destruct Hs as [_ Hs];
    now apply (in_group_has_group _ s Hs).
Qed.

Lemma grouped_twice (l : list stmt) : grouped' (grouped' l) = grouped' l.
Proof.
  unfold grouped. rewrite !filter_app, !filter_in_group_twice. simpl.
  now rewrite !app_nil_r.
Qed.

Lemma grouped_Permutation (l : list stmt) :
  forallb has_group' l = true ->
  Permutation (grouped' l) l.
Proof.
  unfold grouped. induction l as [|s l IH]; simpl; intros H.
  - reflexivity.
  - apply andb_true_iff in H. destruct H as [Hs Hl]. specialize (IH Hl).
    unfold has_group in Hs. unfold in_group in *.
    destruct (group_of' s) as [[| |]|]; try discriminate; simpl.
    + apply perm_skip. exact IH.
    + etransitivity; [|apply perm_skip; exact IH].
      symmetry. apply Permutation_middle.
    + etransitivity; [|apply perm_skip; exact IH].
      rewrite !app_assoc. symmetry. apply Permutation_middle.
Qed.

(** A block of statements that all stay is returned as it is. *)
Lemma grouped_rest (l : list stmt) :
  Forall (fun s => group_of' s = Some Rest) l ->
  forallb has_group' l = true /\ grouped' l = l.
Proof.
  unfold grouped, in_group, has_group.
  induction 1 as [|s l Hs Hl [IH1 IH2]]; simpl.
  - auto.
  - rewrite Hs. simpl. split; [exact IH1|].
    assert (E : forall g, g <> Rest ->
                filter (fun s0 => match group_of' s0 with
                                  | Some g' => group_eqb g' g
                                  | None => false
                                  end) l = []).
    { intros g Hg. clear IH1 IH2.
      induction Hl as [|x l Hx Hl' IH]; simpl; [reflexivity|].
      rewrite Hx. destruct g; try congruence; simpl; exact IH. }
    rewrite (E Declarations), (E Calls) in * by discriminate.
    simpl in *. now f_equal.
Qed.

End HoisterGroups.

Lemma group_of_mock_statements (hoisted : list nat) (x y : string) :
  let mock v := ExpressionStatement
                  (Sample.method Sample.getJestObj "mock" [StringLiteral v]) in
  visitBlock (Some "_getJestObj") hoisted [Sample.A; mock x; Sample.B; mock y]
  = Done [mock x; mock y; Sample.A; Sample.B].
Proof. intros mock. now rewrite visitBlock_grouped. Qed.

(** C1.  When [visitBlock] returns, the statements of the block are the
    hoisted variable declarations (each a declaration of one marked
    declarator), then the statements with a call of the getter, then the
    remaining statements, each group in its source order; it returns
    exactly when every statement of the block is in one of the three
    groups.  The block
    [a(); _getJestObj().mock("x"); b(); _getJestObj().mock("y")] becomes
    [_getJestObj().mock("x"); _getJestObj().mock("y"); a(); b()]. *)
Theorem visitBlock_order (getter : option string) (hoisted : list nat)
    (statements : list stmt) :
  (forall hoisted_statements,
      visitBlock getter hoisted statements = Done hoisted_statements ->
      hoisted_statements
      = filter (in_group getter hoisted Declarations) statements
        ++ filter (in_group getter hoisted Calls) statements
        ++ filter (in_group getter hoisted Rest) statements)
  /\ (forallb (has_group getter hoisted) statements = true <->
      exists hoisted_statements,
        visitBlock getter hoisted statements = Done hoisted_statements)
  /\ (forall x y : string,
        let mock v := ExpressionStatement
                        (Sample.method Sample.getJestObj "mock"
                           [StringLiteral v]) in
        visitBlock (Some "_getJestObj") hoisted
          [Sample.A; mock x; Sample.B; mock y]
        = Done [mock x; mock y; Sample.A; Sample.B]).
Proof.
  split; [|split].
  - intros l' H. now apply visitBlock_returns in H.
  - split.
    + intros H. eexists. now apply visitBlock_grouped.
    + intros [l' H]. now apply visitBlock_returns in H.
  - intros x y. apply group_of_mock_statements.
Qed.

(** ** The detector *)

Section Detector.
Variable global_property_names : list string.
Variable isPure : Scope -> nat -> bool.

Local Abbreviation extract :=
  (extractJestObjExprIfHoistable global_property_names isPure).
Local Abbreviation resolve := (resolve_receiver global_property_names isPure).

Lemma extract_call_member (scope : Scope) (object property : expr)
    (args : list expr) :
  extract scope (CallExpression (MemberExpression object property false) args)
  = (jestObjExpr <- resolve scope object ;;
     match jestObjExpr with
     | None => ret None
     | Some j =>
         functionLooksHoistable <-
           call_FUNCTIONS global_property_names isPure scope property args ;;
         ret (if functionLooksHoistable : bool then Some j else None)
     end).
Proof. reflexivity. Qed.


Lemma extract_receiver_unresolved (scope : Scope) (object property : expr)
    (args : list expr) (s s' : state) :
  resolve scope object s = Return None s' ->
  extract scope (CallExpression (MemberExpression object property false) args) s
  = Return None s'.
Proof.
  intros H. rewrite extract_call_member. unfold bind. now rewrite H.
Qed.

(** The identifier loop raises nothing but [ReferenceError]. *)
Lemma for_each_id_throws (parentScope : Scope) (ids : list IdPath) :
  forall (s st : state) (e : error),
    for_each_id global_property_names isPure parentScope ids s = Throw e st ->
    exists anchor message, e = ReferenceError anchor message.
Proof.
  induction ids as [|id ids IH]; intros s st e H; simpl in H.
  - discriminate.
  - unfold bind, check_id in H.
    destruct (found_before_parent (id_scopes id) (id_name id)).
    + simpl in H. eauto.
    + destruct (allowed_by_name global_property_names parentScope (id_name id)).
      * simpl in H. eauto.
      * destruct (hoistable_binding isPure parentScope (id_name id)).
        -- simpl in H. eauto.
        -- simpl in H. inversion H. eauto.
Qed.

Lemma stateless_rule_sound (scope : Scope) (property : expr)
    (args : list expr) (b : bool) (s : state) :
  stateless_rule property args = Some b ->
  call_FUNCTIONS global_property_names isPure scope property args s
  = Return b s.
Proof.
  unfold stateless_rule, call_FUNCTIONS, FUNCTIONS.
  destruct (property_name property) as [name|].
  - destruct (String.eqb name "mock").
    + destruct args as [|a0 [|a1 [|a2 [|a3 rest]]]]; intros H;
        inversion H; reflexivity.
    + destruct (String.eqb name "unmock"); simpl.
      * intros H. inversion H. reflexivity.
      * destruct (String.eqb name "deepUnmock"); simpl.
        -- intros H. inversion H. reflexivity.
        -- destruct (String.eqb name "disableAutomock"); simpl.
           ++ intros H. inversion H. reflexivity.
           ++ destruct (String.eqb name "enableAutomock"); simpl;
                intros H; inversion H; reflexivity.
  - intros H. inversion H. reflexivity.
Qed.

Lemma detect_without_factory_sound (scope : Scope) :
  forall (e : expr) (r : option expr) (s : state),
    detect_without_factory scope e = Some r ->
    extract scope e s = Return r s.
Proof.
  fix IH 1. intros e r s H.
  destruct e as [| | | |callee args| | | | |];
    try (inversion H; reflexivity).
  destruct callee as [| | | | |object property computed| | | |];
    try (inversion H; reflexivity).
  destruct computed; try (inversion H; reflexivity).
  rewrite extract_call_member. unfold resolve_receiver, bind.
  simpl in H.
  destruct (isJestObject scope object).
  - simpl.
    destruct (stateless_rule property args) as [b|] eqn:Hrule;
      [|discriminate].
    rewrite (stateless_rule_sound scope property args b s Hrule).
    destruct b; inversion H; reflexivity.
  - destruct (detect_without_factory scope object) as [[j|]|] eqn:Hd;
      [| |discriminate].
    + rewrite (IH object (Some j) s Hd).
      destruct (stateless_rule property args) as [b|] eqn:Hrule;
        [|discriminate].
      rewrite (stateless_rule_sound scope property args b s Hrule).
      destruct b; inversion H; reflexivity.
    + rewrite (IH object None s Hd). inversion H. reflexivity.
Qed.

Lemma inert_sound (scope : Scope) (e : expr) (s : state) :
  inert scope e = true -> extract scope e s = Return None s.
Proof.
  unfold inert. intros H. apply detect_without_factory_sound.
  destruct (detect_without_factory scope e) as [[j|]|];
    [discriminate | reflexivity | discriminate].
Qed.

Lemma unrelated_inert (scope : Scope) :
  forall e, receiver_reaches_jest scope e = false -> inert scope e = true.
Proof.
  unfold inert. fix IH 1. intros e H.
  destruct e as [| | | |callee args| | | | |]; try reflexivity.
  destruct callee as [| | | | |object property computed| | | |];
    try reflexivity.
  destruct computed; try reflexivity.
  simpl in H. apply orb_false_iff in H. destruct H as [Hj Hr].
  simpl. rewrite Hj. specialize (IH object Hr).
  destruct (detect_without_factory scope object) as [[j|]|];
    [discriminate | reflexivity | discriminate].
Qed.

Section Visit.
Variable generateUidIdentifier : ScopeFrame -> string -> string.
Variable template_declarator_node : nat.

Local Abbreviation visit_stmt' :=
  (visit_stmt global_property_names isPure generateUidIdentifier
     template_declarator_node).
Local Abbreviation visit_expr' :=
  (visit_expr global_property_names isPure generateUidIdentifier
     template_declarator_node).


End Visit.

(** C7.  For a call of [mock] with two or three arguments whose receiver
    resolves to the jest object, the [TypeError] anchored at the second
    argument is raised exactly when that argument is not a function, and no
    other [TypeError] is raised. *)
Theorem invalid_factory_iff (scope : Scope) (object a0 a1 j : expr)
    (rest : list expr) (s s' : state) :
  length rest <= 1 ->
  resolve scope object s = Return (Some j) s' ->
  let call := CallExpression
                (MemberExpression object (Identifier "mock") false)
                (a0 :: a1 :: rest) in
  (isFunction a1 = false <->
   exists st, extract scope call s
              = Throw (TypeError a1 invalid_factory_message) st)
  /\ (forall anchor message st,
        extract scope call s = Throw (TypeError anchor message) st ->
        anchor = a1 /\ isFunction a1 = false).
Proof.
  intros Hlen Hres call. unfold call.
  assert (Hrun : extract scope
            (CallExpression (MemberExpression object (Identifier "mock") false)
               (a0 :: a1 :: rest)) s
          = (functionLooksHoistable <-
               FUNCTIONS_mock global_property_names isPure scope
                 (a0 :: a1 :: rest) ;;
             ret (if functionLooksHoistable : bool then Some j else None)) s').
  { rewrite extract_call_member. unfold bind at 1. rewrite Hres. reflexivity. }
  rewrite Hrun. clear Hrun.
  assert (Hshape : rest = [] \/ exists a2, rest = [a2]).
  { destruct rest as [|a2 [|a3 rest]]; simpl in Hlen; eauto; lia. }
  assert (Hmock : FUNCTIONS_mock global_property_names isPure scope
                    (a0 :: a1 :: rest)
                  = if negb (isFunction a1)
                    then throw (TypeError a1 invalid_factory_message)
                    else (_ <- for_each_id global_property_names isPure scope
                                 (traverse_ids IDVisitor_blacklist a1) ;;
                          ret true)).
  { destruct Hshape as [-> | [a2 ->]]; reflexivity. }
  rewrite Hmock. clear Hmock.
  destruct (isFunction a1) eqn:Hf; simpl.
  - assert (Hno : forall anchor message st,
              (functionLooksHoistable <-
                 (_ <- for_each_id global_property_names isPure scope
                         (traverse_ids IDVisitor_blacklist a1) ;; ret true) ;;
               ret (if functionLooksHoistable : bool then Some j else None)) s'
              <> Throw (TypeError anchor message) st).
    { intros anchor message st H. unfold bind in H.
      destruct (for_each_id global_property_names isPure scope
                  (traverse_ids IDVisitor_blacklist a1) s') as [u s1|e s1] eqn:E.
      - discriminate.
      - inversion H; subst.
        destruct (for_each_id_throws _ _ _ _ _ E) as (a & m & Habs).
        discriminate. }
    split.
    + split; [discriminate|]. intros [st H]. now apply Hno in H.
    + intros anchor message st H. now apply Hno in H.
  - split.
    + split; [|reflexivity]. intros _. exists s'. reflexivity.
    + intros anchor message st H. unfold bind, throw in H.
      inversion H. auto.
Qed.

End Detector.

(** ** The free-variable check *)

Section Validator.
Variable global_property_names : list string.
Variable isPure : Scope -> nat -> bool.

Local Abbreviation check := (check_id global_property_names isPure).
Local Abbreviation ALLOWED := (ALLOWED_IDENTIFIERS global_property_names).

Lemma hoistable_binding_spec (scope : Scope) (name : string) (node : nat) :
  hoistable_binding isPure scope name = Some node <->
  exists b, own_binding scope name = Some b
            /\ path b = VariableDeclaratorPath node true
            /\ constant b = true
            /\ isPure scope node = true.
Proof.
  unfold hoistable_binding. split.
  - destruct (own_binding scope name) as [b|]; [|discriminate].
    destruct (path b) as [n i| | |] eqn:Hp; try discriminate.
    destruct i; simpl; [|discriminate].
    destruct (constant b) eqn:Hc; simpl; [|discriminate].
    destruct (isPure scope n) eqn:Hi; [|discriminate].
    intros H. inversion H; subst. exists b. auto.
  - intros (b & Hb & Hp & Hc & Hi). rewrite Hb, Hp, Hc, Hi. reflexivity.
Qed.

Lemma has_marked (n node : nat) (set : list nat) :
  has n (add node set) = true <-> n = node \/ has n set = true.
Proof.
  unfold add. destruct (has node set) eqn:Hn.
  - split; [auto|]. intros [->|H]; assumption.
  - unfold has. simpl. rewrite orb_true_iff, Nat.eqb_eq. tauto.
Qed.

(** C3, as the code has it.  An identifier of the factory that no scope
    below the call's scope binds, that is no allowed global and matches
    neither name pattern, is accepted when the call's own scope binds it by
    a declarator that has an initializer, is constant and has a pure
    initializer: the check returns, the declarators in [hoistedVariables]
    are then that declarator and the ones that were there, and nothing
    else of the state has changed.  In every other case -- so also when
    only a scope around the call's scope binds it so -- the
    [ReferenceError] naming it is raised with the state as it was. *)
Theorem free_identifier_hoisted_or_rejected (parentScope : Scope) (id : IdPath)
    (s : state) :
  found_before_parent (id_scopes id) (id_name id) = false ->
  hasGlobal parentScope (id_name id) && mem (id_name id) ALLOWED = false ->
  test_mock_i (id_name id) = false ->
  test_cov (id_name id) = false ->
  (forall node b,
      own_binding parentScope (id_name id) = Some b ->
      path b = VariableDeclaratorPath node true ->
      constant b = true ->
      isPure parentScope node = true ->
      exists s',
        check parentScope id s = Return tt s'
        /\ has node (hoistedVariables s') = true
        /\ (forall n, has n (hoistedVariables s') = true <->
                      n = node \/ has n (hoistedVariables s) = true)
        /\ jestObjGetterIdentifier s' = jestObjGetterIdentifier s
        /\ unshifted s' = unshifted s)
  /\ (~ (exists node b,
           own_binding parentScope (id_name id) = Some b
           /\ path b = VariableDeclaratorPath node true
           /\ constant b = true
           /\ isPure parentScope node = true) ->
      check parentScope id s
      = Throw (ReferenceError (Identifier (id_name id))
                 (out_of_scope_message global_property_names (id_name id))) s).
Proof.
  intros Hfound Hglobal Hmock Hcov.
  unfold check_id. rewrite Hfound.
  unfold allowed_by_name. rewrite Hglobal, Hmock, Hcov. simpl.
  split.
  - intros node b Hb Hp Hc Hi.
    assert (H : hoistable_binding isPure parentScope (id_name id) = Some node)
      by (apply hoistable_binding_spec; eauto).
    rewrite H. eexists. split; [reflexivity|]. simpl.
    repeat split; try apply has_marked; auto.
  - intros Hnone.
    destruct (hoistable_binding isPure parentScope (id_name id)) as [node|] eqn:H.
    + apply hoistable_binding_spec in H. destruct H as (b & H).
      exfalso. apply Hnone. eauto.
    + reflexivity.
Qed.

(** C8.  An identifier that no scope below the call's scope binds is accepted
    with the state unchanged, so without marking any declarator, when it is
    a global on the allow-list, or starts with [mock] in any letter case, or
    starts with [cov] or [__cov]. *)
Theorem free_identifier_allowed_by_name (parentScope : Scope) (id : IdPath)
    (s : state) :
  found_before_parent (id_scopes id) (id_name id) = false ->
  (hasGlobal parentScope (id_name id) = true /\ mem (id_name id) ALLOWED = true)
  \/ test_mock_i (id_name id) = true
  \/ test_cov (id_name id) = true ->
  check parentScope id s = Return tt s.
Proof.
  intros Hfound Hallowed.
  unfold check_id. rewrite Hfound.
  assert (H : allowed_by_name global_property_names parentScope (id_name id)
              = true).
  { unfold allowed_by_name.
    destruct Hallowed as [[Hg Hm] | [Hm | Hc]].
    - now rewrite Hg, Hm.
    - rewrite Hm. now rewrite orb_true_r.
    - rewrite Hc. now rewrite orb_true_r. }
  rewrite H. reflexivity.
Qed.

End Validator.

(** ** Type annotations *)

Lemma flat_map_map_Forall {A B : Type} (g : A -> list B) (h : A -> A)
    (l : list A) :
  Forall (fun x => g (h x) = g x) l ->
  flat_map g (map h l) = flat_map g l.
Proof.
  induction 1 as [|x l Hx Hl IH]; simpl.
  - reflexivity.
  - now rewrite Hx, IH.
Qed.

Lemma ids_type_blacklisted (inner : list ScopeFrame) (t : typeNode) :
  ids_type IDVisitor_blacklist inner t = [].
Proof. destruct t; reflexivity. Qed.

Lemma ids_params_blacklisted (inner : list ScopeFrame) (ps : list param) :
  flat_map (ids_param IDVisitor_blacklist inner) ps = [].
Proof.
  induction ps as [|p ps IH]; simpl.
  - reflexivity.
  - rewrite IH, app_nil_r. unfold ids_param.
    destruct (ptype p); [apply ids_type_blacklisted | reflexivity].
Qed.

Section RetypeFacts.
Variable f : typeNode -> typeNode.

Lemma block_scope_retype (b : block) :
  block_scope (retype_block f b) = block_scope b.
Proof. destruct b; reflexivity. Qed.

Lemma ids_retype :
  forall e inner,
    ids_expr IDVisitor_blacklist inner (retype_expr f e)
    = ids_expr IDVisitor_blacklist inner e.
Proof.
  apply (expr_ast_ind
    (fun e => forall inner,
       ids_expr IDVisitor_blacklist inner (retype_expr f e)
       = ids_expr IDVisitor_blacklist inner e)
    (fun s => forall inner,
       ids_stmt IDVisitor_blacklist inner (retype_stmt f s)
       = ids_stmt IDVisitor_blacklist inner s)
    (fun d => forall inner,
       ids_declarator IDVisitor_blacklist inner (retype_declarator f d)
       = ids_declarator IDVisitor_blacklist inner d)
    (fun b => forall inner,
       ids_block IDVisitor_blacklist inner (retype_block f b)
       = ids_block IDVisitor_blacklist inner b)); try reflexivity.
  - intros callee args IHc IHa inner. simpl. rewrite IHc. f_equal.
    apply flat_map_map_Forall.
    eapply Forall_impl; [|exact IHa]. intros a Ha. apply Ha.
  - intros object property computed IHo IHp inner. simpl.
    now rewrite IHo, IHp.
  - intros lhs rhs IH inner. simpl. apply IH.
  - intros ps b IH inner. simpl.
    rewrite !ids_params_blacklisted. simpl. apply IH.
  - intros ps fr body IH inner. simpl.
    rewrite !ids_params_blacklisted. simpl. apply IH.
  - intros e t IH inner. simpl. rewrite IH, !ids_type_blacklisted.
    reflexivity.
  - intros e IH inner. simpl. apply IH.
  - intros kind ds IH inner. simpl.
    apply flat_map_map_Forall.
    eapply Forall_impl; [|exact IH]. intros a Ha. apply Ha.
  - intros b IH inner. simpl. apply IH.
  - intros test c a IHt IHc IHa inner. simpl. rewrite IHt, IHc.
    destruct a as [b|]; [|reflexivity]. now rewrite (IHa b eq_refl).
  - intros id ps b IH inner. simpl.
    rewrite !ids_params_blacklisted. simpl. apply IH.
  - intros [e|] IH inner; [|reflexivity]. simpl. now apply IH.
  - intros n x [e|] IH inner; [|reflexivity]. simpl. now apply IH.
  - intros fr body IH inner. simpl.
    apply flat_map_map_Forall.
    eapply Forall_impl; [|exact IH]. intros a Ha. apply Ha.
Qed.

End RetypeFacts.

Lemma isFunction_retype (f : typeNode -> typeNode) (e : expr) :
  isFunction (retype_expr f e) = isFunction e.
Proof. destruct e; reflexivity. Qed.

Lemma traverse_ids_retype (f : typeNode -> typeNode) (moduleFactory : expr) :
  traverse_ids IDVisitor_blacklist (retype_expr f moduleFactory)
  = traverse_ids IDVisitor_blacklist moduleFactory.
Proof.
  destruct moduleFactory as [| | | | | | |ps b|ps fr body|]; try reflexivity.
  - simpl. rewrite !ids_params_blacklisted. simpl.
    pose proof (ids_retype f (FunctionExpression [] b) []) as H.
    simpl in H. exact H.
  - simpl. rewrite !ids_params_blacklisted. simpl. apply ids_retype.
Qed.

(** C10.  The identifier walk of a factory does not enter [TypeAnnotation],
    [TSTypeAnnotation] or [TSTypeReference] nodes: whatever the type nodes of
    a factory hold, the identifiers collected are the same, and so is the
    outcome of [FUNCTIONS.mock] -- its result, the error it raises and the
    declarators it marks. *)
Theorem type_annotations_excluded (global_property_names : list string)
    (isPure : Scope -> nat -> bool) (f : typeNode -> typeNode)
    (parentScope : Scope) (a0 moduleFactory : expr) (rest : list expr)
    (s : state) :
  isFunction moduleFactory = true ->
  traverse_ids IDVisitor_blacklist (retype_expr f moduleFactory)
  = traverse_ids IDVisitor_blacklist moduleFactory
  /\ FUNCTIONS_mock global_property_names isPure parentScope
       (a0 :: retype_expr f moduleFactory :: rest) s
     = FUNCTIONS_mock global_property_names isPure parentScope
         (a0 :: moduleFactory :: rest) s.
Proof.
  intros Hf. split; [apply traverse_ids_retype|].
  unfold FUNCTIONS_mock.
  rewrite isFunction_retype, Hf, traverse_ids_retype. simpl.
  destruct rest as [|a2 [|a3 rest]]; reflexivity.
Qed.

(** ** The getter *)

Section Getter.
Variable generateUidIdentifier : ScopeFrame -> string -> string.
Variable template_declarator_node : nat.

Local Abbreviation declare :=
  (declareJestObjGetterIdentifier generateUidIdentifier
     template_declarator_node).
Local Abbreviation declare_n :=
  (declare_times generateUidIdentifier template_declarator_node).

Lemma declare_cached (program : ScopeFrame) (s : state) (id : string) :
  jestObjGetterIdentifier s = Some id ->
  declare program s = Return id s.
Proof.
  intros H. unfold declareJestObjGetterIdentifier. now rewrite H.
Qed.

Lemma declare_times_cached (program : ScopeFrame) (s : state) (id : string)
    (n : nat) :
  jestObjGetterIdentifier s = Some id ->
  declare_n program n s = Return (repeat id n) s.
Proof.
  intros H. induction n as [|n IH]; simpl.
  - reflexivity.
  - unfold bind. rewrite (declare_cached program s id H), IH. reflexivity.
Qed.

(** C6.  When no getter exists yet, the first call of
    [declareJestObjGetterIdentifier] generates the identifier and puts the
    getter declaration in front of the program; every later call returns
    that identifier and leaves the state alone.  After any number of calls
    one declaration has been inserted. *)
Theorem getter_declared_once (program : ScopeFrame) (s : state) (n : nat) :
  jestObjGetterIdentifier s = None ->
  let id := generateUidIdentifier program "getJestObj" in
  let s1 := mkState (hoistedVariables s) (Some id)
              (createJestObjectGetter template_declarator_node id
                 :: unshifted s) in
  declare program s = Return id s1
  /\ declare program s1 = Return id s1
  /\ declare_n program (S n) s = Return (repeat id (S n)) s1.
Proof.
  intros H id s1.
  assert (H1 : declare program s = Return id s1).
  { unfold declareJestObjGetterIdentifier. rewrite H. reflexivity. }
  split; [exact H1|]. split.
  - now apply declare_cached.
  - simpl. unfold bind. rewrite H1.
    rewrite (declare_times_cached program s1 id n eq_refl). reflexivity.
Qed.

End Getter.

(** *** One declaration per program *)

Section OneGetter.
Variable global_property_names : list string.
Variable isPure : Scope -> nat -> bool.
Variable generateUidIdentifier : ScopeFrame -> string -> string.
Variable template_declarator_node : nat.
Variable program : ScopeFrame.

Local Abbreviation one_getter := (one_getter template_declarator_node).
Local Abbreviation keeps := (keeps_one_getter template_declarator_node).

Lemma keeps_ret {A : Type} (a : A) : keeps (ret a).
Proof. intros s H. exact H. Qed.

Lemma keeps_throw {A : Type} (e : error) : keeps (@throw A e).
Proof. intros s H. exact H. Qed.

Lemma keeps_bind {A B : Type} (m : M A) (k : A -> M B) :
  keeps m -> (forall a, keeps (k a)) -> keeps (bind m k).
Proof.
  intros Hm Hk s H. unfold bind. specialize (Hm s H).
  destruct (m s) as [a s'|e s']; [now apply Hk | exact Hm].
Qed.

Lemma keeps_mapM {A B : Type} (f : A -> M B) (l : list A) :
  Forall (fun x => keeps (f x)) l -> keeps (mapM f l).
Proof.
  induction 1 as [|x l Hx Hl IH]; simpl.
  - apply keeps_ret.
  - apply keeps_bind; [exact Hx|]. intros b.
    apply keeps_bind; [exact IH|]. intros bs. apply keeps_ret.
Qed.

Create HintDb keeps.
#[local] Hint Resolve keeps_ret keeps_throw : keeps.

Lemma keeps_check_id (parentScope : Scope) (id : IdPath) :
  keeps (check_id global_property_names isPure parentScope id).
Proof.
  unfold check_id.
  destruct (found_before_parent (id_scopes id) (id_name id));
    auto with keeps.
  destruct (allowed_by_name global_property_names parentScope (id_name id));
    auto with keeps.
  destruct (hoistable_binding isPure parentScope (id_name id));
    auto with keeps.
  intros s H. exact H.
Qed.

Lemma keeps_for_each_id (parentScope : Scope) (ids : list IdPath) :
  keeps (for_each_id global_property_names isPure parentScope ids).
Proof.
  induction ids as [|id ids IH]; simpl; auto with keeps.
  apply keeps_bind; [apply keeps_check_id | intros _; exact IH].
Qed.

Lemma keeps_call_FUNCTIONS (scope : Scope) (property : expr)
    (args : list expr) :
  keeps (call_FUNCTIONS global_property_names isPure scope property args).
Proof.
  unfold call_FUNCTIONS.
  destruct (property_name property) as [name|]; auto with keeps.
  unfold FUNCTIONS.
  destruct (String.eqb name "mock").
  - unfold FUNCTIONS_mock.
    destruct args as [|a0 [|a1 [|a2 [|a3 rest]]]]; auto with keeps;
      (destruct (negb (isFunction a1)); auto with keeps;
       apply keeps_bind; [apply keeps_for_each_id | auto with keeps]).
  - repeat match goal with
           | |- context [if ?c then _ else _] => destruct c
           end; auto with keeps; apply keeps_ret.
Qed.

Lemma keeps_extract (scope : Scope) :
  forall e,
    keeps (extractJestObjExprIfHoistable global_property_names isPure scope e).
Proof.
  fix IH 1. intros e.
  destruct e as [| | | |callee args| | | | |]; try apply keeps_ret.
  destruct callee as [| | | | |object property computed| | | |];
    try apply keeps_ret.
  destruct computed; try apply keeps_ret.
  rewrite extract_call_member. apply keeps_bind.
  - unfold resolve_receiver.
    destruct (isJestObject scope object); [apply keeps_ret | apply IH].
  - intros [j|]; [|apply keeps_ret].
    apply keeps_bind; [apply keeps_call_FUNCTIONS | intros b; apply keeps_ret].
Qed.

Lemma keeps_declare :
  keeps (declareJestObjGetterIdentifier generateUidIdentifier
           template_declarator_node program).
Proof.
  intros s H. unfold declareJestObjGetterIdentifier.
  destruct (jestObjGetterIdentifier s) as [id|] eqn:Hg.
  - exact H.
  - unfold one_getter in *. simpl. rewrite Hg in H. now rewrite H.
Qed.

Lemma keeps_visit :
  (forall e scope,
      keeps (visit_expr global_property_names isPure generateUidIdentifier
               template_declarator_node program scope e))
  /\ (forall st scope,
        keeps (visit_stmt global_property_names isPure generateUidIdentifier
                 template_declarator_node program scope st))
  /\ (forall d scope,
        keeps (visit_declarator global_property_names isPure
                 generateUidIdentifier template_declarator_node program
                 scope d))
  /\ (forall b scope,
        keeps (visit_block global_property_names isPure generateUidIdentifier
                 template_declarator_node program scope b)).
Proof.
  apply ast_ind; try (intros; apply keeps_ret).
  - intros callee args IHc IHa scope. simpl.
    apply keeps_bind; [apply IHc|]. intros c.
    apply keeps_bind; [|intros; apply keeps_ret].
    apply keeps_mapM. eapply Forall_impl; [|exact IHa]. intros a Ha. apply Ha.
  - intros object property computed IHo IHp scope. simpl.
    apply keeps_bind; [apply IHo|]. intros o.
    apply keeps_bind; [apply IHp|]. intros; apply keeps_ret.
  - intros lhs rhs IH scope. simpl.
    apply keeps_bind; [apply IH|]. intros; apply keeps_ret.
  - intros ps b IH scope. simpl.
    apply keeps_bind; [apply IH|]. intros; apply keeps_ret.
  - intros ps f body IH scope. simpl.
    apply keeps_bind; [apply IH|]. intros; apply keeps_ret.
  - intros e t IH scope. simpl.
    apply keeps_bind; [apply IH|]. intros; apply keeps_ret.
  - intros e IH scope. simpl.
    apply keeps_bind; [apply keeps_extract|]. intros j.
    apply keeps_bind.
    + destruct j; [|apply keeps_ret].
      apply keeps_bind; [apply keeps_declare | intros; apply keeps_ret].
    + intros g. apply keeps_bind; [apply IH | intros; apply keeps_ret].
  - intros kind ds IH scope. simpl.
    apply keeps_bind; [|intros; apply keeps_ret].
    apply keeps_mapM. eapply Forall_impl; [|exact IH]. intros a Ha. apply Ha.
  - intros b IH scope. simpl.
    apply keeps_bind; [apply IH|]. intros; apply keeps_ret.
  - intros test c a IHt IHc IHa scope. simpl.
    apply keeps_bind; [apply IHt|]. intros t'.
    apply keeps_bind; [apply IHc|]. intros c'.
    apply keeps_bind; [|intros; apply keeps_ret].
    destruct a as [b|]; [|apply keeps_ret].
    apply keeps_bind; [now apply (IHa b) | intros; apply keeps_ret].
  - intros id ps b IH scope. simpl.
    apply keeps_bind; [apply IH|]. intros; apply keeps_ret.
  - intros [e|] IH scope; [|apply keeps_ret]. simpl.
    apply keeps_bind; [now apply (IH e) | intros; apply keeps_ret].
  - intros n x [e|] IH scope; [|apply keeps_ret]. simpl.
    apply keeps_bind; [now apply (IH e) | intros; apply keeps_ret].
  - intros f body IH scope. simpl.
    apply keeps_bind; [|intros; apply keeps_ret].
    apply keeps_mapM. eapply Forall_impl; [|exact IH]. intros a Ha. apply Ha.
Qed.

End OneGetter.

(** However many statements the visitor rewrites, the visited program
    starts with the getter's declaration when a getter was made, and with
    nothing added otherwise. *)
Lemma visit_program_one_getter (global_property_names : list string)
    (isPure : Scope -> nat -> bool)
    (generateUidIdentifier : ScopeFrame -> string -> string)
    (template_declarator_node : nat) (p p' : Program) (hoisted : list nat)
    (s' : state) :
  visit_program global_property_names isPure generateUidIdentifier
    template_declarator_node p (mkState hoisted None [])
  = Return p' s' ->
  exists body' s1,
    mapM (visit_stmt global_property_names isPure generateUidIdentifier
            template_declarator_node (program_scope p) [program_scope p])
         (program_body p) (mkState hoisted None [])
    = Return body' s1
    /\ program_body p'
       = match jestObjGetterIdentifier s' with
         | Some id => [createJestObjectGetter template_declarator_node id]
         | None => []
         end ++ body'.
Proof.
  unfold visit_program, bind. intros H.
  pose proof (keeps_mapM template_declarator_node
                (visit_stmt global_property_names isPure generateUidIdentifier
                   template_declarator_node (program_scope p)
                   [program_scope p])
                (program_body p)) as Hk.
  assert (Hall : Forall
            (fun x => keeps_one_getter template_declarator_node
               (visit_stmt global_property_names isPure generateUidIdentifier
                  template_declarator_node (program_scope p)
                  [program_scope p] x)) (program_body p)).
  { apply Forall_forall. intros st _.
    apply (keeps_visit global_property_names isPure generateUidIdentifier
             template_declarator_node (program_scope p)). }
  specialize (Hk Hall (mkState hoisted None []) eq_refl).
  destruct (mapM _ (program_body p) (mkState hoisted None []))
    as [body' s1|e s1]; [|discriminate].
  inversion H; subst. simpl.
  exists body', s1. split; [reflexivity|].
  unfold one_getter in Hk. now rewrite Hk.
Qed.


(** ** Hoisting stays inside the block *)

Lemma mapO_Forall2 {A B : Type} (f : A -> option B) (l : list A) :
  forall l', mapO f l = Some l' -> Forall2 (fun a b => f a = Some b) l l'.
Proof.
  induction l as [|a l IH]; simpl; intros l' H.
  - inversion H. constructor.
  - destruct (f a) as [b|] eqn:Ha; [|discriminate].
    destruct (mapO f l) as [bs|] eqn:Hl; [|discriminate].
    inversion H; subst. constructor; auto.
Qed.

Lemma Forall2_mapO {A B : Type} (f : A -> option B) (l : list A) (l' : list B) :
  Forall2 (fun a b => f a = Some b) l l' -> mapO f l = Some l'.
Proof.
  induction 1 as [|a b l l' Hab Hl IH]; simpl.
  - reflexivity.
  - now rewrite Hab, IH.
Qed.

Lemma mapO_app {A B : Type} (f : A -> option B) (l1 l2 : list A)
    (r1 r2 : list B) :
  mapO f l1 = Some r1 -> mapO f l2 = Some r2 ->
  mapO f (l1 ++ l2) = Some (r1 ++ r2).
Proof.
  intros H1 H2. apply Forall2_mapO. apply Forall2_app; now apply mapO_Forall2.
Qed.

Lemma mapO_flat_map {A B : Type} (f : B -> option B) (g : A -> list B)
    (l l' : list A) :
  Forall2 (fun a a' => mapO f (g a) = Some (g a')) l l' ->
  mapO f (flat_map g l) = Some (flat_map g l').
Proof.
  induction 1 as [|a a' l l' Ha Hl IH]; simpl.
  - reflexivity.
  - now apply mapO_app.
Qed.

Lemma Forall2_Forall_impl {A B : Type} (P : A -> Prop) (R Q : A -> B -> Prop)
    (l : list A) (l' : list B) :
  Forall P l ->
  (forall a b, P a -> R a b -> Q a b) ->
  Forall2 R l l' -> Forall2 Q l l'.
Proof.
  intros HP Himp H. induction H as [|a b l l' Hab Hl IH].
  - constructor.
  - inversion HP; subst. constructor; auto.
Qed.

Section PostBlocks.
Variable getter : option string.
Variable hoisted : list nat.

Local Abbreviation post_e := (post_expr getter hoisted).
Local Abbreviation post_s := (post_stmt getter hoisted).
Local Abbreviation post_d := (post_declarator getter hoisted).
Local Abbreviation post_b := (post_block getter hoisted).

Lemma blocks_post_expr :
  forall e e1, post_e e = Some e1 ->
               mapO post_b (blocks_expr e) = Some (blocks_expr e1).
Proof.
  apply (expr_ast_ind
    (fun e => forall e1, post_e e = Some e1 ->
                         mapO post_b (blocks_expr e) = Some (blocks_expr e1))
    (fun _ => True) (fun _ => True) (fun _ => True)); auto;
    try (intros; post_parts H; reflexivity).
  - intros callee args IHc IHa e1 H. post_parts H. simpl.
    apply mapO_app; [now apply IHc|].
    apply mapO_flat_map.
    eapply Forall2_Forall_impl; [exact IHa| |apply mapO_Forall2; eassumption].
    intros a b Hp Hab. now apply Hp.
  - intros object property computed IHo IHp e1 H. post_parts H. simpl.
    apply mapO_app; auto.
  - intros lhs rhs IH e1 H. post_parts H. simpl. auto.
  - intros ps b _ e1 H. post_parts H. simpl.
    now rewrite E.
  - intros ps f body IH e1 H. post_parts H. simpl. auto.
  - intros e t IH e1 H. post_parts H. simpl. auto.
Qed.

Lemma blocks_post_stmt (s s1 : stmt) :
  post_s s = Some s1 ->
  mapO post_b (blocks_stmt s) = Some (blocks_stmt s1).
Proof.
  destruct s as [e|kind ds|b|test c a|id ps b|[e|]|]; intros H.
  - post_parts H. simpl. now apply blocks_post_expr.
  - post_parts H. simpl. apply mapO_flat_map.
    eapply Forall2_impl; [|apply mapO_Forall2; eassumption].
    intros [n x [e|]] d1 Hd; post_parts Hd; simpl;
      [now apply blocks_post_expr | reflexivity].
  - post_parts H. simpl. now rewrite E.
  - destruct a as [b|]; post_parts H; simpl.
    + destruct (post_b b) as [b1|] eqn:E2; [|discriminate].
      simpl in E1. inversion E1; subst.
      apply mapO_app; [now apply blocks_post_expr|]. simpl.
      now rewrite E0, E2.
    + apply mapO_app; [now apply blocks_post_expr|]. simpl.
      now rewrite E0.
  - post_parts H. simpl. now rewrite E.
  - post_parts H. simpl. now apply blocks_post_expr.
  - post_parts H. reflexivity.
  - post_parts H. reflexivity.
Qed.

Lemma visitBlock_Permutation (l l' : list stmt) :
  visitBlock getter hoisted l = Done l' -> Permutation l' l.
Proof.
  intros H. apply visitBlock_returns in H. destruct H as [Hg ->].
  now apply grouped_Permutation.
Qed.

Lemma hoisted_block_Permutation (l l' : list stmt) :
  hoisted_block getter hoisted l = Some l' -> Permutation l' l.
Proof.
  unfold hoisted_block. intros H.
  destruct (visitBlock getter hoisted l) as [l0|f] eqn:E; [|discriminate].
  inversion H; subst. now apply visitBlock_Permutation.
Qed.

Lemma post_statements_blocks (l l' : list stmt) :
  post_statements getter hoisted l = Some l' ->
  exists bs,
    mapO post_b (flat_map blocks_stmt l) = Some bs
    /\ Permutation (flat_map blocks_stmt l') bs.
Proof.
  unfold post_statements. intros H.
  destruct (mapO post_s l) as [l1|] eqn:E; [|discriminate].
  exists (flat_map blocks_stmt l1). split.
  - apply mapO_flat_map.
    eapply Forall2_impl; [|apply mapO_Forall2; exact E].
    intros s s1. apply blocks_post_stmt.
  - apply Permutation_flat_map. now apply hoisted_block_Permutation.
Qed.

End PostBlocks.

(** C5.  Hoisting in a block moves nothing into or out of the block
    statements nested in it: when [visitBlock] returns, the hoisted block
    holds the statements the block held, each as it was, so the nested
    blocks are the nested blocks it had with the statements they had; and
    over the whole pass each nested block is hoisted on its own.  This
    rests on the blacklist of the walk: without it, the call in the body
    of [if (c) { _getJestObj().mock("x"); }] is moved out of the [if].
    With it, in [if (c) { jest.mock("x"); }] the rewritten call stays in
    the body of the [if]. *)
Theorem hoisting_is_block_local :
  (forall (getter : option string) (hoisted : list nat)
          (statements hoisted_statements : list stmt),
      visitBlock getter hoisted statements = Done hoisted_statements ->
      Permutation hoisted_statements statements
      /\ Permutation (flat_map blocks_stmt hoisted_statements)
                     (flat_map blocks_stmt statements))
  /\ (forall (getter : option string) (hoisted : list nat)
             (statements hoisted_statements : list stmt),
         post_statements getter hoisted statements = Some hoisted_statements ->
         exists blocks,
           mapO (post_block getter hoisted) (flat_map blocks_stmt statements)
           = Some blocks
           /\ Permutation (flat_map blocks_stmt hoisted_statements) blocks)
  /\ (let guarded body :=
        IfStatement (Identifier "c") (Block (mkFrame [] []) body) None in
      visitBlock_with (Some "_getJestObj") [] []
        [guarded [Cases.mock_x_rewritten]]
      = Done [Cases.mock_x_rewritten; guarded []]
      /\ visitBlock (Some "_getJestObj") [] [guarded [Cases.mock_x_rewritten]]
         = Done [guarded [Cases.mock_x_rewritten]])
  /\ transform Sample.global_property_names Sample.isPure
       Sample.generateUidIdentifier Sample.template_declarator_node
       Sample.guarded_mock Sample.initial
     = Return
         (mkProgram Sample.globals_only
            [createJestObjectGetter Sample.template_declarator_node
               "_getJestObj";
             IfStatement (Identifier "c")
               (Block (mkFrame [] [])
                  [ExpressionStatement
                     (Sample.method Sample.getJestObj "mock"
                        [StringLiteral "x"])])
               None])
         (mkState [] (Some "_getJestObj") []).
Proof.
  split; [|split; [|split]].
  - intros getter hoisted l l' H.
    pose proof (visitBlock_Permutation getter hoisted l l' H) as P.
    split; [exact P | now apply Permutation_flat_map].
  - intros. now apply post_statements_blocks.
  - split; reflexivity.
  - reflexivity.
Qed.

(** ** Statements the detector leaves alone *)

Lemma mapM_unchanged {A : Type} (f : A -> M A) (l : list A) (s : state) :
  Forall (fun x => f x s = Return x s) l ->
  mapM f l s = Return l s.
Proof.
  induction 1 as [|x l Hx Hl IH]; simpl.
  - reflexivity.
  - unfold bind. rewrite Hx.
    change ((fix go (l0 : list A) : M (list A) :=
               match l0 with
               | [] => ret []
               | a :: l' => bind (f a) (fun b => bind (go l')
                                         (fun bs => ret (b :: bs)))
               end) l s) with (mapM f l s).
    rewrite IH. reflexivity.
Qed.

Lemma Forall_forallb {A : Type} (P : A -> Prop) (t : A -> bool) (l : list A) :
  Forall (fun x => t x = true -> P x) l ->
  forallb t l = true ->
  Forall P l.
Proof.
  induction 1 as [|x l Hx Hl IH]; simpl; intros H.
  - constructor.
  - apply andb_true_iff in H. destruct H as [H1 H2].
    constructor; auto.
Qed.

(** A statement the visitor rewrote is no longer detected: its receiver
    chain ends at the getter call. *)
Lemma rewritten_not_detected (scope : Scope) (id : string) :
  forall e,
    receiver_reaches_jest scope
      (replaceJestObjExpr scope (CallExpression (Identifier id) []) e)
    = false.
Proof.
  fix IH 1. intros e.
  destruct e as [| | | |callee args| | | | |]; try reflexivity.
  destruct callee as [| | | | |object property computed| | | |];
    try reflexivity.
  destruct computed; try reflexivity.
  simpl. destruct (isJestObject scope object) eqn:Hj.
  - reflexivity.
  - rewrite (IH object), orb_false_r.
    destruct object as [| | | |c a| | | | |]; try exact Hj.
    destruct c as [| | | | |o p [|]| | | |]; reflexivity.
Qed.

Lemma rewritten_inert (scope : Scope) (id : string) (e : expr) :
  inert scope (replaceJestObjExpr scope (CallExpression (Identifier id) []) e)
  = true.
Proof. apply unrelated_inert, rewritten_not_detected. Qed.

(** ** The plugin on the sample programs *)

Lemma four_statements_hoisted :
  Run.transform Sample.four_statements Sample.initial
  = Return Sample.four_statements_output
      (mkState [] (Some "_getJestObj") []).
Proof. reflexivity. Qed.

Lemma reads_const_hoisted :
  Run.transform Sample.reads_const Sample.initial
  = Return
      (mkProgram Sample.const_x
         [VariableDeclaration "const"
            [VariableDeclarator 7 (LIdentifier "x") (Some (NumericLiteral 1))];
          ExpressionStatement
            (Sample.method Sample.getJestObj "mock"
               [StringLiteral "m"; Sample.arrow (Identifier "x")]);
          createJestObjectGetter Sample.template_declarator_node
            "_getJestObj"])
      (mkState [7] (Some "_getJestObj") []).
Proof. reflexivity. Qed.

Lemma reads_reassigned_rejected :
  Run.transform Sample.reads_reassigned Sample.initial
  = Throw (Run.out_of_scope "x") (mkState [] None []).
Proof. reflexivity. Qed.

Lemma invalid_factory_rejected :
  Run.extract [Sample.globals_only] Sample.invalid_factory Sample.initial
  = Throw (TypeError (NumericLiteral 5) invalid_factory_message)
      Sample.initial.
Proof. reflexivity. Qed.

(** C3, as stated, fails.  In
    [const x = 1; function f() { jest.mock("m", () => x); }] the
    identifier [x] of the factory resolves, through the scope of the body
    of [f], to the constant declarator of the program with its pure
    initializer; the check looks at the bindings of the call's own scope
    only, finds none and raises. *)
Lemma outer_constant_rejected :
  let scope := [Sample.body_of_f; Sample.const_x_and_f] in
  found_before_parent (id_scopes Sample.x_in_factory) "x" = false
  /\ allowed_by_name Sample.global_property_names scope "x" = false
  /\ getBinding scope "x"
     = Some (mkBinding (VariableDeclaratorPath 7 true) true)
  /\ Sample.isPure scope 7 = true
  /\ own_binding scope "x" = None
  /\ check_id Sample.global_property_names Sample.isPure scope
       Sample.x_in_factory Sample.initial
     = Throw (Run.out_of_scope "x") Sample.initial
  /\ Run.transform Sample.reads_outer_const Sample.initial
     = Throw (Run.out_of_scope "x") (mkState [] None [])
  /\ ~ (forall parentScope id s node b,
          found_before_parent (id_scopes id) (id_name id) = false ->
          allowed_by_name Sample.global_property_names parentScope
            (id_name id) = false ->
          getBinding parentScope (id_name id) = Some b ->
          path b = VariableDeclaratorPath node true ->
          constant b = true ->
          Sample.isPure parentScope node = true ->
          exists s',
            check_id Sample.global_property_names Sample.isPure parentScope
              id s = Return tt s').
Proof.
  repeat split.
  intros H.
  destruct (H [Sample.body_of_f; Sample.const_x_and_f] Sample.x_in_factory
              Sample.initial 7
              (mkBinding (VariableDeclaratorPath 7 true) true)
              eq_refl eq_refl eq_refl eq_refl eq_refl eq_refl) as [s' Hs'].
  discriminate.
Qed.

(** A second application can also move declarations.  In
    [const x = 1; const y = 2; jest.mock("a", () => y).resetModules();
    jest.mock("b", () => x);] the first statement on [jest] is left in
    place once its factory marked [y]; applied to the output, the plugin
    marks [y] again, and [y] alone, and hoists it above [x]. *)
Lemma second_application_reorders :
  Run.transform Sample.marks_in_leftover Sample.initial
  = Return Sample.marks_in_leftover_output
      (mkState [7; 8] (Some "_getJestObj") [])
  /\ Run.transform Sample.marks_in_leftover_output Sample.initial
     = Return
         (mkProgram Sample.const_x_y
            [Sample.declare_y; Sample.declare_x;
             ExpressionStatement
               (Sample.method Sample.getJestObj "mock"
                  [StringLiteral "b"; Sample.arrow (Identifier "x")]);
             createJestObjectGetter Sample.template_declarator_node
               "_getJestObj";
             Sample.reset_reading_y])
         (mkState [8] None []).
Proof. split; reflexivity. Qed.

(** A call of a method without a rule stays a call on [jest]. *)
Lemma with_timers_hoisted :
  Run.transform Sample.with_timers Sample.initial
  = Return Sample.with_timers_output (mkState [] (Some "_getJestObj") [])
  /\ Run.transform Sample.with_timers_output Sample.initial
     = Return Sample.with_timers_output Sample.initial.
Proof. split; reflexivity. Qed.

(** The chain [jest.mock("a", () => 1).resetModules()] is left in place
    too, and a second application leaves it alone. *)
Lemma with_reset_hoisted :
  Run.transform Sample.with_reset Sample.initial
  = Return Sample.with_reset_output (mkState [] (Some "_getJestObj") [])
  /\ Run.transform Sample.with_reset_output Sample.initial
     = Return Sample.with_reset_output Sample.initial.
Proof. split; reflexivity. Qed.

(** Of these programs the first is steady, the other two are not. *)
Lemma steady_samples :
  steady Sample.global_property_names Sample.isPure Sample.with_reset = true
  /\ steady Sample.global_property_names Sample.isPure
       Sample.partly_valid_chain = false
  /\ steady Sample.global_property_names Sample.isPure
       Sample.marks_in_leftover = false.
Proof. repeat split. Qed.

(** Where the hoister raises.  A marked declarator of a declaration of
    two: [varDecl.remove()] leaves [varDecl.node] null for
    [variableDeclaration].  A statement with two calls of the getter: the
    second call finds its statement removed. *)
Lemma two_declarators_raise :
  visitBlock (Some "_getJestObj") [7] (program_body Sample.two_declarators)
  = Raised NullDeclarator
  /\ Run.transform Sample.two_declarators Sample.initial
     = Throw HoisterError (mkState [7] (Some "_getJestObj") []).
Proof. split; reflexivity. Qed.

Lemma two_getter_calls_raise :
  visitBlock (Some "_getJestObj") []
    [ExpressionStatement
       (Sample.method Sample.getJestObj "mock" [Sample.getJestObj])]
  = Raised NoStatementParent.
Proof. reflexivity. Qed.

(** C4, on the code.  With two arguments [FUNCTIONS.mock] looks at the
    factory only: whatever the first argument is, the call is accepted, here
    with an identifier as module path, which the one-argument form
    rejects. *)
Theorem mock_factory_first_argument_unchecked :
  (forall (global_property_names : list string)
          (isPure : Scope -> nat -> bool) (parentScope : Scope) (a0 : expr)
          (s : state),
      FUNCTIONS_mock global_property_names isPure parentScope
        [a0; Sample.arrow (NumericLiteral 1)] s
      = Return true s)
  /\ isLiteral (Identifier "moduleName") = false
  /\ Run.extract [Sample.globals_only] Sample.variable_path Sample.initial
     = Return (Some Sample.jest) Sample.initial
  /\ Run.extract [Sample.globals_only]
       (Sample.method Sample.jest "mock" [Identifier "moduleName"])
       Sample.initial
     = Return None Sample.initial.
Proof. repeat split. Qed.

(** C9, as stated, fails.  The plugin leaves the outer call of
    [jest.mock("n", function () { jest.mock("k"); }).unmock(5)] in place and
    rewrites the inner statement; applied to that output it validates the
    factory again, meets the getter's name in it and raises. *)
Lemma second_application_raises :
  Run.transform Sample.partly_valid_chain Sample.initial
  = Return Sample.partly_valid_output (mkState [] (Some "_getJestObj") [])
  /\ Run.transform Sample.partly_valid_output Sample.initial
     = Throw (Run.out_of_scope "_getJestObj") (mkState [] None [])
  /\ Run.transform Sample.partly_valid_output_parsed Sample.initial
     = Throw (Run.out_of_scope "_getJestObj") (mkState [] None [])
  /\ ~ (forall p out s,
          Run.transform p Sample.initial = Return out s ->
          exists s', Run.transform out Sample.initial = Return out s').
Proof.
  assert (H1 : Run.transform Sample.partly_valid_chain Sample.initial
               = Return Sample.partly_valid_output
                   (mkState [] (Some "_getJestObj") []))
    by reflexivity.
  assert (H2 : Run.transform Sample.partly_valid_output Sample.initial
               = Throw (Run.out_of_scope "_getJestObj") (mkState [] None []))
    by reflexivity.
  repeat split; try assumption; try reflexivity.
  intros H. destruct (H _ _ _ H1) as [s' Hs'].
  rewrite H2 in Hs'. discriminate.
Qed.

(** * Further properties of the plugin *)

(** ** The detector's answers *)

Section DetectorAnswers.
Variable global_property_names : list string.
Variable isPure : Scope -> nat -> bool.

Local Abbreviation extract :=
  (extractJestObjExprIfHoistable global_property_names isPure).
Local Abbreviation rule := (call_FUNCTIONS global_property_names isPure).

Lemma extract_on_jest (scope : Scope) (object property : expr)
    (args : list expr) (s : state) :
  isJestObject scope object = true ->
  extract scope (CallExpression (MemberExpression object property false) args) s
  = (functionLooksHoistable <- rule scope property args ;;
     ret (if functionLooksHoistable : bool then Some object else None)) s.
Proof.
  intros H. rewrite extract_call_member. unfold resolve_receiver.
  rewrite H. reflexivity.
Qed.

Lemma extract_root (scope : Scope) :
  forall (e j : expr) (s s' : state),
    extract scope e s = Return (Some j) s' ->
    isJestObject scope j = true
    /\ receiver_reaches_jest scope e = true
    /\ replaceJestObjExpr scope j e = e.
Proof.
  fix IH 1. intros e j s s' H.
  destruct e as [| | | |callee args| | | | |]; try discriminate.
  destruct callee as [| | | | |object property computed| | | |];
    try discriminate.
  destruct computed; try discriminate.
  rewrite extract_call_member in H. unfold resolve_receiver, bind in H.
  simpl. destruct (isJestObject scope object) eqn:Hj.
  - simpl in H.
    destruct (rule scope property args s) as [[|] s1|err s1];
      try discriminate.
    inversion H; subst. auto.
  - destruct (extract scope object s) as [[j'|] s1|err s1] eqn:Ho;
      try discriminate.
    destruct (IH object j' s s1 Ho) as (H1 & H2 & H3).
    destruct (rule scope property args s1) as [[|] s2|err s2];
      try discriminate.
    inversion H; subst. rewrite H2, H3. auto.
Qed.

Lemma FUNCTIONS_rule_names (name : string)
    (f : Scope -> list expr -> M bool) :
  FUNCTIONS global_property_names isPure name = Some f ->
  In name rule_names.
Proof.
  unfold FUNCTIONS, rule_names.
  destruct (String.eqb name "mock") eqn:E1;
    [apply String.eqb_eq in E1; subst; simpl; auto|].
  destruct (String.eqb name "unmock") eqn:E2;
    [apply String.eqb_eq in E2; subst; simpl; auto|].
  destruct (String.eqb name "deepUnmock") eqn:E3;
    [apply String.eqb_eq in E3; subst; simpl; auto|].
  destruct (String.eqb name "disableAutomock") eqn:E4;
    [apply String.eqb_eq in E4; subst; simpl; auto|].
  destruct (String.eqb name "enableAutomock") eqn:E5;
    [apply String.eqb_eq in E5; subst; simpl; auto 6|].
  discriminate.
Qed.

Lemma rule_accepts_named (scope : Scope) (property : expr)
    (args : list expr) (s s' : state) :
  rule scope property args s = Return true s' ->
  exists name, property = Identifier name /\ In name rule_names.
Proof.
  unfold call_FUNCTIONS. intros H.
  destruct property as [name| | | | | | | | |]; try discriminate.
  simpl in H.
  destruct (FUNCTIONS global_property_names isPure name) as [f|] eqn:Hf;
    [|discriminate].
  exists name. split; [reflexivity|]. now apply FUNCTIONS_rule_names in Hf.
Qed.

Lemma extract_chain_properties (scope : Scope) :
  forall (e j : expr) (s s' : state),
    extract scope e s = Return (Some j) s' ->
    Forall (fun property =>
              exists name, property = Identifier name /\ In name rule_names)
           (chain_properties scope e).
Proof.
  fix IH 1. intros e j s s' H.
  destruct e as [| | | |callee args| | | | |]; try discriminate.
  destruct callee as [| | | | |object property computed| | | |];
    try discriminate.
  destruct computed; try discriminate.
  rewrite extract_call_member in H. unfold resolve_receiver, bind in H.
  simpl. destruct (isJestObject scope object) eqn:Hj.
  - simpl in H.
    destruct (rule scope property args s) as [[|] s1|err s1] eqn:Hr;
      try discriminate.
    constructor; [|constructor]. now apply rule_accepts_named in Hr.
  - destruct (extract scope object s) as [[j'|] s1|err s1] eqn:Ho;
      try discriminate.
    destruct (rule scope property args s1) as [[|] s2|err s2] eqn:Hr;
      try discriminate.
    constructor.
    + now apply rule_accepts_named in Hr.
    + apply (IH object j' s s1 Ho).
Qed.

End DetectorAnswers.

(** X6.  What the detector returns is a reference to the jest object, and
    it is the node at the root of the receiver chain, the one the visitor
    replaces: putting it back in its own place gives the expression
    again. *)
Theorem detected_node_is_jest_root (global_property_names : list string)
    (isPure : Scope -> nat -> bool) (scope : Scope) (e j : expr)
    (s s' : state) :
  extractJestObjExprIfHoistable global_property_names isPure scope e s
  = Return (Some j) s' ->
  isJestObject scope j = true
  /\ receiver_reaches_jest scope e = true
  /\ replaceJestObjExpr scope j e = e.
Proof. apply extract_root. Qed.

(** X7.  A chain is accepted only when every method called along it, down
    to the call on the jest object, is a non-computed identifier that has a
    rule: [mock], [unmock], [deepUnmock], [disableAutomock] or
    [enableAutomock]. *)
Theorem accepted_chain_uses_rules (global_property_names : list string)
    (isPure : Scope -> nat -> bool) (scope : Scope) (e j : expr)
    (s s' : state) :
  extractJestObjExprIfHoistable global_property_names isPure scope e s
  = Return (Some j) s' ->
  Forall (fun property =>
            exists name, property = Identifier name /\ In name rule_names)
         (chain_properties scope e).
Proof. apply extract_chain_properties. Qed.

(** ** The rules on the arguments *)

Section Rules.
Variable global_property_names : list string.
Variable isPure : Scope -> nat -> bool.

Local Abbreviation extract :=
  (extractJestObjExprIfHoistable global_property_names isPure).

Lemma single_string_literal (args : list expr) :
  match args with [a] => isStringLiteral a | _ => false end = true <->
  exists value, args = [StringLiteral value].
Proof.
  split.
  - destruct args as [|a [|b rest]]; try discriminate.
    destruct a; try discriminate. eauto.
  - intros [value ->]. reflexivity.
Qed.

(** X8.  On the jest object, [unmock] and [deepUnmock] are accepted
    exactly with one argument that is a string literal; with anything else
    the call is left alone, and in both cases nothing is raised and the
    state is not touched. *)
Theorem unmock_takes_one_string (scope : Scope) (object : expr)
    (name : string) (args : list expr) (s : state) :
  isJestObject scope object = true ->
  name = "unmock" \/ name = "deepUnmock" ->
  (exists r,
      extract scope
        (CallExpression (MemberExpression object (Identifier name) false) args)
        s = Return r s)
  /\ (extract scope
        (CallExpression (MemberExpression object (Identifier name) false) args)
        s = Return (Some object) s
      <-> exists value, args = [StringLiteral value]).
Proof.
  intros Hj Hname.
  assert (H : extract scope
                (CallExpression
                   (MemberExpression object (Identifier name) false) args) s
              = Return (if match args with
                           | [a] => isStringLiteral a
                           | _ => false
                           end then Some object else None) s).
  { rewrite extract_on_jest by exact Hj.
    destruct Hname as [-> | ->]; reflexivity. }
  rewrite H. split; [eauto|].
  rewrite <- single_string_literal.
  destruct (match args with [a] => isStringLiteral a | _ => false end);
    split; intros E; try reflexivity; try discriminate.
Qed.

(** X9.  On the jest object, [disableAutomock] and [enableAutomock] are
    accepted exactly without arguments; nothing is raised and the state is
    not touched. *)
Theorem automock_takes_no_argument (scope : Scope) (object : expr)
    (name : string) (args : list expr) (s : state) :
  isJestObject scope object = true ->
  name = "disableAutomock" \/ name = "enableAutomock" ->
  (exists r,
      extract scope
        (CallExpression (MemberExpression object (Identifier name) false) args)
        s = Return r s)
  /\ (extract scope
        (CallExpression (MemberExpression object (Identifier name) false) args)
        s = Return (Some object) s
      <-> args = []).
Proof.
  intros Hj Hname.
  assert (H : extract scope
                (CallExpression
                   (MemberExpression object (Identifier name) false) args) s
              = Return (match args with
                        | [] => Some object
                        | _ => None
                        end) s).
  { rewrite extract_on_jest by exact Hj.
    destruct Hname as [-> | ->]; destruct args; reflexivity. }
  rewrite H. split; [eauto|].
  destruct args; split; intros E; try reflexivity; discriminate.
Qed.

(** X10.  On the jest object, [mock] without arguments or with more than
    three is left alone without an error, whatever its second argument is;
    with one argument it is accepted exactly when the argument is a
    literal. *)
Theorem mock_argument_count (scope : Scope) (object : expr)
    (args : list expr) (s : state) :
  isJestObject scope object = true ->
  (length args = 0 \/ 4 <= length args ->
   extract scope
     (CallExpression (MemberExpression object (Identifier "mock") false) args)
     s = Return None s)
  /\ (forall a,
        args = [a] ->
        extract scope
          (CallExpression
             (MemberExpression object (Identifier "mock") false) args)
          s = Return (if isLiteral a then Some object else None) s).
Proof.
  intros Hj. split.
  - intros Hlen. rewrite extract_on_jest by exact Hj.
    destruct args as [|a0 [|a1 [|a2 [|a3 rest]]]]; simpl in Hlen;
      try reflexivity; lia.
  - intros a ->. rewrite extract_on_jest by exact Hj.
    destruct a; reflexivity.
Qed.

End Rules.

(** ** The identifier loop *)

Section IdentifierLoop.
Variable global_property_names : list string.
Variable isPure : Scope -> nat -> bool.

Local Abbreviation check := (check_id global_property_names isPure).
Local Abbreviation loop := (for_each_id global_property_names isPure).
Local Abbreviation accepted' := (accepted global_property_names isPure).
Local Abbreviation mark_of' := (mark_of global_property_names isPure).

Lemma check_id_accepted (parentScope : Scope) (id : IdPath) (s : state) :
  accepted' parentScope id = true ->
  check parentScope id s = Return tt (mark_all (mark_of' parentScope id) s).
Proof.
  unfold accepted, mark_of, check_id.
  destruct (found_before_parent (id_scopes id) (id_name id));
    [reflexivity|].
  destruct (allowed_by_name global_property_names parentScope (id_name id));
    [reflexivity|].
  simpl.
  destruct (hoistable_binding isPure parentScope (id_name id));
    [reflexivity | discriminate].
Qed.

Lemma check_id_rejected (parentScope : Scope) (id : IdPath) (s : state) :
  accepted' parentScope id = false ->
  check parentScope id s
  = Throw (ReferenceError (Identifier (id_name id))
             (out_of_scope_message global_property_names (id_name id))) s.
Proof.
  unfold accepted, check_id.
  destruct (found_before_parent (id_scopes id) (id_name id));
    [discriminate|].
  destruct (allowed_by_name global_property_names parentScope (id_name id));
    [discriminate|].
  simpl.
  destruct (hoistable_binding isPure parentScope (id_name id));
    [discriminate | reflexivity].
Qed.

Lemma mark_all_app (l1 l2 : list nat) (s : state) :
  mark_all (l1 ++ l2) s = mark_all l2 (mark_all l1 s).
Proof. unfold mark_all. apply fold_left_app. Qed.

Lemma loop_accepted (parentScope : Scope) (ids : list IdPath) :
  forall s,
    forallb (accepted' parentScope) ids = true ->
    loop parentScope ids s
    = Return tt (mark_all (flat_map (mark_of' parentScope) ids) s).
Proof.
  induction ids as [|id ids IH]; intros s H; simpl.
  - reflexivity.
  - simpl in H. apply andb_true_iff in H. destruct H as [Hid Hids].
    unfold bind. rewrite (check_id_accepted parentScope id s Hid).
    rewrite (IH _ Hids). now rewrite mark_all_app.
Qed.

Lemma loop_rejected (parentScope : Scope) (before : list IdPath)
    (id : IdPath) (after : list IdPath) :
  forall s,
    forallb (accepted' parentScope) before = true ->
    accepted' parentScope id = false ->
    loop parentScope (before ++ id :: after) s
    = Throw (ReferenceError (Identifier (id_name id))
               (out_of_scope_message global_property_names (id_name id)))
        (mark_all (flat_map (mark_of' parentScope) before) s).
Proof.
  induction before as [|b before IH]; intros s Hb Hid; simpl.
  - unfold bind. now rewrite (check_id_rejected parentScope id s Hid).
  - simpl in Hb. apply andb_true_iff in Hb. destruct Hb as [H1 H2].
    unfold bind. rewrite (check_id_accepted parentScope b s H1).
    rewrite (IH _ H2 Hid). now rewrite mark_all_app.
Qed.

(** X11.  Whether the identifier loop accepts a factory does not depend on
    the declarators marked so far: it returns exactly when every identifier
    is locally bound, allowed by name or bound to a hoistable constant, and
    it then has marked the declarators of the last kind, in traversal
    order. *)
Theorem factory_accepted_iff (parentScope : Scope) (ids : list IdPath)
    (s : state) :
  (forallb (accepted' parentScope) ids = true ->
   loop parentScope ids s
   = Return tt (mark_all (flat_map (mark_of' parentScope) ids) s))
  /\ ((exists s', loop parentScope ids s = Return tt s') <->
      forallb (accepted' parentScope) ids = true).
Proof.
  split; [apply loop_accepted|]. split.
  - intros [s' H].
    destruct (forallb (accepted' parentScope) ids) eqn:Hall; [reflexivity|].
    exfalso. revert s H. induction ids as [|id ids IH]; intros s H.
    + discriminate.
    + simpl in Hall. simpl in H. unfold bind in H.
      destruct (accepted' parentScope id) eqn:Hid.
      * rewrite (check_id_accepted parentScope id s Hid) in H.
        simpl in Hall. now apply (IH Hall _ H).
      * rewrite (check_id_rejected parentScope id s Hid) in H. discriminate.
  - intros H. eexists. now apply loop_accepted.
Qed.

(** X12.  The loop stops at the first identifier it rejects, in traversal
    order: the error names that identifier, the declarators marked for the
    identifiers before it stay marked, and the identifiers after it are not
    looked at. *)
Theorem first_rejected_identifier (parentScope : Scope)
    (before : list IdPath) (id : IdPath) (after : list IdPath) (s : state) :
  forallb (accepted' parentScope) before = true ->
  accepted' parentScope id = false ->
  loop parentScope (before ++ id :: after) s
  = Throw (ReferenceError (Identifier (id_name id))
             (out_of_scope_message global_property_names (id_name id)))
      (mark_all (flat_map (mark_of' parentScope) before) s).
Proof. apply loop_rejected. Qed.

End IdentifierLoop.

(** ** What a run keeps in the state *)

Section Respects.
Variable global_property_names : list string.
Variable isPure : Scope -> nat -> bool.
Variable generateUidIdentifier : ScopeFrame -> string -> string.
Variable template_declarator_node : nat.
Variable program : ScopeFrame.
Variable R : state -> state -> Prop.
(** The scopes in which marking a declarator is known to keep [R]. *)
Variable ok : Scope -> Prop.
Hypothesis R_refl : forall s, R s s.
Hypothesis R_trans : forall s1 s2 s3, R s1 s2 -> R s2 s3 -> R s1 s3.
Hypothesis R_marked :
  forall scope name node s,
    ok scope ->
    hoistable_binding isPure scope name = Some node -> R s (marked node s).
Hypothesis R_declare :
  respects R (declareJestObjGetterIdentifier generateUidIdentifier
                template_declarator_node program).

Lemma respects_ret {A : Type} (a : A) : respects R (ret a).
Proof. intros s. apply R_refl. Qed.

Lemma respects_throw {A : Type} (e : error) : respects R (@throw A e).
Proof. intros s. apply R_refl. Qed.

Lemma respects_bind {A B : Type} (m : M A) (k : A -> M B) :
  respects R m -> (forall a, respects R (k a)) -> respects R (bind m k).
Proof.
  intros Hm Hk s. unfold bind. specialize (Hm s).
  destruct (m s) as [a s1|e s1]; [|exact Hm].
  specialize (Hk a s1).
  destruct (k a s1) as [b s2|e s2]; eapply R_trans; eauto.
Qed.

Lemma respects_mapM {A B : Type} (f : A -> M B) (l : list A) :
  Forall (fun x => respects R (f x)) l -> respects R (mapM f l).
Proof.
  induction 1 as [|x l Hx Hl IH]; simpl.
  - apply respects_ret.
  - apply respects_bind; [exact Hx|]. intros b.
    apply respects_bind; [exact IH|]. intros bs. apply respects_ret.
Qed.

Lemma respects_check_id (parentScope : Scope) (id : IdPath) :
  ok parentScope ->
  respects R (check_id global_property_names isPure parentScope id).
Proof.
  intros Hok. unfold check_id.
  destruct (found_before_parent (id_scopes id) (id_name id));
    [apply respects_ret|].
  destruct (allowed_by_name global_property_names parentScope (id_name id));
    [apply respects_ret|].
  destruct (hoistable_binding isPure parentScope (id_name id)) eqn:Hh;
    [|apply respects_throw].
  intros s. eapply R_marked; [exact Hok | exact Hh].
Qed.

Lemma respects_for_each_id (parentScope : Scope) (ids : list IdPath) :
  ok parentScope ->
  respects R (for_each_id global_property_names isPure parentScope ids).
Proof.
  intros Hok. induction ids as [|id ids IH]; simpl; [apply respects_ret|].
  apply respects_bind; [now apply respects_check_id | intros _; exact IH].
Qed.

Lemma respects_call_FUNCTIONS (scope : Scope) (property : expr)
    (args : list expr) :
  ok scope ->
  respects R (call_FUNCTIONS global_property_names isPure scope property args).
Proof.
  intros Hok. unfold call_FUNCTIONS.
  destruct (property_name property) as [name|]; [|apply respects_ret].
  unfold FUNCTIONS.
  destruct (String.eqb name "mock").
  - unfold FUNCTIONS_mock.
    destruct args as [|a0 [|a1 [|a2 [|a3 rest]]]]; try apply respects_ret;
      (destruct (negb (isFunction a1)); [apply respects_throw|];
       apply respects_bind;
       [now apply respects_for_each_id | intros; apply respects_ret]).
  - repeat match goal with
           | |- context [if ?c then _ else _] => destruct c
           end; apply respects_ret.
Qed.

Lemma respects_extract (scope : Scope) :
  ok scope ->
  forall e,
    respects R
      (extractJestObjExprIfHoistable global_property_names isPure scope e).
Proof.
  intros Hok. fix IH 1. intros e.
  destruct e as [| | | |callee args| | | | |]; try apply respects_ret.
  destruct callee as [| | | | |object property computed| | | |];
    try apply respects_ret.
  destruct computed; try apply respects_ret.
  rewrite extract_call_member. apply respects_bind.
  - unfold resolve_receiver.
    destruct (isJestObject scope object); [apply respects_ret | apply IH].
  - intros [j|]; [|apply respects_ret].
    apply respects_bind;
      [now apply respects_call_FUNCTIONS | intros b; apply respects_ret].
Qed.

Lemma Forall_flat_map_each {A B : Type} (P : B -> Prop) (Q : A -> Prop)
    (g : A -> list B) (l : list A) :
  Forall (fun a => Forall P (g a) -> Q a) l ->
  Forall P (flat_map g l) -> Forall Q l.
Proof.
  induction 1 as [|a l Ha Hl IH]; simpl; intros H.
  - constructor.
  - apply Forall_app in H. destruct H as [H1 H2]. constructor; auto.
Qed.

(** The visit of a tree keeps [R] when marking does in every scope in
    which the tree has an expression statement. *)
Lemma respects_visit_in :
  (forall e scope,
      Forall ok (scopes_expr scope e) ->
      respects R (visit_expr global_property_names isPure
                    generateUidIdentifier template_declarator_node program
                    scope e))
  /\ (forall st scope,
        Forall ok (scopes_stmt scope st) ->
        respects R (visit_stmt global_property_names isPure
                      generateUidIdentifier template_declarator_node program
                      scope st))
  /\ (forall d scope,
        Forall ok (scopes_declarator scope d) ->
        respects R (visit_declarator global_property_names isPure
                      generateUidIdentifier template_declarator_node program
                      scope d))
  /\ (forall b scope,
        Forall ok (scopes_block scope b) ->
        respects R (visit_block global_property_names isPure
                      generateUidIdentifier template_declarator_node program
                      scope b)).
Proof.
  apply ast_ind; try (intros; apply respects_ret).
  - intros callee args IHc IHa scope H. simpl in H.
    apply Forall_app in H. destruct H as [Hc Ha]. simpl.
    apply respects_bind; [now apply IHc|]. intros c.
    apply respects_bind; [|intros; apply respects_ret].
    apply respects_mapM.
    eapply (Forall_flat_map_each ok _ (scopes_expr scope)); [|exact Ha].
    eapply Forall_impl; [|exact IHa]. intros a Hp Hs. now apply Hp.
  - intros object property computed IHo IHp scope H. simpl in H.
    apply Forall_app in H. destruct H as [Ho Hp]. simpl.
    apply respects_bind; [now apply IHo|]. intros o.
    apply respects_bind; [now apply IHp|]. intros; apply respects_ret.
  - intros lhs rhs IH scope H. simpl in H. simpl.
    apply respects_bind; [now apply IH|]. intros; apply respects_ret.
  - intros ps b IH scope H. simpl in H. simpl.
    apply respects_bind; [now apply IH|]. intros; apply respects_ret.
  - intros ps f body IH scope H. simpl in H. simpl.
    apply respects_bind; [now apply IH|]. intros; apply respects_ret.
  - intros e t IH scope H. simpl in H. simpl.
    apply respects_bind; [now apply IH|]. intros; apply respects_ret.
  - intros e IH scope H. simpl in H. inversion H as [|x l Hok He]; subst.
    simpl.
    apply respects_bind; [now apply respects_extract|]. intros j.
    apply respects_bind.
    + destruct j; [|apply respects_ret].
      apply respects_bind; [apply R_declare | intros; apply respects_ret].
    + intros g. apply respects_bind;
        [now apply IH | intros; apply respects_ret].
  - intros kind ds IH scope H. simpl in H. simpl.
    apply respects_bind; [|intros; apply respects_ret].
    apply respects_mapM.
    eapply (Forall_flat_map_each ok _ (scopes_declarator scope)); [|exact H].
    eapply Forall_impl; [|exact IH]. intros a Hp Hs. now apply Hp.
  - intros b IH scope H. simpl in H. simpl.
    apply respects_bind; [now apply IH|]. intros; apply respects_ret.
  - intros test c a IHt IHc IHa scope H. simpl in H.
    apply Forall_app in H. destruct H as [Ht H].
    apply Forall_app in H. destruct H as [Hc Ha]. simpl.
    apply respects_bind; [now apply IHt|]. intros t'.
    apply respects_bind; [now apply IHc|]. intros c'.
    apply respects_bind; [|intros; apply respects_ret].
    destruct a as [b|]; [|apply respects_ret].
    apply respects_bind; [now apply (IHa b) | intros; apply respects_ret].
  - intros id ps b IH scope H. simpl in H. simpl.
    apply respects_bind; [now apply IH|]. intros; apply respects_ret.
  - intros [e|] IH scope H; [|apply respects_ret]. simpl in H. simpl.
    apply respects_bind; [now apply (IH e) | intros; apply respects_ret].
  - intros n x [e|] IH scope H; [|apply respects_ret]. simpl in H. simpl.
    apply respects_bind; [now apply (IH e) | intros; apply respects_ret].
  - intros f body IH scope H. simpl in H. simpl.
    apply respects_bind; [|intros; apply respects_ret].
    apply respects_mapM.
    eapply (Forall_flat_map_each ok _ (scopes_stmt (f :: scope))); [|exact H].
    eapply Forall_impl; [|exact IH]. intros a Hp Hs. now apply Hp.
Qed.

End Respects.

Lemma Forall_everywhere {A : Type} (l : list A) : Forall (fun _ => True) l.
Proof. induction l; constructor; auto. Qed.

(** The same when marking keeps [R] in every scope. *)
Lemma respects_visit (global_property_names : list string)
    (isPure : Scope -> nat -> bool)
    (generateUidIdentifier : ScopeFrame -> string -> string)
    (template_declarator_node : nat) (program : ScopeFrame)
    (R : state -> state -> Prop)
    (R_refl : forall s, R s s)
    (R_trans : forall s1 s2 s3, R s1 s2 -> R s2 s3 -> R s1 s3)
    (R_marked : forall scope name node s,
        hoistable_binding isPure scope name = Some node ->
        R s (marked node s))
    (R_declare :
       respects R (declareJestObjGetterIdentifier generateUidIdentifier
                     template_declarator_node program)) :
  (forall e scope,
      respects R (visit_expr global_property_names isPure
                    generateUidIdentifier template_declarator_node program
                    scope e))
  /\ (forall st scope,
        respects R (visit_stmt global_property_names isPure
                      generateUidIdentifier template_declarator_node program
                      scope st))
  /\ (forall d scope,
        respects R (visit_declarator global_property_names isPure
                      generateUidIdentifier template_declarator_node program
                      scope d))
  /\ (forall b scope,
        respects R (visit_block global_property_names isPure
                      generateUidIdentifier template_declarator_node program
                      scope b)).
Proof.
  destruct (respects_visit_in global_property_names isPure
              generateUidIdentifier template_declarator_node program R
              (fun _ => True) R_refl R_trans
              (fun scope name node s _ => R_marked scope name node s)
              R_declare) as (He & Hs & Hd & Hb).
  repeat split; intros;
    [apply He | apply Hs | apply Hd | apply Hb]; apply Forall_everywhere.
Qed.

Lemma has_add (node n : nat) (set : list nat) :
  has node set = true -> has node (add n set) = true.
Proof.
  intros H. unfold add. destruct (has n set); [exact H|].
  unfold has in *. simpl. now rewrite H, orb_true_r.
Qed.

Lemma has_add_same (n : nat) (set : list nat) : has n (add n set) = true.
Proof.
  unfold add. destruct (has n set) eqn:H; [exact H|].
  unfold has. simpl. now rewrite Nat.eqb_refl.
Qed.

Section RunKeeps.
Variable global_property_names : list string.
Variable isPure : Scope -> nat -> bool.
Variable generateUidIdentifier : ScopeFrame -> string -> string.
Variable template_declarator_node : nat.
Variable program : ScopeFrame.

Lemma visit_marks_kept :
  forall st scope,
    respects marks_kept
      (visit_stmt global_property_names isPure generateUidIdentifier
         template_declarator_node program scope st).
Proof.
  apply (respects_visit global_property_names isPure generateUidIdentifier
           template_declarator_node program marks_kept).
  - intros s node H. exact H.
  - intros s1 s2 s3 H12 H23 node H. auto.
  - intros scope0 name n s _ node H. simpl. now apply has_add.
  - intros s. unfold declareJestObjGetterIdentifier.
    destruct (jestObjGetterIdentifier s); intros node H; exact H.
Qed.

Lemma getter_kept_trans (s1 s2 s3 : state) :
  getter_kept s1 s2 -> getter_kept s2 s3 -> getter_kept s1 s3.
Proof.
  intros H12 H23 id Hid.
  destruct (H12 id Hid) as [H1 H2]. destruct (H23 id H1) as [H3 H4].
  split; congruence.
Qed.

Lemma getter_kept_declare :
  respects getter_kept
    (declareJestObjGetterIdentifier generateUidIdentifier
       template_declarator_node program).
Proof.
  intros s. unfold declareJestObjGetterIdentifier.
  destruct (jestObjGetterIdentifier s) eqn:Hg; intros id Hid.
  - auto.
  - congruence.
Qed.

Lemma visit_getter_kept :
  (forall e scope,
      respects getter_kept
        (visit_expr global_property_names isPure generateUidIdentifier
           template_declarator_node program scope e))
  /\ (forall st scope,
        respects getter_kept
          (visit_stmt global_property_names isPure generateUidIdentifier
             template_declarator_node program scope st)).
Proof.
  destruct (respects_visit global_property_names isPure generateUidIdentifier
              template_declarator_node program getter_kept
              (fun s id Hid => conj Hid eq_refl)
              getter_kept_trans
              (fun _ _ n s _ id Hid => conj Hid eq_refl)
              getter_kept_declare) as (He & Hs & _).
  split; assumption.
Qed.

End RunKeeps.

(** X13.  The transform never unmarks a declarator: whatever was in
    [hoistedVariables] before a program is transformed is in it afterwards,
    whether the transform returns or raises. *)
Theorem transform_keeps_marks (global_property_names : list string)
    (isPure : Scope -> nat -> bool)
    (generateUidIdentifier : ScopeFrame -> string -> string)
    (template_declarator_node : nat) (p : Program) (s0 : state) :
  match transform global_property_names isPure generateUidIdentifier
          template_declarator_node p s0 with
  | Return _ s' => marks_kept s0 s'
  | Throw _ s' => marks_kept s0 s'
  end.
Proof.
  unfold transform, visit_program, bind.
  assert (H : respects marks_kept
                (mapM (visit_stmt global_property_names isPure
                         generateUidIdentifier template_declarator_node
                         (program_scope p) [program_scope p])
                      (program_body p))).
  { apply respects_mapM.
    - intros s node Hn. exact Hn.
    - intros s1 s2 s3 H12 H23 node Hn. auto.
    - apply Forall_forall. intros st _. apply visit_marks_kept. }
  specialize (H (mkState (hoistedVariables s0) None [])).
  destruct (mapM _ (program_body p) (mkState (hoistedVariables s0) None []))
    as [body' s1|e s1]; [|exact H].
  simpl. now destruct (post _ _ _).
Qed.

(** X14.  Once the getter exists, visiting a statement, with everything
    nested in it, neither replaces its identifier nor unshifts anything,
    whether the visit returns or raises: every rewrite in a program uses
    one getter. *)
Theorem getter_identifier_stable (global_property_names : list string)
    (isPure : Scope -> nat -> bool)
    (generateUidIdentifier : ScopeFrame -> string -> string)
    (template_declarator_node : nat) (program : ScopeFrame) (scope : Scope)
    (st : stmt) (s : state) (id : string) :
  jestObjGetterIdentifier s = Some id ->
  match visit_stmt global_property_names isPure generateUidIdentifier
          template_declarator_node program scope st s with
  | Return _ s' =>
      jestObjGetterIdentifier s' = Some id /\ unshifted s' = unshifted s
  | Throw _ s' =>
      jestObjGetterIdentifier s' = Some id /\ unshifted s' = unshifted s
  end.
Proof.
  intros Hid.
  pose proof (proj2 (visit_getter_kept global_property_names isPure
                       generateUidIdentifier template_declarator_node
                       program) st scope s) as H.
  destruct (visit_stmt _ _ _ _ _ scope st s) as [st' s'|e s'];
    exact (H id Hid).
Qed.

(** ** What the walks leave of an expression *)

Lemma mapM_Forall2 {A B : Type} (f : A -> M B) (R : A -> B -> Prop)
    (l : list A) :
  Forall (fun a => forall s b s', f a s = Return b s' -> R a b) l ->
  forall s l' s', mapM f l s = Return l' s' -> Forall2 R l l'.
Proof.
  induction 1 as [|a l Ha Hl IH]; intros s l' s' H; simpl in H.
  - inversion H. constructor.
  - unfold bind in H.
    destruct (f a s) as [b s1|e s1] eqn:Hf; [|discriminate].
    change ((fix go (l0 : list A) : M (list B) :=
               match l0 with
               | [] => ret []
               | a0 :: l'0 => bind (f a0) (fun b0 => bind (go l'0)
                                         (fun bs => ret (b0 :: bs)))
               end) l s1) with (mapM f l s1) in H.
    destruct (mapM f l s1) as [bs s2|e s2] eqn:Hm; [|discriminate].
    inversion H; subst. constructor; eauto.
Qed.

Lemma Forall2_map_eq {A B : Type} (g : A -> B) (l l' : list A) :
  Forall2 (fun a b => g b = g a) l l' -> map g l' = map g l.
Proof.
  induction 1 as [|a b l l' Hab Hl IH]; simpl; congruence.
Qed.

Section VisitOutline.
Variable global_property_names : list string.
Variable isPure : Scope -> nat -> bool.
Variable generateUidIdentifier : ScopeFrame -> string -> string.
Variable template_declarator_node : nat.
Variable program : ScopeFrame.

Local Abbreviation v_expr :=
  (visit_expr global_property_names isPure generateUidIdentifier
     template_declarator_node program).

(** The visitor changes an expression inside its function bodies only. *)
Lemma visit_expr_outline :
  forall e scope s e' s',
    v_expr scope e s = Return e' s' -> outline e' = outline e.
Proof.
  apply (expr_ast_ind
    (fun e => forall scope s e' s',
                v_expr scope e s = Return e' s' -> outline e' = outline e)
    (fun _ => True) (fun _ => True) (fun _ => True)); auto;
    try (intros; simpl in H; inversion H; reflexivity).
  - intros callee args IHc IHa scope s e' s' H. simpl in H.
    unfold bind at 1 in H.
    destruct (v_expr scope callee s) as [callee' s1|err s1] eqn:Hc;
      [|discriminate].
    unfold bind, ret in H.
    destruct (mapM (v_expr scope) args s1) as [args' s2|err s2] eqn:Ha;
      [|discriminate].
    inversion H; subst. simpl. f_equal.
    + eapply IHc; eassumption.
    + apply Forall2_map_eq.
      eapply (mapM_Forall2 (v_expr scope)); [|exact Ha].
      eapply Forall_impl; [|exact IHa]. intros a Hp s0 b s0' Hv.
      eapply Hp; eassumption.
  - intros object property computed IHo IHp scope s e' s' H. simpl in H.
    unfold bind at 1 in H.
    destruct (v_expr scope object s) as [object' s1|err s1] eqn:Ho;
      [|discriminate].
    unfold bind, ret in H.
    destruct (v_expr scope property s1) as [property' s2|err s2] eqn:Hp;
      [|discriminate].
    inversion H; subst. simpl. f_equal; [eapply IHo | eapply IHp]; eassumption.
  - intros lhs rhs IH scope s e' s' H. simpl in H. unfold bind, ret in H.
    destruct (v_expr scope rhs s) as [rhs' s1|err s1] eqn:Hr; [|discriminate].
    inversion H; subst. simpl. f_equal. eapply IH; eassumption.
  - intros ps [f l] _ scope s e' s' H. simpl in H. unfold bind, ret in H.
    destruct (mapM _ l s) as [l' s1|err s1]; [|discriminate].
    inversion H; subst. reflexivity.
  - intros ps f body IH scope s e' s' H. simpl in H. unfold bind, ret in H.
    destruct (v_expr (f :: scope) body s) as [body' s1|err s1] eqn:Hb;
      [|discriminate].
    inversion H; subst. simpl. f_equal. eapply IH; eassumption.
  - intros e t IH scope s e' s' H. simpl in H. unfold bind, ret in H.
    destruct (v_expr scope e s) as [e1 s1|err s1] eqn:He; [|discriminate].
    inversion H; subst. simpl. f_equal. eapply IH; eassumption.
Qed.

End VisitOutline.

Section PostOutline.
Variable getter : option string.
Variable hoisted : list nat.

(** So does the hoisting pass. *)
Lemma post_expr_outline :
  forall e e', post_expr getter hoisted e = Some e' -> outline e' = outline e.
Proof.
  apply (expr_ast_ind
    (fun e => forall e', post_expr getter hoisted e = Some e' ->
                         outline e' = outline e)
    (fun _ => True) (fun _ => True) (fun _ => True)); auto;
    try (intros; post_parts H; reflexivity).
  - intros callee args IHc IHa e' H. post_parts H. simpl. f_equal.
    + now apply IHc.
    + apply Forall2_map_eq.
      eapply Forall2_Forall_impl;
        [exact IHa| |apply mapO_Forall2; eassumption].
      intros a b Hp Hab. now apply Hp.
  - intros object property computed IHo IHp e' H. post_parts H. simpl.
    f_equal; auto.
  - intros lhs rhs IH e' H. post_parts H. simpl. f_equal. auto.
  - intros ps [f l] _ e' H. post_parts H. post_parts E. reflexivity.
  - intros ps f body IH e' H. post_parts H. simpl. f_equal. auto.
  - intros e t IH e' H. post_parts H. simpl. f_equal. auto.
Qed.

End PostOutline.

(** What depends on the outline only. *)
Lemma identifier_name_outline (e : expr) :
  identifier_name (outline e) = identifier_name e.
Proof. destruct e as [| | | | | | |ps [f l]| |]; reflexivity. Qed.

Lemma isStringLiteral_outline (e : expr) :
  isStringLiteral (outline e) = isStringLiteral e.
Proof. destruct e as [| | | | | | |ps [f l]| |]; reflexivity. Qed.

Lemma isLiteral_outline (e : expr) : isLiteral (outline e) = isLiteral e.
Proof. destruct e as [| | | | | | |ps [f l]| |]; reflexivity. Qed.

Lemma isFunction_outline (e : expr) : isFunction (outline e) = isFunction e.
Proof. destruct e as [| | | | | | |ps [f l]| |]; reflexivity. Qed.

Lemma referencesImport_outline (scope : Scope) (e : expr)
    (source name : string) :
  referencesImport scope (outline e) source name
  = referencesImport scope e source name.
Proof. destruct e as [| | | | | | |ps [f l]| |]; reflexivity. Qed.

Lemma isJestObject_outline (scope : Scope) (e : expr) :
  isJestObject scope (outline e) = isJestObject scope e.
Proof.
  destruct e as [| | | | |object property computed| |ps [f l]| |];
    try reflexivity.
  unfold isJestObject. simpl. destruct computed; [reflexivity|].
  rewrite referencesImport_outline.
  destruct property as [| | | | | | |ps [f l]| |]; reflexivity.
Qed.

Lemma stateless_rule_outline (property : expr) (args : list expr) :
  stateless_rule (outline property) (map outline args)
  = stateless_rule property args.
Proof.
  unfold stateless_rule.
  replace (property_name (outline property)) with (property_name property)
    by (destruct property as [| | | | | | |ps [f l]| |]; reflexivity).
  destruct (property_name property) as [name|]; [|reflexivity].
  destruct args as [|a0 [|a1 [|a2 [|a3 rest]]]]; simpl;
    rewrite ?isStringLiteral_outline, ?isLiteral_outline; reflexivity.
Qed.

Lemma detect_without_factory_outline (scope : Scope) :
  forall e, detect_without_factory scope (outline e)
            = option_map (option_map outline)
                (detect_without_factory scope e).
Proof.
  fix IH 1. intros e.
  destruct e as [| | | |callee args| | |ps [f l]| |]; try reflexivity.
  destruct callee as [| | | | |object property computed| |ps [f l]| |];
    try reflexivity.
  destruct computed; try reflexivity.
  change (outline (CallExpression
                     (MemberExpression object property false) args))
    with (CallExpression
            (MemberExpression (outline object) (outline property) false)
            (map outline args)).
  simpl. rewrite isJestObject_outline, IH, stateless_rule_outline.
  destruct (isJestObject scope object).
  - now destruct (stateless_rule property args) as [[|]|].
  - destruct (detect_without_factory scope object) as [[j|]|]; simpl;
      try reflexivity.
    now destruct (stateless_rule property args) as [[|]|].
Qed.

Lemma inert_outline (scope : Scope) (e e' : expr) :
  outline e' = outline e -> inert scope e' = inert scope e.
Proof.
  intros H. unfold inert.
  assert (E : forall x, match detect_without_factory scope x with
                        | Some None => true
                        | _ => false
                        end
                        = match detect_without_factory scope (outline x) with
                          | Some None => true
                          | _ => false
                          end).
  { intros x. rewrite detect_without_factory_outline.
    now destruct (detect_without_factory scope x) as [[j|]|]. }
  now rewrite (E e'), (E e), H.
Qed.

Lemma is_getter_callee_outline (getter : option string) (e : expr) :
  is_getter_callee getter (outline e) = is_getter_callee getter e.
Proof. destruct e as [| | | | | | |ps [f l]| |]; reflexivity. Qed.

Lemma getter_calls_outline (getter : option string) :
  forall e, getter_calls getter (outline e) = getter_calls getter e.
Proof.
  apply (expr_ast_ind
    (fun e => getter_calls getter (outline e) = getter_calls getter e)
    (fun _ => True) (fun _ => True) (fun _ => True)); auto.
  - intros callee args IHc IHa. simpl.
    rewrite is_getter_callee_outline, IHc, map_map. f_equal. f_equal.
    apply map_ext_Forall. exact IHa.
  - intros object property computed IHo IHp. simpl. now rewrite IHo, IHp.
  - intros ps [f l] _. reflexivity.
Qed.

Lemma getter_calls_same_outline (getter : option string) (e e' : expr) :
  outline e' = outline e -> getter_calls getter e' = getter_calls getter e.
Proof.
  intros H.
  now rewrite <- (getter_calls_outline getter e'), H, getter_calls_outline.
Qed.

(** ** From the visitor to the hoister *)

Section VisitorToHoister.
Variable global_property_names : list string.
Variable isPure : Scope -> nat -> bool.
Variable generateUidIdentifier : ScopeFrame -> string -> string.
Variable template_declarator_node : nat.
Variable program : ScopeFrame.

Local Abbreviation v_expr :=
  (visit_expr global_property_names isPure generateUidIdentifier
     template_declarator_node program).

(** The walk of the children keeps identifiers and the kind of every
    node. *)
Lemma visit_expr_identifier (scope : Scope) (e e' : expr) (s s' : state) :
  v_expr scope e s = Return e' s' ->
  identifier_name e' = identifier_name e.
Proof.
  destruct e; simpl; unfold bind, ret; intros H;
    repeat match type of H with
           | match ?m with _ => _ end = _ => destruct m; try discriminate
           end;
    inversion H; reflexivity.
Qed.

Lemma referencesImport_identifier (scope : Scope) (e e' : expr)
    (source name : string) :
  identifier_name e' = identifier_name e ->
  referencesImport scope e' source name = referencesImport scope e source name.
Proof.
  destruct e, e'; simpl; intros H; try discriminate; try reflexivity.
  now inversion H.
Qed.

Lemma visit_expr_isJestObject (scope scope' : Scope) (e e' : expr)
    (s s' : state) :
  v_expr scope' e s = Return e' s' ->
  isJestObject scope e' = isJestObject scope e.
Proof.
  intros H.
  destruct e as [name| | | |callee args|object property computed
                | | | |]; simpl in H; unfold bind, ret in H;
    repeat match type of H with
           | match ?m with _ => _ end = _ =>
               let E := fresh "E" in destruct m eqn:E; try discriminate
           end;
    inversion H; subst; try reflexivity.
  unfold isJestObject. simpl.
  destruct computed; [reflexivity|].
  rewrite (referencesImport_identifier scope object _ _ _
             (visit_expr_identifier _ _ _ _ _ E)).
  pose proof (visit_expr_identifier _ _ _ _ _ E0) as Hp.
  destruct property, a0; simpl in Hp; try discriminate; try reflexivity.
  now inversion Hp.
Qed.

Lemma visit_expr_chain (scope scope' : Scope) :
  forall (e e' : expr) (s s' : state),
    v_expr scope' e s = Return e' s' ->
    receiver_reaches_jest scope e' = receiver_reaches_jest scope e.
Proof.
  fix IH 1. intros e e' s s' H.
  destruct e as [| | | |callee args| | | | |];
    try (simpl in H; unfold bind, ret in H;
         repeat match type of H with
                | match ?m with _ => _ end = _ => destruct m; try discriminate
                end;
         inversion H; reflexivity).
  simpl in H. unfold bind at 1 in H.
  destruct (v_expr scope' callee s) as [callee' s1|err s1] eqn:Hc;
    [|discriminate].
  unfold bind, ret in H.
  destruct (mapM (v_expr scope') args s1) as [args' s2|err s2];
    [|discriminate].
  inversion H; subst. clear H.
  destruct callee as [| | | | |object property computed| | | |];
    try (simpl in Hc; unfold bind, ret in Hc;
         repeat match type of Hc with
                | match ?m with _ => _ end = _ => destruct m; try discriminate
                end;
         inversion Hc; reflexivity).
  simpl in Hc. unfold bind at 1 in Hc.
  destruct (v_expr scope' object s) as [object' s3|err s3] eqn:Ho;
    [|discriminate].
  unfold bind, ret in Hc.
  destruct (v_expr scope' property s3) as [property' s4|err s4];
    [|discriminate].
  inversion Hc; subst. clear Hc.
  destruct computed; [reflexivity|]. simpl.
  rewrite (visit_expr_isJestObject scope scope' object object' s s3 Ho).
  now rewrite (IH object object' s s3 Ho).
Qed.

Lemma jest_object_no_call (scope : Scope) (getter : option string)
    (object : expr) :
  isJestObject scope object = true -> getter_calls getter object = 0.
Proof.
  unfold isJestObject.
  destruct object as [| | | |callee args|o p computed| | | |]; simpl;
    try discriminate; try reflexivity.
  destruct computed; [discriminate|].
  destruct o; try discriminate. destruct p; simpl; try discriminate;
    rewrite ?andb_false_r; try discriminate.
  reflexivity.
Qed.

(** The rewrite adds one call of the getter to the chain. *)
Lemma rewritten_getter_calls (scope : Scope) (id : string) :
  forall e,
    receiver_reaches_jest scope e = true ->
    getter_calls (Some id)
      (replaceJestObjExpr scope (CallExpression (Identifier id) []) e)
    = S (getter_calls (Some id) e).
Proof.
  fix IH 1. intros e H.
  destruct e as [| | | |callee args| | | | |]; try discriminate.
  destruct callee as [| | | | |object property computed| | | |];
    try discriminate.
  destruct computed; try discriminate.
  simpl in H. simpl.
  destruct (isJestObject scope object) eqn:Hj.
  - rewrite (jest_object_no_call scope (Some id) object Hj).
    simpl. now rewrite String.eqb_refl.
  - simpl in H. now rewrite (IH object H).
Qed.

Lemma rewritten_statement_moves (scope : Scope) (e j : expr)
    (s s1 s' : state) (st : stmt) :
  extractJestObjExprIfHoistable global_property_names isPure scope e s
  = Return (Some j) s1 ->
  visit_stmt global_property_names isPure generateUidIdentifier
    template_declarator_node program scope (ExpressionStatement e) s
  = Return st s' ->
  exists id,
    jestObjGetterIdentifier s' = Some id
    /\ forall hoisted,
         walk_statement (Some id) hoisted visitBlock_blacklist st
         = match getter_calls (Some id) e with
           | 0 => Done (None, mkMoved [] [st])
           | S _ => Raised NoStatementParent
           end.
Proof.
  intros Hx Hv. simpl in Hv. unfold bind at 1 in Hv. rewrite Hx in Hv.
  unfold bind at 1 in Hv. unfold bind at 1 in Hv.
  destruct (declareJestObjGetterIdentifier generateUidIdentifier
              template_declarator_node program s1) as [id s2|err s2] eqn:Hd;
    [|discriminate].
  unfold ret at 1 in Hv. unfold bind, ret in Hv.
  destruct (v_expr scope e s2) as [e' s3|err s3] eqn:He; [|discriminate].
  inversion Hv; subst. clear Hv.
  assert (Hg : jestObjGetterIdentifier s2 = Some id).
  { unfold declareJestObjGetterIdentifier in Hd.
    destruct (jestObjGetterIdentifier s1) eqn:Hg1; inversion Hd; subst;
      [exact Hg1 | reflexivity]. }
  exists id. split.
  - pose proof (proj1 (visit_getter_kept global_property_names isPure
                         generateUidIdentifier template_declarator_node
                         program) e scope s2) as Hk.
    rewrite He in Hk. now apply Hk.
  - intros hoisted.
    rewrite walk_statement_unmarked by reflexivity.
    simpl statement_getter_calls.
    rewrite rewritten_getter_calls.
    + rewrite (getter_calls_same_outline (Some id) e e').
      * now destruct (getter_calls (Some id) e).
      * eapply visit_expr_outline. exact He.
    + rewrite (visit_expr_chain scope scope e e' s2 s' He).
      now apply (extract_root global_property_names isPure scope e j s s1).
Qed.

End VisitorToHoister.

(** X15.  A statement the visitor rewrites is a statement the hoister
    moves: when the detector accepts an expression statement and its visit
    returns, the getter the plugin holds afterwards is called in the
    returned statement, which the walk of a block holding it sends before
    the calls' hoist point.  That is so when the statement as written has
    no call of that name outside its function bodies, which is what a
    fresh identifier ensures; a statement that has one makes the walk
    raise. *)
Theorem rewritten_statement_is_hoisted (global_property_names : list string)
    (isPure : Scope -> nat -> bool)
    (generateUidIdentifier : ScopeFrame -> string -> string)
    (template_declarator_node : nat) (program : ScopeFrame) (scope : Scope)
    (e j : expr) (s s1 s' : state) (st : stmt) :
  extractJestObjExprIfHoistable global_property_names isPure scope e s
  = Return (Some j) s1 ->
  visit_stmt global_property_names isPure generateUidIdentifier
    template_declarator_node program scope (ExpressionStatement e) s
  = Return st s' ->
  exists id,
    jestObjGetterIdentifier s' = Some id
    /\ forall hoisted,
         walk_statement (Some id) hoisted visitBlock_blacklist st
         = match getter_calls (Some id) e with
           | 0 => Done (None, mkMoved [] [st])
           | S _ => Raised NoStatementParent
           end.
Proof. apply rewritten_statement_moves. Qed.

(** ** A second application *)

(** *** What the detector answers without raising *)

Section DetectWith.
Variable global_property_names : list string.
Variable isPure : Scope -> nat -> bool.
(** A test of identifiers under which the identifier loop returns, with
    final states related to the initial ones by [Q]. *)
Variable pass : Scope -> IdPath -> bool.
Variable Q : state -> state -> Prop.
Hypothesis Q_refl : forall s, Q s s.
Hypothesis Q_trans : forall s1 s2 s3, Q s1 s2 -> Q s2 s3 -> Q s1 s3.
Hypothesis pass_loop :
  forall scope ids s,
    forallb (pass scope) ids = true ->
    exists s', for_each_id global_property_names isPure scope ids s
               = Return tt s'
               /\ Q s s'.

Local Abbreviation extract :=
  (extractJestObjExprIfHoistable global_property_names isPure).
Local Abbreviation rule := (call_FUNCTIONS global_property_names isPure).

Lemma rule_answer_sound (scope : Scope) (property : expr) (args : list expr)
    (b : bool) (s : state) :
  rule_answer pass scope property args = Some b ->
  exists s', rule scope property args s = Return b s' /\ Q s s'.
Proof.
  unfold rule_answer.
  destruct (stateless_rule property args) as [b0|] eqn:Hs.
  - intros H. inversion H; subst. exists s. split; [|apply Q_refl].
    now apply stateless_rule_sound.
  - intros H.
    assert (Hm : rule scope property args
                 = FUNCTIONS_mock global_property_names isPure scope args
                 /\ exists a0 a1 rest, args = a0 :: a1 :: rest
                                       /\ (rest = [] \/ exists a2, rest = [a2])).
    { unfold stateless_rule in Hs. unfold call_FUNCTIONS, FUNCTIONS.
      destruct (property_name property) as [name|]; [|discriminate].
      destruct (String.eqb name "mock").
      - split; [reflexivity|].
        destruct args as [|a0 [|a1 [|a2 [|a3 rest]]]]; try discriminate;
          eauto 8.
      - destruct (String.eqb name "unmock"); [discriminate|].
        destruct (String.eqb name "deepUnmock"); [discriminate|].
        destruct (String.eqb name "disableAutomock"); [discriminate|].
        destruct (String.eqb name "enableAutomock"); discriminate. }
    destruct Hm as (Hr & a0 & a1 & rest & -> & Hrest).
    rewrite Hr.
    destruct (isFunction a1) eqn:Hf; [|discriminate].
    destruct (forallb (pass scope) (traverse_ids IDVisitor_blacklist a1))
      eqn:Hp; [|discriminate].
    simpl in H. inversion H; subst.
    destruct (pass_loop scope _ s Hp) as (s' & Hl & HQ).
    exists s'. split; [|exact HQ].
    destruct Hrest as [-> | [a2 ->]]; simpl; rewrite Hf; simpl;
      unfold bind; now rewrite Hl.
Qed.

Lemma detect_with_sound (scope : Scope) :
  forall (e : expr) (r : option expr) (s : state),
    detect_with pass scope e = Some r ->
    exists s', extract scope e s = Return r s' /\ Q s s'.
Proof.
  fix IH 1. intros e r s H.
  destruct e as [| | | |callee args| | | | |];
    try (inversion H; exists s; split; [reflexivity | apply Q_refl]).
  destruct callee as [| | | | |object property computed| | | |];
    try (inversion H; exists s; split; [reflexivity | apply Q_refl]).
  destruct computed;
    try (inversion H; exists s; split; [reflexivity | apply Q_refl]).
  rewrite extract_call_member. unfold resolve_receiver, bind.
  simpl in H.
  destruct (isJestObject scope object).
  - simpl.
    destruct (rule_answer pass scope property args) as [b|] eqn:Hrule;
      [|discriminate].
    destruct (rule_answer_sound scope property args b s Hrule)
      as (s' & Hr & HQ).
    rewrite Hr. exists s'. split; [|exact HQ].
    destruct b; inversion H; reflexivity.
  - destruct (detect_with pass scope object) as [[j|]|] eqn:Hd;
      [| |discriminate].
    + destruct (IH object (Some j) s Hd) as (s1 & He & HQ1). rewrite He.
      destruct (rule_answer pass scope property args) as [b|] eqn:Hrule;
        [|discriminate].
      destruct (rule_answer_sound scope property args b s1 Hrule)
        as (s' & Hr & HQ).
      rewrite Hr. exists s'. split; [|eapply Q_trans; eassumption].
      destruct b; inversion H; reflexivity.
    + destruct (IH object None s Hd) as (s1 & He & HQ1). rewrite He.
      inversion H; subst. exists s1. auto.
Qed.

(** A chain on which no factory is validated gets the same answer. *)
Lemma detect_without_factory_with (scope : Scope) :
  forall (e : expr) (r : option expr),
    detect_without_factory scope e = Some r ->
    detect_with pass scope e = Some r.
Proof.
  fix IH 1. intros e r H.
  destruct e as [| | | |callee args| | | | |]; try exact H.
  destruct callee as [| | | | |object property computed| | | |];
    try exact H.
  destruct computed; try exact H.
  simpl in H. simpl. unfold rule_answer.
  destruct (isJestObject scope object).
  - destruct (stateless_rule property args) as [b|]; [exact H|discriminate].
  - destruct (detect_without_factory scope object) as [[j|]|] eqn:Hd;
      [| |discriminate].
    + rewrite (IH object (Some j) Hd).
      destruct (stateless_rule property args) as [b|]; [exact H|discriminate].
    + now rewrite (IH object None Hd).
Qed.

End DetectWith.

Section Calm.
Variable global_property_names : list string.
Variable isPure : Scope -> nat -> bool.

Local Abbreviation extract :=
  (extractJestObjExprIfHoistable global_property_names isPure).
Local Abbreviation calm' := (calm global_property_names).
Local Abbreviation accepts' := (accepts global_property_names isPure).

Lemma loop_passes_unmarked (scope : Scope) (ids : list IdPath) (s : state) :
  forallb (passes_unmarked global_property_names scope) ids = true ->
  exists s', for_each_id global_property_names isPure scope ids s
             = Return tt s'
             /\ s = s'.
Proof.
  intros H. exists s. split; [|reflexivity].
  induction ids as [|id ids IH]; simpl.
  - reflexivity.
  - simpl in H. apply andb_true_iff in H. destruct H as [Hid Hids].
    unfold bind, check_id. unfold passes_unmarked in Hid.
    destruct (found_before_parent (id_scopes id) (id_name id)).
    + simpl. now apply IH.
    + simpl in Hid. rewrite Hid. simpl. now apply IH.
Qed.

Lemma loop_accepts (scope : Scope) (ids : list IdPath) (s : state) :
  forallb (accepted global_property_names isPure scope) ids = true ->
  exists s', for_each_id global_property_names isPure scope ids s
             = Return tt s'
             /\ True.
Proof.
  intros H. eexists. split; [|exact I].
  now apply loop_accepted.
Qed.

(** A calm expression is rejected with the state as it was. *)
Lemma calm_sound (scope : Scope) (e : expr) (s : state) :
  calm' scope e = true -> extract scope e s = Return None s.
Proof.
  unfold calm. intros H.
  destruct (detect_with (passes_unmarked global_property_names) scope e)
    as [[j|]|] eqn:Hd; try discriminate.
  destruct (detect_with_sound global_property_names isPure
              (passes_unmarked global_property_names) eq
              (@eq_refl state) (@eq_trans state) loop_passes_unmarked
              scope e None s Hd) as (s' & He & <-).
  exact He.
Qed.

(** An expression the detector accepts is accepted in every state. *)
Lemma accepts_sound (scope : Scope) (e : expr) (s : state) :
  accepts' scope e = true ->
  exists j s', extract scope e s = Return (Some j) s'.
Proof.
  unfold accepts. intros H.
  destruct (detect_with (accepted global_property_names isPure) scope e)
    as [[j|]|] eqn:Hd; try discriminate.
  destruct (detect_with_sound global_property_names isPure
              (accepted global_property_names isPure) (fun _ _ => True)
              (fun _ => I) (fun _ _ _ _ _ => I) loop_accepts
              scope e (Some j) s Hd) as (s' & He & _).
  eauto.
Qed.

Lemma inert_calm (scope : Scope) (e : expr) :
  inert scope e = true -> calm' scope e = true.
Proof.
  unfold inert, calm. intros H.
  destruct (detect_without_factory scope e) as [[j|]|] eqn:Hd;
    try discriminate.
  now rewrite (detect_without_factory_with
                 (passes_unmarked global_property_names) scope e None Hd).
Qed.

End Calm.

(** *** A settled program *)

Section SecondVisit.
Variable global_property_names : list string.
Variable isPure : Scope -> nat -> bool.
Variable generateUidIdentifier : ScopeFrame -> string -> string.
Variable template_declarator_node : nat.
Variable program : ScopeFrame.

Local Abbreviation v_expr :=
  (visit_expr global_property_names isPure generateUidIdentifier
     template_declarator_node program).
Local Abbreviation v_stmt :=
  (visit_stmt global_property_names isPure generateUidIdentifier
     template_declarator_node program).
Local Abbreviation v_declarator :=
  (visit_declarator global_property_names isPure generateUidIdentifier
     template_declarator_node program).
Local Abbreviation v_block :=
  (visit_block global_property_names isPure generateUidIdentifier
     template_declarator_node program).

(** The visitor changes neither a settled tree nor the state. *)
Lemma visit_settled :
  (forall e scope s, settled_expr global_property_names scope e = true ->
                     v_expr scope e s = Return e s)
  /\ (forall st scope s, settled_stmt global_property_names scope st = true ->
                         v_stmt scope st s = Return st s)
  /\ (forall d scope s, settled_declarator global_property_names scope d = true ->
                        v_declarator scope d s = Return d s)
  /\ (forall b scope s, settled_block global_property_names scope b = true ->
                        v_block scope b s = Return b s).
Proof.
  apply ast_ind; try (intros; reflexivity).
  - intros callee args IHc IHa scope s H. simpl in H.
    apply andb_true_iff in H. destruct H as [Hc Ha].
    simpl. unfold bind. rewrite (IHc scope s Hc).
    rewrite mapM_unchanged; [reflexivity|].
    apply (Forall_forallb _ (settled_expr global_property_names scope)); [|exact Ha].
    eapply Forall_impl; [|exact IHa]. intros a Hx Hs. now apply Hx.
  - intros object property computed IHo IHp scope s H. simpl in H.
    apply andb_true_iff in H. destruct H as [Ho Hp].
    simpl. unfold bind. now rewrite (IHo scope s Ho), (IHp scope s Hp).
  - intros lhs rhs IH scope s H. simpl in H.
    simpl. unfold bind. now rewrite (IH scope s H).
  - intros ps b IH scope s H. simpl in H.
    simpl. unfold bind. now rewrite (IH scope s H).
  - intros ps f body IH scope s H. simpl in H.
    simpl. unfold bind. now rewrite (IH (f :: scope) s H).
  - intros e t IH scope s H. simpl in H.
    simpl. unfold bind. now rewrite (IH scope s H).
  - intros e IH scope s H. simpl in H.
    apply andb_true_iff in H. destruct H as [Hr He].
    simpl. unfold bind.
    rewrite (calm_sound global_property_names isPure scope e s Hr).
    simpl. now rewrite (IH scope s He).
  - intros kind ds IH scope s H. simpl in H.
    simpl. unfold bind. rewrite mapM_unchanged; [reflexivity|].
    apply (Forall_forallb _ (settled_declarator global_property_names scope)); [|exact H].
    eapply Forall_impl; [|exact IH]. intros a Hx Hs. now apply Hx.
  - intros b IH scope s H. simpl in H.
    simpl. unfold bind. now rewrite (IH scope s H).
  - intros test c a IHt IHc IHa scope s H. simpl in H.
    apply andb_true_iff in H. destruct H as [H Ha].
    apply andb_true_iff in H. destruct H as [Ht Hc].
    simpl. unfold bind. rewrite (IHt scope s Ht), (IHc scope s Hc).
    destruct a as [b|]; [|reflexivity].
    unfold bind. now rewrite (IHa b eq_refl scope s Ha).
  - intros id ps b IH scope s H. simpl in H.
    simpl. unfold bind. now rewrite (IH scope s H).
  - intros [e|] IH scope s H; [|reflexivity]. simpl in H.
    simpl. unfold bind. now rewrite (IH e eq_refl scope s H).
  - intros n x [e|] IH scope s H; [|reflexivity]. simpl in H.
    simpl. unfold bind. now rewrite (IH e eq_refl scope s H).
  - intros f body IH scope s H. simpl in H.
    simpl. unfold bind. rewrite mapM_unchanged; [reflexivity|].
    apply (Forall_forallb _ (settled_stmt global_property_names (f :: scope))); [|exact H].
    eapply Forall_impl; [|exact IH]. intros a Hx Hs. now apply Hx.
Qed.

End SecondVisit.

(** *** Without a getter and without marked declarators *)

Lemma list_sum_zero {A : Type} (g : A -> nat) (l : list A) :
  Forall (fun x => g x = 0) l -> list_sum (map g l) = 0.
Proof.
  induction 1 as [|x l Hx Hl IH]; simpl; [reflexivity|]. now rewrite Hx, IH.
Qed.

Lemma getter_calls_None : forall e, getter_calls None e = 0.
Proof.
  apply (expr_ast_ind (fun e => getter_calls None e = 0)
           (fun _ => True) (fun _ => True) (fun _ => True)); auto.
  - intros callee args IHc IHa. simpl. rewrite IHc, (list_sum_zero _ _ IHa).
    now destruct callee.
  - intros object property computed IHo IHp. simpl. now rewrite IHo, IHp.
Qed.

Lemma group_of_idle (s : stmt) : group_of None [] s = Some Rest.
Proof.
  unfold group_of.
  assert (Hm : marked_declarators [] s = []).
  { destruct s as [e|kind ds|b|test c a|id ps b|r|]; try reflexivity.
    simpl. induction ds as [|d ds IH]; [reflexivity|exact IH]. }
  assert (Hc : statement_getter_calls None s = 0).
  { destruct s as [e|kind ds|b|test c a|id ps b|[e|]|]; simpl;
      try reflexivity; try apply getter_calls_None.
    apply list_sum_zero. apply Forall_forall. intros [n x [e|]] _; simpl;
      [apply getter_calls_None | reflexivity]. }
  now rewrite Hm, Hc.
Qed.

Lemma visitBlock_idle (statements : list stmt) :
  visitBlock None [] statements = Done statements.
Proof.
  destruct (grouped_rest None [] statements) as [Hg He].
  - apply Forall_forall. intros s _. apply group_of_idle.
  - rewrite (visitBlock_grouped None [] statements Hg). now rewrite He.
Qed.

Lemma mapO_unchanged {A : Type} (f : A -> option A) (l : list A) :
  Forall (fun x => f x = Some x) l -> mapO f l = Some l.
Proof.
  induction 1 as [|x l Hx Hl IH]; simpl; [reflexivity|]. now rewrite Hx, IH.
Qed.

Lemma post_idle :
  (forall e, post_expr None [] e = Some e)
  /\ (forall s, post_stmt None [] s = Some s)
  /\ (forall d, post_declarator None [] d = Some d)
  /\ (forall b, post_block None [] b = Some b).
Proof.
  apply ast_ind; try (intros; reflexivity).
  - intros callee args IHc IHa. simpl. now rewrite IHc, mapO_unchanged.
  - intros object property computed IHo IHp. simpl. now rewrite IHo, IHp.
  - intros lhs rhs IH. simpl. now rewrite IH.
  - intros ps b IH. simpl. now rewrite IH.
  - intros ps f body IH. simpl. now rewrite IH.
  - intros e t IH. simpl. now rewrite IH.
  - intros e IH. simpl. now rewrite IH.
  - intros kind ds IH. simpl. now rewrite mapO_unchanged.
  - intros b IH. simpl. now rewrite IH.
  - intros test c a IHt IHc IHa. simpl. rewrite IHt, IHc.
    destruct a as [b|]; [|reflexivity]. now rewrite (IHa b eq_refl).
  - intros id ps b IH. simpl. now rewrite IH.
  - intros [e|] IH; [|reflexivity]. simpl. now rewrite (IH e eq_refl).
  - intros n x [e|] IH; [|reflexivity]. simpl. now rewrite (IH e eq_refl).
  - intros f body IH. simpl. rewrite mapO_unchanged by exact IH.
    unfold hoisted_block. now rewrite visitBlock_idle.
Qed.

Lemma post_program_idle (p : Program) : post None [] p = Some p.
Proof.
  destruct p as [scope statements]. unfold post, post_statements. simpl.
  rewrite mapO_unchanged.
  - unfold hoisted_block. now rewrite visitBlock_idle.
  - apply Forall_forall. intros s _. apply post_idle.
Qed.

(** Applied to a settled program, starting without marked declarators,
    the transform returns the program as it is. *)
Lemma transform_settled (global_property_names : list string)
    (isPure : Scope -> nat -> bool)
    (generateUidIdentifier : ScopeFrame -> string -> string)
    (template_declarator_node : nat) (p : Program) :
  settled global_property_names p = true ->
  transform global_property_names isPure generateUidIdentifier
    template_declarator_node p (mkState [] None [])
  = Return p (mkState [] None []).
Proof.
  intros H. destruct p as [scope statements]. unfold settled in H. simpl in H.
  unfold transform, visit_program, bind. simpl.
  rewrite mapM_unchanged.
  - simpl. now rewrite post_program_idle.
  - apply Forall_forall. intros s Hin.
    rewrite forallb_forall in H.
    apply (visit_settled global_property_names isPure generateUidIdentifier
             template_declarator_node scope).
    now apply H.
Qed.

(** *** What the visitor leaves *)

Lemma mapM_forallb {A : Type} (f : A -> M A) (P Q : A -> bool) (l : list A) :
  Forall (fun a => forall s b s', P a = true -> f a s = Return b s' ->
                                  Q b = true) l ->
  forall s l' s',
    forallb P l = true -> mapM f l s = Return l' s' -> forallb Q l' = true.
Proof.
  induction 1 as [|a l Ha Hl IH]; intros s l' s' HP H; simpl in H.
  - inversion H. reflexivity.
  - simpl in HP. apply andb_true_iff in HP. destruct HP as [HPa HPl].
    unfold bind in H.
    destruct (f a s) as [b s1|e s1] eqn:Hf; [|discriminate].
    change ((fix go (l0 : list A) : M (list A) :=
               match l0 with
               | [] => ret []
               | a0 :: l'0 => bind (f a0) (fun b0 => bind (go l'0)
                                         (fun bs => ret (b0 :: bs)))
               end) l s1) with (mapM f l s1) in H.
    destruct (mapM f l s1) as [bs s2|e s2] eqn:Hm; [|discriminate].
    inversion H; subst. simpl. rewrite (Ha s b s1 HPa Hf). simpl.
    eapply IH; eassumption.
Qed.

Section VisitSteady.
Variable global_property_names : list string.
Variable isPure : Scope -> nat -> bool.
Variable generateUidIdentifier : ScopeFrame -> string -> string.
Variable template_declarator_node : nat.
Variable program : ScopeFrame.

Local Abbreviation v_expr :=
  (visit_expr global_property_names isPure generateUidIdentifier
     template_declarator_node program).
Local Abbreviation v_stmt :=
  (visit_stmt global_property_names isPure generateUidIdentifier
     template_declarator_node program).
Local Abbreviation v_declarator :=
  (visit_declarator global_property_names isPure generateUidIdentifier
     template_declarator_node program).
Local Abbreviation v_block :=
  (visit_block global_property_names isPure generateUidIdentifier
     template_declarator_node program).
Local Abbreviation settled_e := (settled_expr global_property_names).
Local Abbreviation settled_s := (settled_stmt global_property_names).
Local Abbreviation settled_d := (settled_declarator global_property_names).
Local Abbreviation settled_b := (settled_block global_property_names).
Local Abbreviation steady_e := (steady_expr global_property_names isPure).
Local Abbreviation steady_s := (steady_stmt global_property_names isPure).
Local Abbreviation steady_d :=
  (steady_declarator global_property_names isPure).
Local Abbreviation steady_b := (steady_block global_property_names isPure).

Lemma jest_object_settled (scope scope' : Scope) (object : expr) :
  isJestObject scope' object = true -> settled_e scope object = true.
Proof.
  unfold isJestObject.
  destruct object as [| | | |callee args|o p computed| | | |]; simpl;
    try discriminate; try reflexivity.
  destruct computed; [discriminate|].
  destruct o; try discriminate. destruct p; simpl; try discriminate;
    rewrite ?andb_false_r; try discriminate.
  reflexivity.
Qed.

(** The rewrite puts a call without statements in the place of a
    reference without statements. *)
Lemma settled_replace (scope scope' : Scope) (id : string) :
  forall e,
    settled_e scope
      (replaceJestObjExpr scope' (CallExpression (Identifier id) []) e)
    = settled_e scope e.
Proof.
  fix IH 1. intros e.
  destruct e as [| | | |callee args| | | | |]; try reflexivity.
  destruct callee as [| | | | |object property computed| | | |];
    try reflexivity.
  destruct computed; try reflexivity.
  simpl. destruct (isJestObject scope' object) eqn:Hj.
  - now rewrite (jest_object_settled scope scope' object Hj).
  - now rewrite IH.
Qed.

(** The visitor makes a steady tree a settled one. *)
Lemma visit_steady :
  (forall e scope s e1 s1,
      steady_e scope e = true -> v_expr scope e s = Return e1 s1 ->
      settled_e scope e1 = true)
  /\ (forall st scope s st1 s1,
         steady_s scope st = true -> v_stmt scope st s = Return st1 s1 ->
         settled_s scope st1 = true)
  /\ (forall d scope s d1 s1,
         steady_d scope d = true -> v_declarator scope d s = Return d1 s1 ->
         settled_d scope d1 = true)
  /\ (forall b scope s b1 s1,
         steady_b scope b = true -> v_block scope b s = Return b1 s1 ->
         settled_b scope b1 = true).
Proof.
  apply ast_ind;
    try (intros; simpl in *; match goal with
                             | H : ret _ _ = Return _ _ |- _ =>
                                 inversion H; reflexivity
                             end).
  - intros callee args IHc IHa scope s e1 s1 H Hv. simpl in H.
    apply andb_true_iff in H. destruct H as [Hc Ha].
    simpl in Hv. unfold bind at 1 in Hv.
    destruct (v_expr scope callee s) as [callee' s2|err s2] eqn:Ec;
      [|discriminate].
    unfold bind, ret in Hv.
    destruct (mapM (v_expr scope) args s2) as [args' s3|err s3] eqn:Ea;
      [|discriminate].
    inversion Hv; subst. simpl.
    rewrite (IHc scope s callee' s2 Hc Ec). simpl.
    eapply (mapM_forallb (v_expr scope) (steady_e scope) (settled_e scope));
      [|exact Ha|exact Ea].
    eapply Forall_impl; [|exact IHa]. intros a Hp s0 b s0' Hs Hb.
    eapply Hp; eassumption.
  - intros object property computed IHo IHp scope s e1 s1 H Hv. simpl in H.
    apply andb_true_iff in H. destruct H as [Ho Hp].
    simpl in Hv. unfold bind at 1 in Hv.
    destruct (v_expr scope object s) as [object' s2|err s2] eqn:Eo;
      [|discriminate].
    unfold bind, ret in Hv.
    destruct (v_expr scope property s2) as [property' s3|err s3] eqn:Ep;
      [|discriminate].
    inversion Hv; subst. simpl.
    now rewrite (IHo scope s object' s2 Ho Eo),
      (IHp scope s2 property' s1 Hp Ep).
  - intros lhs rhs IH scope s e1 s1 H Hv. simpl in H.
    simpl in Hv. unfold bind, ret in Hv.
    destruct (v_expr scope rhs s) as [rhs' s2|err s2] eqn:Er; [|discriminate].
    inversion Hv; subst. simpl. eapply IH; eassumption.
  - intros ps b IH scope s e1 s1 H Hv. simpl in H.
    simpl in Hv. unfold bind, ret in Hv.
    destruct (v_block scope b s) as [b' s2|err s2] eqn:Eb; [|discriminate].
    inversion Hv; subst. simpl. eapply IH; eassumption.
  - intros ps f body IH scope s e1 s1 H Hv. simpl in H.
    simpl in Hv. unfold bind, ret in Hv.
    destruct (v_expr (f :: scope) body s) as [body' s2|err s2] eqn:Eb;
      [|discriminate].
    inversion Hv; subst. simpl. eapply IH; eassumption.
  - intros e t IH scope s e1 s1 H Hv. simpl in H.
    simpl in Hv. unfold bind, ret in Hv.
    destruct (v_expr scope e s) as [e' s2|err s2] eqn:Ee; [|discriminate].
    inversion Hv; subst. simpl. eapply IH; eassumption.
  - (* expression statements *)
    intros e IH scope s st1 s1 H Hv. simpl in H.
    apply andb_true_iff in H. destruct H as [Hcase He].
    simpl in Hv. unfold bind at 1 in Hv.
    destruct (extractJestObjExprIfHoistable global_property_names isPure
                scope e s) as [[j|] s2|err s2] eqn:Hx; [| |discriminate].
    + unfold bind at 1 in Hv. unfold bind at 1 in Hv.
      destruct (declareJestObjGetterIdentifier generateUidIdentifier
                  template_declarator_node program s2) as [id s3|err s3];
        [|discriminate].
      unfold ret at 1 in Hv. unfold bind, ret in Hv.
      destruct (v_expr scope e s3) as [e' s4|err s4] eqn:Ee; [|discriminate].
      inversion Hv; subst. simpl.
      rewrite (inert_calm global_property_names scope _
                 (rewritten_inert scope id e')).
      simpl. rewrite settled_replace. eapply IH; eassumption.
    + unfold bind at 1 in Hv. unfold ret at 1 in Hv.
      unfold bind, ret in Hv.
      destruct (v_expr scope e s2) as [e' s3|err s3] eqn:Ee; [|discriminate].
      inversion Hv; subst. simpl.
      rewrite (IH scope s2 e' s1 He Ee), andb_true_r.
      apply orb_true_iff in Hcase. destruct Hcase as [Hcase|Hcalm].
      * apply orb_true_iff in Hcase. destruct Hcase as [Hacc|Hinert].
        -- destruct (accepts_sound global_property_names isPure scope e s Hacc)
             as (j & s' & Habs).
           rewrite Hx in Habs. discriminate.
        -- apply inert_calm.
           rewrite (inert_outline scope e e'); [exact Hinert|].
           eapply visit_expr_outline. exact Ee.
      * apply andb_true_iff in Hcalm. destruct Hcalm as [Hcalm Hset].
        pose proof (proj1 (visit_settled global_property_names isPure
                             generateUidIdentifier template_declarator_node
                             program) e scope s2 Hset) as Hsame.
        rewrite Hsame in Ee. inversion Ee; subst. exact Hcalm.
  - intros kind ds IH scope s st1 s1 H Hv. simpl in H.
    simpl in Hv. unfold bind, ret in Hv.
    destruct (mapM (v_declarator scope) ds s) as [ds' s2|err s2] eqn:Ed;
      [|discriminate].
    inversion Hv; subst. simpl.
    eapply (mapM_forallb (v_declarator scope) (steady_d scope)
              (settled_d scope)); [|exact H|exact Ed].
    eapply Forall_impl; [|exact IH]. intros a Hp s0 b s0' Hs Hb.
    eapply Hp; eassumption.
  - intros b IH scope s st1 s1 H Hv. simpl in H.
    simpl in Hv. unfold bind, ret in Hv.
    destruct (v_block scope b s) as [b' s2|err s2] eqn:Eb; [|discriminate].
    inversion Hv; subst. simpl. eapply IH; eassumption.
  - intros test c a IHt IHc IHa scope s st1 s1 H Hv. simpl in H.
    apply andb_true_iff in H. destruct H as [H Ha].
    apply andb_true_iff in H. destruct H as [Ht Hc].
    simpl in Hv. unfold bind at 1 in Hv.
    destruct (v_expr scope test s) as [test' s2|err s2] eqn:Et;
      [|discriminate].
    unfold bind at 1 in Hv.
    destruct (v_block scope c s2) as [c' s3|err s3] eqn:Ec; [|discriminate].
    destruct a as [b|].
    + unfold bind, ret in Hv.
      destruct (v_block scope b s3) as [b' s4|err s4] eqn:Eb; [|discriminate].
      inversion Hv; subst. simpl.
      now rewrite (IHt scope s test' s2 Ht Et), (IHc scope s2 c' s3 Hc Ec),
        (IHa b eq_refl scope s3 b' s1 Ha Eb).
    + unfold bind, ret in Hv. inversion Hv; subst. simpl.
      now rewrite (IHt scope s test' s2 Ht Et), (IHc scope s2 c' s1 Hc Ec).
  - intros id ps b IH scope s st1 s1 H Hv. simpl in H.
    simpl in Hv. unfold bind, ret in Hv.
    destruct (v_block scope b s) as [b' s2|err s2] eqn:Eb; [|discriminate].
    inversion Hv; subst. simpl. eapply IH; eassumption.
  - intros [e|] IH scope s st1 s1 H Hv; simpl in H.
    + simpl in Hv. unfold bind, ret in Hv.
      destruct (v_expr scope e s) as [e' s2|err s2] eqn:Ee; [|discriminate].
      inversion Hv; subst. simpl. eapply (IH e eq_refl); eassumption.
    + simpl in Hv. inversion Hv. reflexivity.
  - intros n x [e|] IH scope s d1 s1 H Hv; simpl in H.
    + simpl in Hv. unfold bind, ret in Hv.
      destruct (v_expr scope e s) as [e' s2|err s2] eqn:Ee; [|discriminate].
      inversion Hv; subst. simpl. eapply (IH e eq_refl); eassumption.
    + simpl in Hv. inversion Hv. reflexivity.
  - intros f body IH scope s b1 s1 H Hv. simpl in H.
    simpl in Hv. unfold bind, ret in Hv.
    destruct (mapM (v_stmt (f :: scope)) body s) as [body' s2|err s2] eqn:Eb;
      [|discriminate].
    inversion Hv; subst. simpl.
    eapply (mapM_forallb (v_stmt (f :: scope)) (steady_s (f :: scope))
              (settled_s (f :: scope))); [|exact H|exact Eb].
    eapply Forall_impl; [|exact IH]. intros a Hp s0 b s0' Hs Hb.
    eapply Hp; eassumption.
Qed.

End VisitSteady.

(** *** What the hoisting pass leaves *)

Lemma Forall2_flat_map_Permutation {A B : Type} (g : A -> list B)
    (l l' : list A) :
  Forall2 (fun a a' => Permutation (g a') (g a)) l l' ->
  Permutation (flat_map g l') (flat_map g l).
Proof.
  induction 1 as [|a a' l l' Ha Hl IH]; simpl.
  - reflexivity.
  - now apply Permutation_app.
Qed.

Lemma forallb_Permutation {A : Type} (t : A -> bool) (l l' : list A) :
  Permutation l l' -> forallb t l = forallb t l'.
Proof.
  induction 1 as [|x l l' Hp IH|x y l|l l' l'' H1 IH1 H2 IH2]; simpl.
  - reflexivity.
  - now rewrite IH.
  - now rewrite !andb_assoc, (andb_comm (t y)).
  - congruence.
Qed.

Lemma Forall2_forallb {A : Type} (t : A -> bool) (l l' : list A) :
  Forall2 (fun a a' => t a' = t a) l l' -> forallb t l' = forallb t l.
Proof.
  induction 1 as [|a a' l l' Ha Hl IH]; simpl; congruence.
Qed.

Section PostIds.
Variable getter : option string.
Variable hoisted : list nat.
Variable blacklist : list string.

Local Abbreviation post_e := (post_expr getter hoisted).
Local Abbreviation post_s := (post_stmt getter hoisted).
Local Abbreviation post_d := (post_declarator getter hoisted).
Local Abbreviation post_b := (post_block getter hoisted).

Lemma post_block_scope (b b1 : block) :
  post_b b = Some b1 -> block_scope b1 = block_scope b.
Proof. destruct b as [f l]. intros H. post_parts H. reflexivity. Qed.

(** The pass permutes the identifiers a traversal collects. *)
Lemma post_ids :
  (forall e e1, post_e e = Some e1 ->
      forall inner, Permutation (ids_expr blacklist inner e1)
                                (ids_expr blacklist inner e))
  /\ (forall s s1, post_s s = Some s1 ->
         forall inner, Permutation (ids_stmt blacklist inner s1)
                                   (ids_stmt blacklist inner s))
  /\ (forall d d1, post_d d = Some d1 ->
         forall inner, Permutation (ids_declarator blacklist inner d1)
                                   (ids_declarator blacklist inner d))
  /\ (forall b b1, post_b b = Some b1 ->
         forall inner, Permutation (ids_block blacklist inner b1)
                                   (ids_block blacklist inner b)).
Proof.
  apply ast_ind; try (intros; post_parts H; reflexivity).
  - intros callee args IHc IHa e1 H inner. post_parts H. simpl.
    apply Permutation_app; [now apply IHc|].
    apply Forall2_flat_map_Permutation.
    eapply Forall2_Forall_impl; [exact IHa| |apply mapO_Forall2; eassumption].
    intros a b Hp Hab. now apply Hp.
  - intros object property computed IHo IHp e1 H inner. post_parts H. simpl.
    apply Permutation_app; [now apply IHo|].
    destruct computed; [now apply IHp|reflexivity].
  - intros lhs rhs IH e1 H inner. post_parts H. simpl. now apply IH.
  - intros ps b IH e1 H inner. post_parts H. simpl.
    rewrite (post_block_scope b b0 E).
    apply Permutation_app_head. now apply IH.
  - intros ps f body IH e1 H inner. post_parts H. simpl.
    apply Permutation_app_head. now apply IH.
  - intros e t IH e1 H inner. post_parts H. simpl.
    apply Permutation_app_tail. now apply IH.
  - intros e IH s1 H inner. post_parts H. simpl. now apply IH.
  - intros kind ds IH s1 H inner. post_parts H. simpl.
    apply Forall2_flat_map_Permutation.
    eapply Forall2_Forall_impl; [exact IH| |apply mapO_Forall2; eassumption].
    intros a b Hp Hab. now apply Hp.
  - intros b IH s1 H inner. post_parts H. simpl. now apply IH.
  - intros test c a IHt IHc IHa s1 H inner.
    destruct a as [b|]; post_parts H; simpl.
    + destruct (post_b b) as [b2|] eqn:E2; [|discriminate].
      simpl in E1. inversion E1; subst.
      apply Permutation_app; [now apply IHt|].
      apply Permutation_app; [now apply IHc|]. now apply (IHa b eq_refl).
    + apply Permutation_app; [now apply IHt|].
      apply Permutation_app; [now apply IHc|]. reflexivity.
  - intros id ps b IH s1 H inner. post_parts H. simpl.
    rewrite (post_block_scope b b0 E).
    apply Permutation_app_head. now apply IH.
  - intros [e|] IH s1 H inner; post_parts H; simpl;
      [now apply (IH e eq_refl) | reflexivity].
  - intros n x [e|] IH d1 H inner; post_parts H; simpl;
      [now apply (IH e eq_refl) | reflexivity].
  - intros f body IH b1 H inner. post_parts H. simpl.
    etransitivity.
    + apply Permutation_flat_map.
      eapply hoisted_block_Permutation. eassumption.
    + apply Forall2_flat_map_Permutation.
      eapply Forall2_Forall_impl; [exact IH| |apply mapO_Forall2; eassumption].
      intros a b Hp Hab. now apply Hp.
Qed.

Lemma traverse_ids_post (f f1 : expr) :
  post_e f = Some f1 ->
  Permutation (traverse_ids blacklist f1) (traverse_ids blacklist f).
Proof.
  destruct f as [| | | | | | |ps b|ps fr body|]; intros H;
    try (post_parts H; reflexivity).
  - post_parts H. simpl. rewrite (post_block_scope b b0 E).
    apply Permutation_app_head. now apply post_ids.
  - post_parts H. simpl. apply Permutation_app_head. now apply post_ids.
Qed.

End PostIds.

Section PostSettled.
Variable global_property_names : list string.
Variable getter : option string.
Variable hoisted : list nat.

Local Abbreviation post_e := (post_expr getter hoisted).
Local Abbreviation post_s := (post_stmt getter hoisted).
Local Abbreviation post_d := (post_declarator getter hoisted).
Local Abbreviation post_b := (post_block getter hoisted).
Local Abbreviation settled_e := (settled_expr global_property_names).
Local Abbreviation settled_s := (settled_stmt global_property_names).
Local Abbreviation settled_d := (settled_declarator global_property_names).
Local Abbreviation settled_b := (settled_block global_property_names).
(** Whether the detector's answer is a node. *)
Local Abbreviation kind :=
  (option_map (fun r : option expr =>
                 match r with Some _ => true | None => false end)).

Lemma isJestObject_post (scope : Scope) (e e1 : expr) :
  post_e e = Some e1 -> isJestObject scope e1 = isJestObject scope e.
Proof.
  intros H. apply post_expr_outline in H.
  now rewrite <- (isJestObject_outline scope e1), H, isJestObject_outline.
Qed.

Lemma rule_answer_post (pass : Scope -> IdPath -> bool) (scope : Scope)
    (property property1 : expr) (args args1 : list expr) :
  post_e property = Some property1 ->
  mapO post_e args = Some args1 ->
  rule_answer pass scope property1 args1
  = rule_answer pass scope property args.
Proof.
  intros Hp Ha. unfold rule_answer.
  assert (Hs : stateless_rule property1 args1 = stateless_rule property args).
  { rewrite <- (stateless_rule_outline property1 args1),
      <- (stateless_rule_outline property args).
    rewrite (post_expr_outline getter hoisted property property1 Hp).
    f_equal. apply Forall2_map_eq.
    eapply Forall2_impl; [|apply mapO_Forall2; exact Ha].
    intros a b. apply post_expr_outline. }
  rewrite Hs. destruct (stateless_rule property args); [reflexivity|].
  apply mapO_Forall2 in Ha.
  destruct Ha as [|a0 b0 args args1 H0 Ha]; [reflexivity|].
  destruct Ha as [|a1 b1 args args1 H1 Ha]; [reflexivity|].
  assert (Hf : isFunction b1 = isFunction a1).
  { apply post_expr_outline in H1.
    now rewrite <- (isFunction_outline b1), H1, isFunction_outline. }
  rewrite Hf.
  now rewrite (forallb_Permutation (pass scope) _ _
                 (traverse_ids_post getter hoisted IDVisitor_blacklist
                    a1 b1 H1)).
Qed.

Lemma detect_with_post (pass : Scope -> IdPath -> bool) (scope : Scope) :
  forall e e1,
    post_e e = Some e1 ->
    kind (detect_with pass scope e1) = kind (detect_with pass scope e).
Proof.
  fix IH 1. intros e e1 H.
  destruct e as [| | | |callee args| | | | |];
    try (post_parts H; reflexivity).
  simpl in H.
  destruct (post_e callee) as [callee1|] eqn:Ec; [|discriminate].
  destruct (mapO post_e args) as [args1|] eqn:Ea; [|discriminate].
  inversion H; subst. clear H.
  destruct callee as [| | | | |object property computed| | | |];
    try (post_parts Ec; reflexivity).
  destruct computed; [post_parts Ec; reflexivity|].
  simpl in Ec.
  destruct (post_e object) as [object1|] eqn:Eo; [|discriminate].
  destruct (post_e property) as [property1|] eqn:Ep; [|discriminate].
  inversion Ec; subst. clear Ec. simpl.
  rewrite (isJestObject_post scope object object1 Eo).
  rewrite (rule_answer_post pass scope property property1 args args1 Ep Ea).
  destruct (isJestObject scope object).
  - now destruct (rule_answer pass scope property args) as [[|]|].
  - pose proof (IH object object1 Eo) as Hk.
    destruct (detect_with pass scope object) as [[j|]|],
             (detect_with pass scope object1) as [[j1|]|];
      simpl in Hk; try discriminate; try reflexivity.
    now destruct (rule_answer pass scope property args) as [[|]|].
Qed.

Lemma calm_post (scope : Scope) (e e1 : expr) :
  post_e e = Some e1 ->
  calm global_property_names scope e1 = calm global_property_names scope e.
Proof.
  intros H. unfold calm.
  pose proof (detect_with_post (passes_unmarked global_property_names)
                scope e e1 H) as Hk.
  destruct (detect_with _ scope e) as [[j|]|],
           (detect_with _ scope e1) as [[j1|]|];
    simpl in Hk; try discriminate; reflexivity.
Qed.

(** The pass keeps a tree as settled as it was. *)
Lemma post_settled :
  (forall e e1, post_e e = Some e1 ->
      forall scope, settled_e scope e1 = settled_e scope e)
  /\ (forall s s1, post_s s = Some s1 ->
         forall scope, settled_s scope s1 = settled_s scope s)
  /\ (forall d d1, post_d d = Some d1 ->
         forall scope, settled_d scope d1 = settled_d scope d)
  /\ (forall b b1, post_b b = Some b1 ->
         forall scope, settled_b scope b1 = settled_b scope b).
Proof.
  apply ast_ind; try (intros; post_parts H; reflexivity).
  - intros callee args IHc IHa e1 H scope. post_parts H. simpl.
    rewrite (IHc _ eq_refl scope). f_equal.
    apply Forall2_forallb.
    eapply Forall2_Forall_impl; [exact IHa| |apply mapO_Forall2; eassumption].
    intros a b Hp Hab. now apply Hp.
  - intros object property computed IHo IHp e1 H scope. post_parts H. simpl.
    now rewrite (IHo _ eq_refl scope), (IHp _ eq_refl scope).
  - intros lhs rhs IH e1 H scope. post_parts H. simpl. now apply IH.
  - intros ps b IH e1 H scope. post_parts H. simpl. now apply IH.
  - intros ps f body IH e1 H scope. post_parts H. simpl. now apply IH.
  - intros e t IH e1 H scope. post_parts H. simpl. now apply IH.
  - intros e IH s1 H scope. post_parts H. simpl.
    now rewrite (calm_post scope e e0 E), (IH _ eq_refl scope).
  - intros kind ds IH s1 H scope. post_parts H. simpl.
    apply Forall2_forallb.
    eapply Forall2_Forall_impl; [exact IH| |apply mapO_Forall2; eassumption].
    intros a b Hp Hab. now apply Hp.
  - intros b IH s1 H scope. post_parts H. simpl. now apply IH.
  - intros test c a IHt IHc IHa s1 H scope.
    destruct a as [b|]; post_parts H; simpl.
    + destruct (post_b b) as [b2|] eqn:E2; [|discriminate].
      simpl in E1. inversion E1; subst.
      now rewrite (IHt _ eq_refl scope), (IHc _ eq_refl scope),
        (IHa b eq_refl _ E2 scope).
    + now rewrite (IHt _ eq_refl scope), (IHc _ eq_refl scope).
  - intros id ps b IH s1 H scope. post_parts H. simpl. now apply IH.
  - intros [e|] IH s1 H scope; post_parts H; simpl;
      [now apply (IH e eq_refl) | reflexivity].
  - intros n x [e|] IH d1 H scope; post_parts H; simpl;
      [now apply (IH e eq_refl) | reflexivity].
  - intros f body IH b1 H scope. post_parts H. simpl.
    rewrite (forallb_Permutation _ _ _
               (hoisted_block_Permutation getter hoisted _ _ E0)).
    apply Forall2_forallb.
    eapply Forall2_Forall_impl; [exact IH| |apply mapO_Forall2; eassumption].
    intros a b Hp Hab. now apply Hp.
Qed.

Lemma post_statements_settled (scope : Scope) (l l' : list stmt) :
  post_statements getter hoisted l = Some l' ->
  forallb (settled_s scope) l' = forallb (settled_s scope) l.
Proof.
  unfold post_statements. intros H.
  destruct (mapO post_s l) as [l1|] eqn:E; [|discriminate].
  rewrite (forallb_Permutation _ _ _
             (hoisted_block_Permutation getter hoisted _ _ H)).
  apply Forall2_forallb.
  eapply Forall2_impl; [|apply mapO_Forall2; exact E].
  intros s s1 Hs. now apply post_settled.
Qed.

End PostSettled.

(** *** The two applications *)

Lemma getter_declaration_settled (global_property_names : list string)
    (template_declarator_node : nat) (scope : Scope) (id : string) :
  settled_stmt global_property_names scope
    (createJestObjectGetter template_declarator_node id) = true.
Proof. reflexivity. Qed.

(** A first application to a steady program returns a settled one. *)
Lemma transform_steady_settled (global_property_names : list string)
    (isPure : Scope -> nat -> bool)
    (generateUidIdentifier : ScopeFrame -> string -> string)
    (template_declarator_node : nat) (p out : Program) (s0 s1 : state) :
  steady global_property_names isPure p = true ->
  transform global_property_names isPure generateUidIdentifier
    template_declarator_node p s0 = Return out s1 ->
  settled global_property_names out = true.
Proof.
  intros Hsteady H. unfold transform in H.
  destruct (visit_program global_property_names isPure generateUidIdentifier
              template_declarator_node p
              (mkState (hoistedVariables s0) None []))
    as [p1 s|err s] eqn:Hv; [|discriminate].
  destruct (post (jestObjGetterIdentifier s) (hoistedVariables s) p1)
    as [out'|] eqn:Hp; [|discriminate].
  inversion H; subst. clear H.
  destruct (visit_program_one_getter _ _ _ _ _ _ _ _ Hv)
    as (body' & s2 & Hm & Hbody).
  assert (Hscope : program_scope p1 = program_scope p).
  { unfold visit_program, bind in Hv. rewrite Hm in Hv.
    inversion Hv. reflexivity. }
  assert (Hb : forallb (settled_stmt global_property_names [program_scope p])
                 body' = true).
  { eapply (mapM_forallb _ (steady_stmt global_property_names isPure
                              [program_scope p])); [|exact Hsteady|exact Hm].
    apply Forall_forall. intros st _ s3 st1 s4 Hs Hst.
    eapply (proj1 (proj2 (visit_steady global_property_names isPure
                            generateUidIdentifier template_declarator_node
                            (program_scope p)))); eassumption. }
  unfold post in Hp.
  destruct (post_statements (jestObjGetterIdentifier s1) (hoistedVariables s1)
              (program_body p1)) as [l'|] eqn:Hl; [|discriminate].
  simpl in Hp. inversion Hp; subst. clear Hp.
  unfold settled. simpl. rewrite Hscope.
  rewrite (post_statements_settled global_property_names _ _ _ _ _ Hl).
  rewrite Hbody, forallb_app, Hb, andb_true_r.
  destruct (jestObjGetterIdentifier s1); reflexivity.
Qed.

(** C9, as the code has it.  Take a program in which every expression
    statement is one the detector accepts, or one it rejects before it
    validates a factory, or one it rejects after validating factories that
    mark no declarator, every expression statement nested in it being
    rejected without a mark as well.  When the transform returns on it, the
    transform applied to what it returned, starting without marked
    declarators, returns that program as it is: no expression is rewritten,
    no getter is declared, no statement and no declarator is moved. *)
Theorem second_application_unchanged (global_property_names : list string)
    (isPure : Scope -> nat -> bool)
    (generateUidIdentifier : ScopeFrame -> string -> string)
    (template_declarator_node : nat) (p out : Program) (s0 s1 : state) :
  steady global_property_names isPure p = true ->
  transform global_property_names isPure generateUidIdentifier
    template_declarator_node p s0 = Return out s1 ->
  transform global_property_names isPure generateUidIdentifier
    template_declarator_node out (mkState [] None [])
  = Return out (mkState [] None []).
Proof.
  intros Hsteady H. apply transform_settled.
  eapply transform_steady_settled; eassumption.
Qed.

(** ** The hoister, applied again *)

(** X1.  Hoisting a block that was hoisted, with the same getter and the
    same marked declarators, returns it as it is. *)
Theorem visitBlock_idempotent (getter : option string) (hoisted : list nat)
    (statements hoisted_statements : list stmt) :
  visitBlock getter hoisted statements = Done hoisted_statements ->
  visitBlock getter hoisted hoisted_statements = Done hoisted_statements.
Proof.
  intros H. apply visitBlock_returns in H. destruct H as [_ ->].
  rewrite visitBlock_grouped by apply grouped_has_group.
  now rewrite grouped_twice.
Qed.

(** ** What the hoister leaves alone *)

Section HoisterKeeps.
Variable getter : option string.
Variable hoisted : list nat.

Lemma existsb_false_list_sum {A : Type} (t : A -> bool) (g : A -> nat)
    (l : list A) :
  Forall (fun x => t x = false -> g x = 0) l ->
  existsb t l = false -> list_sum (map g l) = 0.
Proof.
  induction 1 as [|x l Hx Hl IH]; simpl; intros H; [reflexivity|].
  apply orb_false_iff in H. destruct H as [H1 H2].
  now rewrite (Hx H1), (IH H2).
Qed.

Lemma meets_no_getter_call :
  forall e, meets_getter_call getter e = false -> getter_calls getter e = 0.
Proof.
  apply (expr_ast_ind
    (fun e => meets_getter_call getter e = false ->
              getter_calls getter e = 0)
    (fun _ => True) (fun _ => True) (fun _ => True)); auto.
  - intros callee args IHc IHa H. simpl in H.
    apply orb_false_iff in H. destruct H as [H Ha].
    apply orb_false_iff in H. destruct H as [Hg Hc].
    simpl. rewrite Hg, (IHc Hc).
    now rewrite (existsb_false_list_sum _ _ args IHa Ha).
  - intros object property computed IHo IHp H. simpl in H.
    apply orb_false_iff in H. destruct H as [Ho Hp].
    simpl. now rewrite (IHo Ho), (IHp Hp).
Qed.

Lemma passive_declarators (ds : list declarator) :
  forallb (passive getter hoisted) ds = true ->
  filter (is_marked hoisted) ds = []
  /\ list_sum (map (init_getter_calls getter) ds) = 0.
Proof.
  induction ds as [|d ds IH]; simpl; intros H; [auto|].
  apply andb_true_iff in H. destruct H as [Hd Hds].
  destruct (IH Hds) as [IH1 IH2].
  unfold passive in Hd. apply andb_true_iff in Hd. destruct Hd as [H1 H2].
  apply negb_true_iff in H1. apply negb_true_iff in H2.
  unfold is_marked at 1. rewrite H1, IH2. split; [exact IH1|].
  destruct d as [n x [e|]]; simpl in *; [|reflexivity].
  now rewrite (meets_no_getter_call e H2).
Qed.

Lemma quiet_rest (s : stmt) :
  quiet getter hoisted s = true -> group_of getter hoisted s = Some Rest.
Proof.
  unfold group_of.
  destruct s as [e|kind ds|b|test c a|id ps b|[e|]|]; simpl; intros H;
    try reflexivity;
    try (apply negb_true_iff in H;
         now rewrite (meets_no_getter_call _ H)).
  destruct (passive_declarators ds H) as [H1 H2]. now rewrite H1, H2.
Qed.

(** X3.  A block in which no statement holds a marked declarator or meets
    a call of the getter is returned as it is. *)
Theorem visitBlock_quiet (statements : list stmt) :
  forallb (quiet getter hoisted) statements = true ->
  visitBlock getter hoisted statements = Done statements.
Proof.
  intros H.
  destruct (grouped_rest getter hoisted statements) as [Hg He].
  - apply Forall_forall. intros s Hin. apply quiet_rest.
    rewrite forallb_forall in H. now apply H.
  - rewrite (visitBlock_grouped getter hoisted statements Hg). now rewrite He.
Qed.

End HoisterKeeps.

(** ** The hoister and the nested blocks *)

Lemma mapO_None_In {A B : Type} (f : A -> option B) (l : list A) :
  mapO f l = None <-> exists x, In x l /\ f x = None.
Proof.
  induction l as [|a l IH]; simpl.
  - split; [discriminate | intros (x & [] & _)].
  - destruct (f a) as [b|] eqn:Ha.
    + destruct (mapO f l) as [bs|] eqn:Hl.
      * split; [discriminate|].
        intros (x & [<-|Hin] & Hx); [congruence|].
        assert (Habs : Some bs = None) by (apply IH; eauto).
        discriminate.
      * split; [|reflexivity]. intros _.
        destruct (proj1 IH eq_refl) as (x & Hin & Hx). eauto.
    + split; [|reflexivity]. intros _. eauto.
Qed.

Lemma Forall2_filter {A : Type} (R : A -> A -> Prop) (t : A -> bool)
    (l l' : list A) :
  (forall a b, R a b -> t b = t a) ->
  Forall2 R l l' -> Forall2 R (filter t l) (filter t l').
Proof.
  intros Ht. induction 1 as [|a b l l' Hab Hl IH]; simpl.
  - constructor.
  - rewrite (Ht a b Hab). destruct (t a); [constructor|]; assumption.
Qed.

Section HoisterCommutes.
Variable getter : option string.
Variable hoisted : list nat.

Local Abbreviation post_e := (post_expr getter hoisted).
Local Abbreviation post_s := (post_stmt getter hoisted).
Local Abbreviation post_d := (post_declarator getter hoisted).
Local Abbreviation post_b := (post_block getter hoisted).
Local Abbreviation group_of' := (group_of getter hoisted).

Lemma post_declarator_marked (d d1 : declarator) :
  post_d d = Some d1 -> is_marked hoisted d1 = is_marked hoisted d.
Proof. destruct d as [n x [e|]]; intros H; post_parts H; reflexivity. Qed.

Lemma post_declarator_calls (d d1 : declarator) :
  post_d d = Some d1 ->
  init_getter_calls getter d1 = init_getter_calls getter d.
Proof.
  destruct d as [n x [e|]]; intros H; post_parts H; [|reflexivity].
  simpl. apply getter_calls_same_outline.
  eapply post_expr_outline. eassumption.
Qed.

Lemma Forall2_list_sum {A : Type} (g : A -> nat) (l l' : list A) :
  Forall2 (fun a b => g b = g a) l l' ->
  list_sum (map g l') = list_sum (map g l).
Proof.
  induction 1 as [|a b l l' Hab Hl IH]; simpl; congruence.
Qed.

(** The pass over the nested blocks leaves a statement in its group. *)
Lemma group_of_post (s s1 : stmt) :
  post_s s = Some s1 -> group_of' s1 = group_of' s.
Proof.
  intros H. unfold group_of.
  destruct s as [e|kind ds|b|test c a|id ps b|[e|]|].
  - post_parts H. simpl.
    now rewrite (getter_calls_same_outline getter e e0
                   (post_expr_outline getter hoisted e e0 E)).
  - post_parts H. rename l into ds1.
    apply mapO_Forall2 in E.
    assert (Hm : Forall2 (fun d d1 => post_d d = Some d1)
                   (filter (is_marked hoisted) ds)
                   (filter (is_marked hoisted) ds1)).
    { apply Forall2_filter; [|exact E].
      intros a b. apply post_declarator_marked. }
    assert (Hc : list_sum (map (init_getter_calls getter) ds1)
                 = list_sum (map (init_getter_calls getter) ds)).
    { apply Forall2_list_sum. eapply Forall2_impl; [|exact E].
      intros a b. apply post_declarator_calls. }
    simpl. rewrite Hc.
    destruct Hm as [|m m1 ms ms1 _ Hm]; [reflexivity|].
    destruct Hm as [|m' m1' ms ms1 _ Hm]; [|reflexivity].
    destruct E as [|d d1 ds ds1 _ E]; [reflexivity|].
    destruct E; reflexivity.
  - post_parts H. reflexivity.
  - destruct a as [b|]; post_parts H; simpl;
      now rewrite (getter_calls_same_outline getter test e
                     (post_expr_outline getter hoisted test e E)).
  - post_parts H. reflexivity.
  - post_parts H. simpl.
    now rewrite (getter_calls_same_outline getter e e0
                   (post_expr_outline getter hoisted e e0 E)).
  - post_parts H. reflexivity.
  - post_parts H. reflexivity.
Qed.

Lemma has_group_post (l l1 : list stmt) :
  Forall2 (fun s s1 => post_s s = Some s1) l l1 ->
  forallb (has_group getter hoisted) l1 = forallb (has_group getter hoisted) l.
Proof.
  intros H. apply Forall2_forallb. eapply Forall2_impl; [|exact H].
  intros s s1 Hs. unfold has_group. now rewrite (group_of_post s s1 Hs).
Qed.

Lemma grouped_post (l l1 : list stmt) :
  Forall2 (fun s s1 => post_s s = Some s1) l l1 ->
  Forall2 (fun s s1 => post_s s = Some s1)
    (grouped getter hoisted l) (grouped getter hoisted l1).
Proof.
  intros H. unfold grouped.
  repeat apply Forall2_app; apply Forall2_filter; try exact H;
    intros s s1 Hs; unfold in_group; now rewrite (group_of_post s s1 Hs).
Qed.

(** Hoisting a block and then the blocks nested in its statements gives
    what hoisting the nested blocks first gives, and raises when that
    does. *)
Lemma hoisted_block_post (l : list stmt) :
  match hoisted_block getter hoisted l with
  | Some l' => mapO post_s l'
  | None => None
  end
  = post_statements getter hoisted l.
Proof.
  unfold post_statements, hoisted_block.
  destruct (mapO post_s l) as [l1|] eqn:E.
  - pose proof (mapO_Forall2 _ _ _ E) as F.
    destruct (forallb (has_group getter hoisted) l) eqn:Hg.
    + rewrite (visitBlock_grouped getter hoisted l Hg).
      rewrite (visitBlock_grouped getter hoisted l1)
        by (now rewrite (has_group_post l l1 F)).
      apply Forall2_mapO. now apply grouped_post.
    + destruct (visitBlock_raises getter hoisted l Hg) as [f Hf].
      destruct (visitBlock_raises getter hoisted l1) as [f1 Hf1];
        [now rewrite (has_group_post l l1 F)|].
      now rewrite Hf, Hf1.
  - destruct (visitBlock getter hoisted l) as [l'|f] eqn:Hv; [|reflexivity].
    apply mapO_None_In in E. destruct E as (x & Hin & Hx).
    apply mapO_None_In. exists x. split; [|exact Hx].
    eapply Permutation_in; [|exact Hin].
    symmetry. now apply visitBlock_Permutation in Hv.
Qed.

Lemma mapO_fixed {A : Type} (f : A -> option A) (l : list A) :
  Forall (fun x => f x = Some x) l -> mapO f l = Some l.
Proof.
  induction 1 as [|x l Hx Hl IH]; simpl; [reflexivity|]. now rewrite Hx, IH.
Qed.

Lemma hoisted_block_again (l l' : list stmt) :
  hoisted_block getter hoisted l = Some l' ->
  hoisted_block getter hoisted l' = Some l'.
Proof.
  unfold hoisted_block. intros H.
  destruct (visitBlock getter hoisted l) as [l0|f] eqn:Hv; [|discriminate].
  inversion H; subst. apply visitBlock_returns in Hv. destruct Hv as [_ ->].
  rewrite visitBlock_grouped by apply grouped_has_group.
  now rewrite grouped_twice.
Qed.

Lemma post_statements_again (l l' : list stmt) :
  Forall (fun s => forall s1, post_s s = Some s1 -> post_s s1 = Some s1) l ->
  post_statements getter hoisted l = Some l' ->
  post_statements getter hoisted l' = Some l'.
Proof.
  unfold post_statements. intros IH H.
  destruct (mapO post_s l) as [l1|] eqn:E; [|discriminate].
  assert (F1 : Forall (fun s1 => post_s s1 = Some s1) l1).
  { apply mapO_Forall2 in E. clear H.
    induction E as [|s s1 l l1 Hs _ IHE]; constructor.
    - inversion IH; subst. auto.
    - inversion IH; subst. auto. }
  assert (F' : Forall (fun s1 => post_s s1 = Some s1) l').
  { apply Forall_forall. intros x Hx. rewrite Forall_forall in F1.
    apply F1. eapply Permutation_in; [|exact Hx].
    now apply (hoisted_block_Permutation getter hoisted). }
  rewrite (mapO_fixed _ _ F'). now apply (hoisted_block_again l1).
Qed.

Lemma post_block_statements (f : ScopeFrame) (l : list stmt) :
  post_b (Block f l)
  = option_map (Block f) (post_statements getter hoisted l).
Proof.
  unfold post_statements. simpl. now destruct (mapO post_s l).
Qed.

Lemma post_again :
  (forall e e1, post_e e = Some e1 -> post_e e1 = Some e1)
  /\ (forall s s1, post_s s = Some s1 -> post_s s1 = Some s1)
  /\ (forall d d1, post_d d = Some d1 -> post_d d1 = Some d1)
  /\ (forall b b1, post_b b = Some b1 -> post_b b1 = Some b1).
Proof.
  apply ast_ind; try (intros; post_parts H; reflexivity).
  - intros callee args IHc IHa e1 H. post_parts H. simpl.
    rewrite (IHc _ eq_refl). rewrite mapO_fixed; [reflexivity|].
    apply mapO_Forall2 in E0. clear IHc.
    induction E0 as [|a b args l Hab _ IHE]; constructor;
      inversion IHa; subst; auto.
  - intros object property computed IHo IHp e1 H. post_parts H. simpl.
    now rewrite (IHo _ eq_refl), (IHp _ eq_refl).
  - intros lhs rhs IH e1 H. post_parts H. simpl. now rewrite (IH _ eq_refl).
  - intros ps b IH e1 H. post_parts H.
    change (post_e (FunctionExpression ps b0))
      with (option_map (FunctionExpression ps) (post_b b0)).
    now rewrite (IH _ eq_refl).
  - intros ps f body IH e1 H. post_parts H. simpl.
    now rewrite (IH _ eq_refl).
  - intros e t IH e1 H. post_parts H. simpl. now rewrite (IH _ eq_refl).
  - intros e IH s1 H. post_parts H. simpl. now rewrite (IH _ eq_refl).
  - intros kind ds IH s1 H. post_parts H. simpl.
    rewrite mapO_fixed; [reflexivity|].
    apply mapO_Forall2 in E.
    induction E as [|a b ds l Hab _ IHE]; constructor;
      inversion IH; subst; auto.
  - intros b IH s1 H. post_parts H.
    change (post_s (BlockStatement b0))
      with (option_map BlockStatement (post_b b0)).
    now rewrite (IH _ eq_refl).
  - intros test c a IHt IHc IHa s1 H.
    destruct a as [b|]; post_parts H.
    + destruct (post_b b) as [b2|] eqn:E2; [|discriminate].
      simpl in E1. inversion E1; subst.
      change (post_s (IfStatement e b0 (Some b2)))
        with (match post_e e, post_b b0, option_map Some (post_b b2) with
              | Some test', Some c', Some a' => Some (IfStatement test' c' a')
              | _, _, _ => None
              end).
      now rewrite (IHt _ eq_refl), (IHc _ eq_refl), (IHa b eq_refl _ E2).
    + change (post_s (IfStatement e b None))
        with (match post_e e, post_b b, Some None with
              | Some test', Some c', Some a' => Some (IfStatement test' c' a')
              | _, _, _ => None
              end).
      now rewrite (IHt _ eq_refl), (IHc _ eq_refl).
  - intros id ps b IH s1 H. post_parts H.
    change (post_s (FunctionDeclaration id ps b0))
      with (option_map (FunctionDeclaration id ps) (post_b b0)).
    now rewrite (IH _ eq_refl).
  - intros [e|] IH s1 H; post_parts H; [|reflexivity]. simpl.
    now rewrite (IH e eq_refl _ E).
  - intros n x [e|] IH d1 H; post_parts H; [|reflexivity]. simpl.
    now rewrite (IH e eq_refl _ E).
  - intros f body IH b1 H.
    rewrite post_block_statements in H.
    destruct (post_statements getter hoisted body) as [l'|] eqn:E;
      [|discriminate].
    simpl in H. inversion H; subst.
    rewrite post_block_statements.
    now rewrite (post_statements_again body l' IH E).
Qed.

End HoisterCommutes.

(** X4.  The order in which a block and the blocks nested in it are
    hoisted does not matter: hoisting the block and then the nested blocks
    of its statements returns what hoisting the nested blocks first
    returns, and raises when that raises. *)
Theorem visitBlock_post_commute (getter : option string) (hoisted : list nat)
    (statements : list stmt) :
  match hoisted_block getter hoisted statements with
  | Some hoisted_statements =>
      mapO (post_stmt getter hoisted) hoisted_statements
  | None => None
  end
  = post_statements getter hoisted statements.
Proof. apply hoisted_block_post. Qed.

(** X5.  The whole hoisting pass, run again with the same getter and the
    same marked declarators on what it returned, changes nothing in any
    block of the program. *)
Theorem post_idempotent (getter : option string) (hoisted : list nat)
    (p p' : Program) :
  post getter hoisted p = Some p' ->
  post getter hoisted p' = Some p'.
Proof.
  destruct p as [scope statements]. unfold post. simpl. intros H.
  destruct (post_statements getter hoisted statements) as [l'|] eqn:E;
    [|discriminate].
  simpl in H. inversion H; subst. simpl.
  rewrite (post_statements_again getter hoisted statements l'); try exact E.
  - reflexivity.
  - apply Forall_forall. intros s _. apply post_again.
Qed.

(** ** Where the hoister raises *)

Lemma visitBlock_ungrouped (getter : option string) (hoisted : list nat)
    (before after : list stmt) (s : stmt) :
  group_of getter hoisted s = None ->
  exists f, visitBlock getter hoisted (before ++ s :: after) = Raised f.
Proof.
  intros H. apply visitBlock_raises.
  rewrite forallb_app. simpl. unfold has_group at 2. rewrite H. simpl.
  apply andb_false_r.
Qed.

(** X21.  A marked declarator in a declaration of several declarators
    makes the hoisting of the block raise: the declarator is removed from
    its declaration, which leaves nothing to declare again. *)
Theorem marked_declarator_of_several_raises (getter : option string)
    (hoisted : list nat) (kind : string) (ds : list declarator)
    (before after : list stmt) :
  length ds <> 1 ->
  existsb (is_marked hoisted) ds = true ->
  exists f,
    visitBlock getter hoisted (before ++ VariableDeclaration kind ds :: after)
    = Raised f.
Proof.
  intros Hl Hm. apply visitBlock_ungrouped. unfold group_of. simpl.
  destruct (filter (is_marked hoisted) ds) as [|m [|m' ms]] eqn:Hf.
  - apply existsb_exists in Hm. destruct Hm as (d & Hin & Hd).
    assert (Habs : In d (filter (is_marked hoisted) ds))
      by (apply filter_In; auto).
    rewrite Hf in Habs. destruct Habs.
  - destruct (list_sum (map (init_getter_calls getter) ds)); [|reflexivity].
    destruct ds as [|d0 [|d1 ds]]; try reflexivity. now contradiction Hl.
  - reflexivity.
Qed.


(** ** The allow-list *)

Lemma mem_In (x : string) (l : list string) : mem x l = true <-> In x l.
Proof.
  unfold mem. rewrite existsb_exists. split.
  - intros (y & Hy & E). apply String.eqb_eq in E. now subst.
  - intros H. exists x. split; [exact H | apply String.eqb_refl].
Qed.

Lemma In_insert_sorted (x y : string) (l : list string) :
  In x (insert_sorted y l) <-> x = y \/ In x l.
Proof.
  induction l as [|z l IH]; simpl.
  - intuition.
  - destruct (String.leb y z); simpl; [intuition|].
    rewrite IH. intuition.
Qed.

Lemma In_sort (x : string) (l : list string) : In x (sort l) <-> In x l.
Proof.
  unfold sort. induction l as [|y l IH]; simpl.
  - reflexivity.
  - rewrite In_insert_sorted, IH. intuition.
Qed.

Lemma new_Set_from (l acc : list string) :
  NoDup acc ->
  NoDup (fold_left (fun set x => if mem x set then set else set ++ [x]) l acc)
  /\ forall x,
       In x (fold_left (fun set x => if mem x set then set else set ++ [x])
               l acc)
       <-> In x acc \/ In x l.
Proof.
  revert acc. induction l as [|y l IH]; intros acc Hacc; simpl.
  - split; [exact Hacc | intuition].
  - destruct (mem y acc) eqn:Hy.
    + destruct (IH acc Hacc) as [Hn Hin]. split; [exact Hn|].
      intros x. rewrite Hin. apply mem_In in Hy.
      intuition; subst; auto.
    + assert (Hacc' : NoDup (acc ++ [y])).
      { apply NoDup_app; [exact Hacc | repeat constructor; intros [] |].
        intros x Hx [E|[]]. subst.
        apply mem_In in Hx. congruence. }
      destruct (IH (acc ++ [y]) Hacc') as [Hn Hin]. split; [exact Hn|].
      intros x. rewrite Hin, in_app_iff. simpl. intuition.
Qed.

(** X16.  [ALLOWED_IDENTIFIERS] holds the names listed in the source and
    the property names of [global], and nothing else; sorting and the set
    lose no name, and the set holds each name once. *)
Theorem allowed_identifiers_members (global_property_names : list string) :
  (forall name,
      mem name (ALLOWED_IDENTIFIERS global_property_names) = true
      <-> In name listed_identifiers \/ In name global_property_names)
  /\ NoDup (ALLOWED_IDENTIFIERS global_property_names).
Proof.
  unfold ALLOWED_IDENTIFIERS, new_Set.
  destruct (new_Set_from
              (sort (listed_identifiers ++ global_property_names)) []
              (NoDup_nil _)) as [Hn Hin].
  split; [|exact Hn].
  intros name. rewrite mem_In.
  change (In name
            (fold_left (fun set x => if mem x set then set else set ++ [x])
               (sort (listed_identifiers ++ global_property_names)) [])
          <-> In name listed_identifiers \/ In name global_property_names).
  rewrite Hin, In_sort, in_app_iff. simpl. intuition.
Qed.


(** ** References to the jest object *)

Lemma referencesImport_true (scope : Scope) (e : expr) (source name : string) :
  referencesImport scope e source name = true <->
  exists local b,
    e = Identifier local
    /\ getBinding scope local = Some b
    /\ (path b = ImportSpecifierPath source name
        \/ (path b = ImportNamespaceSpecifierPath source /\ name = "*")).
Proof.
  unfold referencesImport. split.
  - destruct e as [local| | | | | | | | |]; try discriminate.
    destruct (getBinding scope local) as [b|] eqn:Hb; [|discriminate].
    destruct (path b) as [| src imported | src |] eqn:Hp; try discriminate.
    + intros H. apply andb_true_iff in H. destruct H as [H1 H2].
      apply String.eqb_eq in H1, H2. subst. exists local, b. auto.
    + intros H. apply andb_true_iff in H. destruct H as [H1 H2].
      apply String.eqb_eq in H1, H2. subst. exists local, b. auto.
  - intros (local & b & -> & Hb & [Hp | [Hp ->]]); rewrite Hb, Hp.
    + now rewrite !String.eqb_refl.
    + now rewrite !String.eqb_refl.
Qed.

(** X17.  An identifier is taken for the jest object exactly when it is
    [jest] and no scope binds [jest], or when it is bound, under any local
    name, by an import of [jest] from [@jest/globals]; and the member
    [jest] of a namespace import of [@jest/globals] is taken for it too. *)
Theorem isJestObject_cases (scope : Scope) :
  (forall name,
      isJestObject scope (Identifier name) = true <->
      (name = "jest" /\ getBinding scope "jest" = None)
      \/ (exists b,
             getBinding scope name = Some b
             /\ path b = ImportSpecifierPath "@jest/globals" "jest"))
  /\ (forall namespace b,
        getBinding scope namespace = Some b ->
        path b = ImportNamespaceSpecifierPath "@jest/globals" ->
        isJestObject scope
          (MemberExpression (Identifier namespace) (Identifier "jest") false)
        = true).
Proof.
  unfold isJestObject, JEST_GLOBAL_NAME, JEST_GLOBALS_MODULE_NAME,
    JEST_GLOBALS_MODULE_JEST_EXPORT_NAME.
  split.
  - intros name. split.
    + destruct (String.eqb name "jest" && negb (hasBinding scope "jest"))
        eqn:H1.
      * intros _. left.
        apply andb_true_iff in H1. destruct H1 as [Hn Hb].
        apply String.eqb_eq in Hn. subst. split; [reflexivity|].
        apply negb_true_iff in Hb. unfold hasBinding in Hb.
        destruct (getBinding scope "jest"); [discriminate | reflexivity].
      * destruct (referencesImport scope (Identifier name) "@jest/globals"
                    "jest") eqn:H2; [|discriminate].
        intros _. right.
        apply referencesImport_true in H2.
        destruct H2 as (local & b & E & Hb & [Hp | [_ Habs]]);
          [|discriminate].
        inversion E; subst. eauto.
    + intros [[-> Hb] | (b & Hb & Hp)].
      * unfold hasBinding. now rewrite Hb.
      * assert (H2 : referencesImport scope (Identifier name) "@jest/globals"
                       "jest" = true)
          by (apply referencesImport_true; eauto 6).
        rewrite H2.
        now destruct (String.eqb name "jest" && negb (hasBinding scope "jest")).
  - intros namespace b Hb Hp.
    assert (H : referencesImport scope (Identifier namespace) "@jest/globals"
                  "*" = true)
      by (apply referencesImport_true; eauto 7).
    rewrite H. reflexivity.
Qed.

(** ** What gets marked, and what gets detected again *)

Lemma has_add_inv (node n : nat) (set : list nat) :
  has node (add n set) = true -> node = n \/ has node set = true.
Proof.
  unfold add. destruct (has n set); [auto|].
  unfold has. simpl. intros H. apply orb_true_iff in H.
  destruct H as [H|H]; [left; now apply Nat.eqb_eq in H | auto].
Qed.

Section Justified.
Variable global_property_names : list string.
Variable isPure : Scope -> nat -> bool.
Variable generateUidIdentifier : ScopeFrame -> string -> string.
Variable template_declarator_node : nat.
Variable scopes : list Scope.

Lemma marks_justified_trans (s1 s2 s3 : state) :
  marks_justified isPure scopes s1 s2 -> marks_justified isPure scopes s2 s3 ->
  marks_justified isPure scopes s1 s3.
Proof.
  intros H12 H23 node H.
  destruct (H23 node H) as [H2|H2]; [now apply H12 | now right].
Qed.

Lemma marks_justified_marked (scope : Scope) (name : string) (node : nat)
    (s : state) :
  In scope scopes ->
  hoistable_binding isPure scope name = Some node ->
  marks_justified isPure scopes s (marked node s).
Proof.
  intros Hin Hh n H. simpl in H. apply has_add_inv in H.
  destruct H as [-> | H]; [right | now left].
  apply hoistable_binding_spec in Hh. destruct Hh as (b & Hb).
  exists scope, name, b. split; assumption.
Qed.

Lemma visit_marks_justified (program : ScopeFrame) :
  forall st scope,
    Forall (fun sc => In sc scopes) (scopes_stmt scope st) ->
    respects (marks_justified isPure scopes)
      (visit_stmt global_property_names isPure generateUidIdentifier
         template_declarator_node program scope st).
Proof.
  apply (respects_visit_in global_property_names isPure generateUidIdentifier
           template_declarator_node program (marks_justified isPure scopes)
           (fun sc => In sc scopes)).
  - intros s node H. now left.
  - apply marks_justified_trans.
  - apply marks_justified_marked.
  - intros s. unfold declareJestObjGetterIdentifier.
    destruct (jestObjGetterIdentifier s); intros node H; now left.
Qed.

End Justified.

(** X19.  Only safe declarators get marked: a declarator that is in
    [hoistedVariables] after the transform of a program, returned or
    raised, and was not in it before, is bound, in the scope of one of the
    program's expression statements, by a declarator that has an
    initializer, is constant and has a pure initializer in that scope. *)
Theorem only_pure_constants_marked (global_property_names : list string)
    (isPure : Scope -> nat -> bool)
    (generateUidIdentifier : ScopeFrame -> string -> string)
    (template_declarator_node : nat) (p : Program) (s0 : state) :
  match transform global_property_names isPure generateUidIdentifier
          template_declarator_node p s0 with
  | Return _ s' => marks_justified isPure (detector_scopes p) s0 s'
  | Throw _ s' => marks_justified isPure (detector_scopes p) s0 s'
  end.
Proof.
  unfold transform, visit_program, bind.
  assert (H : respects (marks_justified isPure (detector_scopes p))
                (mapM (visit_stmt global_property_names isPure
                         generateUidIdentifier template_declarator_node
                         (program_scope p) [program_scope p])
                      (program_body p))).
  { apply respects_mapM.
    - intros s node Hn. now left.
    - apply marks_justified_trans.
    - apply Forall_forall. intros st Hst. apply visit_marks_justified.
      apply Forall_forall. intros sc Hsc. unfold detector_scopes.
      apply in_flat_map. eauto. }
  specialize (H (mkState (hoistedVariables s0) None [])).
  destruct (mapM _ (program_body p) (mkState (hoistedVariables s0) None []))
    as [body' s1|e s1]; [|exact H].
  simpl. now destruct (post _ _ _).
Qed.

(** X20.  A statement the visitor rewrote is not detected again: the
    detector, run on the expression of the returned statement in any
    state, returns null and leaves the state alone. *)
Theorem rewritten_statement_not_detected
    (global_property_names : list string) (isPure : Scope -> nat -> bool)
    (generateUidIdentifier : ScopeFrame -> string -> string)
    (template_declarator_node : nat) (program : ScopeFrame) (scope : Scope)
    (e j : expr) (s s1 s' : state) (st : stmt) :
  extractJestObjExprIfHoistable global_property_names isPure scope e s
  = Return (Some j) s1 ->
  visit_stmt global_property_names isPure generateUidIdentifier
    template_declarator_node program scope (ExpressionStatement e) s
  = Return st s' ->
  exists e',
    st = ExpressionStatement e'
    /\ forall s2,
         extractJestObjExprIfHoistable global_property_names isPure scope e'
           s2 = Return None s2.
Proof.
  intros Hx Hv. simpl in Hv. unfold bind at 1 in Hv. rewrite Hx in Hv.
  unfold bind at 1 in Hv. unfold bind at 1 in Hv.
  destruct (declareJestObjGetterIdentifier generateUidIdentifier
              template_declarator_node program s1) as [id s2|err s2];
    [|discriminate].
  unfold ret at 1 in Hv. unfold bind, ret in Hv.
  destruct (visit_expr global_property_names isPure generateUidIdentifier
              template_declarator_node program scope e s2)
    as [e' s3|err s3]; [|discriminate].
  inversion Hv; subst. clear Hv.
  eexists. split; [reflexivity|].
  intros s2'. apply inert_sound. apply rewritten_inert.
Qed.

(** ** Instances *)


Lemma invalid_factory_iff_witness :
  isFunction (NumericLiteral 5) = false <->
  exists st,
    Run.extract [Sample.globals_only] Sample.invalid_factory Sample.initial
    = Throw (TypeError (NumericLiteral 5) invalid_factory_message) st.
Proof.
  apply (invalid_factory_iff Sample.global_property_names Sample.isPure
           [Sample.globals_only] Sample.jest (StringLiteral "m")
           (NumericLiteral 5) Sample.jest [] Sample.initial Sample.initial).
  - simpl. lia.
  - reflexivity.
Defined.

Lemma free_identifier_hoisted_or_rejected_witness :
  (exists s',
      check_id Sample.global_property_names Sample.isPure [Sample.const_x]
        Sample.x_in_factory Sample.initial
      = Return tt s'
      /\ has 7 (hoistedVariables s') = true
      /\ (forall n, has n (hoistedVariables s') = true <->
                    n = 7 \/ has n (hoistedVariables Sample.initial) = true)
      /\ jestObjGetterIdentifier s' = jestObjGetterIdentifier Sample.initial
      /\ unshifted s' = unshifted Sample.initial)
  /\ check_id Sample.global_property_names Sample.isPure
       [Sample.reassigned_x] Sample.x_in_factory Sample.initial
     = Throw (Run.out_of_scope "x") Sample.initial.
Proof.
  split.
  - apply (proj1 (free_identifier_hoisted_or_rejected
                    Sample.global_property_names Sample.isPure
                    [Sample.const_x] Sample.x_in_factory Sample.initial
                    eq_refl eq_refl eq_refl eq_refl)
             7 (mkBinding (VariableDeclaratorPath 7 true) true));
      reflexivity.
  - apply (proj2 (free_identifier_hoisted_or_rejected
                    Sample.global_property_names Sample.isPure
                    [Sample.reassigned_x] Sample.x_in_factory Sample.initial
                    eq_refl eq_refl eq_refl eq_refl)).
    intros (node & b & Hb & Hp & Hc & Hi).
    simpl in Hb. inversion Hb; subst. discriminate.
Defined.

Lemma free_identifier_allowed_by_name_witness :
  check_id Sample.global_property_names Sample.isPure [Sample.const_mockFoo]
    Sample.mockFoo_in_factory Sample.initial
  = Return tt Sample.initial.
Proof.
  apply (free_identifier_allowed_by_name Sample.global_property_names
           Sample.isPure [Sample.const_mockFoo] Sample.mockFoo_in_factory
           Sample.initial).
  - reflexivity.
  - right. left. reflexivity.
Defined.

Lemma type_annotations_excluded_witness :
  FUNCTIONS_mock Sample.global_property_names Sample.isPure
    [Sample.globals_only]
    [StringLiteral "m"; retype_expr Sample.to_any Sample.typed_factory]
    Sample.initial
  = FUNCTIONS_mock Sample.global_property_names Sample.isPure
      [Sample.globals_only] [StringLiteral "m"; Sample.typed_factory]
      Sample.initial.
Proof.
  apply (type_annotations_excluded Sample.global_property_names Sample.isPure
           Sample.to_any [Sample.globals_only] (StringLiteral "m")
           Sample.typed_factory [] Sample.initial).
  reflexivity.
Defined.

Lemma getter_declared_once_witness :
  declare_times Sample.generateUidIdentifier Sample.template_declarator_node
    Sample.globals_only 3 Sample.initial
  = Return ["_getJestObj"; "_getJestObj"; "_getJestObj"]
      (mkState [] (Some "_getJestObj")
         [createJestObjectGetter Sample.template_declarator_node
            "_getJestObj"]).
Proof.
  apply (getter_declared_once Sample.generateUidIdentifier
           Sample.template_declarator_node Sample.globals_only
           Sample.initial 2).
  reflexivity.
Defined.

Lemma second_application_unchanged_witness :
  Run.transform Sample.with_reset_output (mkState [] None [])
  = Return Sample.with_reset_output (mkState [] None []).
Proof.
  apply (second_application_unchanged Sample.global_property_names
           Sample.isPure Sample.generateUidIdentifier
           Sample.template_declarator_node Sample.with_reset
           Sample.with_reset_output Sample.initial
           (mkState [] (Some "_getJestObj") [])).
  - reflexivity.
  - reflexivity.
Defined.

Lemma visitBlock_order_witness :
  [Sample.declare_x; Cases.mock_x_rewritten; Sample.A; Sample.B]
  = filter (in_group (Some "_getJestObj") [7] Declarations)
      [Sample.A; Cases.mock_x_rewritten; Sample.declare_x; Sample.B]
    ++ filter (in_group (Some "_getJestObj") [7] Calls)
         [Sample.A; Cases.mock_x_rewritten; Sample.declare_x; Sample.B]
    ++ filter (in_group (Some "_getJestObj") [7] Rest)
         [Sample.A; Cases.mock_x_rewritten; Sample.declare_x; Sample.B].
Proof.
  apply (proj1 (visitBlock_order (Some "_getJestObj") [7]
                  [Sample.A; Cases.mock_x_rewritten; Sample.declare_x;
                   Sample.B])
           [Sample.declare_x; Cases.mock_x_rewritten; Sample.A; Sample.B]).
  reflexivity.
Defined.

Lemma hoisting_is_block_local_witness :
  Permutation
    [Cases.mock_x_rewritten; BlockStatement (Block (mkFrame [] []) [Sample.A])]
    [BlockStatement (Block (mkFrame [] []) [Sample.A]); Cases.mock_x_rewritten]
  /\ Permutation
       (flat_map blocks_stmt
          [Cases.mock_x_rewritten;
           BlockStatement (Block (mkFrame [] []) [Sample.A])])
       (flat_map blocks_stmt
          [BlockStatement (Block (mkFrame [] []) [Sample.A]);
           Cases.mock_x_rewritten]).
Proof.
  apply (proj1 hoisting_is_block_local (Some "_getJestObj") []
           [BlockStatement (Block (mkFrame [] []) [Sample.A]);
            Cases.mock_x_rewritten]
           [Cases.mock_x_rewritten;
            BlockStatement (Block (mkFrame [] []) [Sample.A])]).
  reflexivity.
Defined.

(** ** Instances of the further properties *)

Lemma visitBlock_idempotent_witness :
  visitBlock (Some "_getJestObj") [7]
    [Sample.declare_x; Cases.mock_x_rewritten; Sample.A; Sample.B]
  = Done [Sample.declare_x; Cases.mock_x_rewritten; Sample.A; Sample.B].
Proof.
  apply (visitBlock_idempotent (Some "_getJestObj") [7]
           [Sample.A; Cases.mock_x_rewritten; Sample.declare_x; Sample.B]).
  reflexivity.
Defined.

Lemma post_idempotent_witness :
  post (Some "_getJestObj") [] Sample.four_statements_output
  = Some Sample.four_statements_output.
Proof.
  apply (post_idempotent (Some "_getJestObj") []
           (mkProgram Sample.globals_only
              [createJestObjectGetter Sample.template_declarator_node
                 "_getJestObj";
               Sample.A;
               ExpressionStatement
                 (Sample.method Sample.getJestObj "mock" [StringLiteral "x"]);
               Sample.B;
               ExpressionStatement
                 (Sample.method Sample.getJestObj "mock"
                    [StringLiteral "y"])])).
  reflexivity.
Defined.

Lemma visitBlock_quiet_witness :
  visitBlock (Some "_getJestObj") [7] [Sample.A; Sample.B]
  = Done [Sample.A; Sample.B].
Proof.
  apply (visitBlock_quiet (Some "_getJestObj") [7] [Sample.A; Sample.B]).
  reflexivity.
Defined.

Lemma detected_node_is_jest_root_witness :
  isJestObject [Sample.globals_only] Sample.jest = true
  /\ receiver_reaches_jest [Sample.globals_only] Cases.chained = true
  /\ replaceJestObjExpr [Sample.globals_only] Sample.jest Cases.chained
     = Cases.chained.
Proof.
  apply (detected_node_is_jest_root Sample.global_property_names
           Sample.isPure [Sample.globals_only] Cases.chained Sample.jest
           Sample.initial Sample.initial).
  reflexivity.
Defined.

Lemma accepted_chain_uses_rules_witness :
  Forall (fun property =>
            exists name, property = Identifier name /\ In name rule_names)
         (chain_properties [Sample.globals_only] Cases.chained).
Proof.
  apply (accepted_chain_uses_rules Sample.global_property_names
           Sample.isPure [Sample.globals_only] Cases.chained Sample.jest
           Sample.initial Sample.initial).
  reflexivity.
Defined.

Lemma unmock_takes_one_string_witness :
  Run.extract [Sample.globals_only]
    (Sample.method Sample.jest "unmock" [StringLiteral "a"]) Sample.initial
  = Return (Some Sample.jest) Sample.initial
  <-> exists value, [StringLiteral "a"] = [StringLiteral value].
Proof.
  apply (unmock_takes_one_string Sample.global_property_names Sample.isPure
           [Sample.globals_only] Sample.jest "unmock" [StringLiteral "a"]
           Sample.initial).
  - reflexivity.
  - left. reflexivity.
Defined.

Lemma automock_takes_no_argument_witness :
  Run.extract [Sample.globals_only]
    (Sample.method Sample.jest "enableAutomock" []) Sample.initial
  = Return (Some Sample.jest) Sample.initial
  <-> @nil expr = [].
Proof.
  apply (automock_takes_no_argument Sample.global_property_names
           Sample.isPure [Sample.globals_only] Sample.jest "enableAutomock"
           [] Sample.initial).
  - reflexivity.
  - right. reflexivity.
Defined.

Lemma mock_argument_count_witness :
  Run.extract [Sample.globals_only]
    (Sample.method Sample.jest "mock" Cases.four_arguments) Sample.initial
  = Return None Sample.initial.
Proof.
  apply (proj1 (mock_argument_count Sample.global_property_names
                  Sample.isPure [Sample.globals_only] Sample.jest
                  Cases.four_arguments Sample.initial eq_refl)).
  right. simpl. lia.
Defined.

Lemma factory_accepted_iff_witness :
  for_each_id Sample.global_property_names Sample.isPure [Sample.const_x]
    [Sample.mockFoo_in_factory; Sample.x_in_factory] Sample.initial
  = Return tt (marked 7 Sample.initial).
Proof.
  apply (proj1 (factory_accepted_iff Sample.global_property_names
                  Sample.isPure [Sample.const_x]
                  [Sample.mockFoo_in_factory; Sample.x_in_factory]
                  Sample.initial)).
  reflexivity.
Defined.

Lemma first_rejected_identifier_witness :
  for_each_id Sample.global_property_names Sample.isPure
    [Sample.reassigned_x]
    [Sample.mockFoo_in_factory; Sample.x_in_factory;
     Sample.mockFoo_in_factory] Sample.initial
  = Throw (Run.out_of_scope "x") Sample.initial.
Proof.
  apply (first_rejected_identifier Sample.global_property_names
           Sample.isPure [Sample.reassigned_x] [Sample.mockFoo_in_factory]
           Sample.x_in_factory [Sample.mockFoo_in_factory] Sample.initial);
    reflexivity.
Defined.

Lemma getter_identifier_stable_witness :
  match visit_stmt Sample.global_property_names Sample.isPure
          Sample.generateUidIdentifier Sample.template_declarator_node
          Sample.globals_only [Sample.globals_only]
          (ExpressionStatement Cases.mock_x) Cases.with_getter with
  | Return _ s' =>
      jestObjGetterIdentifier s' = Some "_getJestObj"
      /\ unshifted s' = unshifted Cases.with_getter
  | Throw _ s' =>
      jestObjGetterIdentifier s' = Some "_getJestObj"
      /\ unshifted s' = unshifted Cases.with_getter
  end.
Proof.
  apply (getter_identifier_stable Sample.global_property_names Sample.isPure
           Sample.generateUidIdentifier Sample.template_declarator_node
           Sample.globals_only [Sample.globals_only]
           (ExpressionStatement Cases.mock_x) Cases.with_getter
           "_getJestObj").
  reflexivity.
Defined.

Lemma rewritten_statement_is_hoisted_witness :
  exists id,
    jestObjGetterIdentifier Cases.with_getter = Some id
    /\ forall hoisted,
         walk_statement (Some id) hoisted visitBlock_blacklist
           Cases.mock_x_rewritten
         = match getter_calls (Some id) Cases.mock_x with
           | 0 => Done (None, mkMoved [] [Cases.mock_x_rewritten])
           | S _ => Raised NoStatementParent
           end.
Proof.
  apply (rewritten_statement_is_hoisted Sample.global_property_names
           Sample.isPure Sample.generateUidIdentifier
           Sample.template_declarator_node Sample.globals_only
           [Sample.globals_only] Cases.mock_x Sample.jest Sample.initial
           Sample.initial Cases.with_getter Cases.mock_x_rewritten);
    reflexivity.
Defined.

Lemma isJestObject_cases_witness :
  isJestObject [Cases.namespace_import]
    (MemberExpression (Identifier "JestGlobals") (Identifier "jest") false)
  = true.
Proof.
  apply (proj2 (isJestObject_cases [Cases.namespace_import])
           "JestGlobals"
           (mkBinding (ImportNamespaceSpecifierPath "@jest/globals") true));
    reflexivity.
Defined.

Lemma rewritten_statement_not_detected_witness :
  exists e',
    Cases.mock_x_rewritten = ExpressionStatement e'
    /\ forall s2, Run.extract [Sample.globals_only] e' s2 = Return None s2.
Proof.
  apply (rewritten_statement_not_detected Sample.global_property_names
           Sample.isPure Sample.generateUidIdentifier
           Sample.template_declarator_node Sample.globals_only
           [Sample.globals_only] Cases.mock_x Sample.jest Sample.initial
           Sample.initial Cases.with_getter Cases.mock_x_rewritten);
    reflexivity.
Defined.

Lemma marked_declarator_of_several_raises_witness :
  exists f,
    visitBlock (Some "_getJestObj") [7]
      ([Sample.A]
       ++ VariableDeclaration "const"
            [VariableDeclarator 7 (LIdentifier "x") (Some (NumericLiteral 1));
             VariableDeclarator 8 (LIdentifier "y") (Some (NumericLiteral 2))]
          :: [Sample.B])
    = Raised f.
Proof.
  apply (marked_declarator_of_several_raises (Some "_getJestObj") [7] "const"
           [VariableDeclarator 7 (LIdentifier "x") (Some (NumericLiteral 1));
            VariableDeclarator 8 (LIdentifier "y") (Some (NumericLiteral 2))]
           [Sample.A] [Sample.B]).
  - simpl. lia.
  - reflexivity.
Defined.

